(** * soniox-proxy: the relay and the HTTP endpoints of [server.js]

    A shallow embedding of the WebSocket relay of the current [server.js]
    ([wss.on('connection')], [handleClientMessage], [connectToSoniox] and
    the handlers it registers, [cleanupConnection], [sendToClient],
    [sendError], the SIGTERM handler) as a transition system over an
    explicit world: a heap of sockets with their [readyState], a heap of
    connection records (the objects the upstream handlers close over), the
    [connections] map, the pending [setTimeout] callbacks and the log of
    every call made on a socket or on the credential verifier.  The
    environment ([ws] sockets, the clock, the identity provider, the
    client and the speech provider) drives it by events.

    [src/server.js] holds two older copies of the file after the current
    one.  They differ from it in a few places, which are embedded in
    [Module HeaderAuth] (the provider key goes in an [Authorization]
    header, the client config is forwarded as it is, the client token is
    read from the query string only) and [Module ReadyOnOpen] (the oldest
    copy: every binary frame is audio, readiness is signalled on open).
    The callback of [createServer], which serves the HTTP endpoints, is
    embedded after them as a function from a request and the answers of
    the identity provider and of the speech provider to the calls made
    and the response written. *)

From stdpp Require Import base option list gmap strings pretty.
From Stdlib Require Import ZArith String Ascii Lia.

Local Open Scope string_scope.
Local Open Scope list_scope.

(** ** JSON values and the JavaScript operators applied to them *)

#[local] Set Warnings "-register-all".

Inductive json : Type :=
| JNull
| JBool (b : bool)
| JNum (n : Z)
| JStr (s : string)
| JArr (items : list json)
| JObj (fields : list (string * json)).

(** Result of a handler body: it returns, or an exception escapes. *)
Inductive Result (A : Type) : Type :=
| Ok (a : A)
| Throw (msg : string).
Arguments Ok {A} a.
Arguments Throw {A} msg.

Fixpoint assoc {A : Type} (k : string) (l : list (string * A)) : option A :=
  match l with
  | [] => None
  | (k', v) :: l' => if String.eqb k k' then Some v else assoc k l'
  end.

(** [v.k] on a value that is not [null]; [None] is [undefined].  None of
    the keys the relay reads exists on a primitive or on an array. *)
Definition field (k : string) (v : json) : option json :=
  match v with
  | JObj fs => assoc k fs
  | _ => None
  end.

(** [v.k] with the [TypeError] that reading a property of [null] raises. *)
Definition getProp (k : string) (v : json) : Result (option json) :=
  match v with
  | JNull => Throw "TypeError: Cannot read properties of null"
  | _ => Ok (field k v)
  end.

Definition isEmpty (s : string) : bool :=
  match s with
  | EmptyString => true
  | String _ _ => false
  end.

(** JavaScript truthiness; [None] is [undefined]. *)
Definition truthy (v : option json) : bool :=
  match v with
  | None => false
  | Some JNull => false
  | Some (JBool b) => b
  | Some (JNum n) => negb (Z.eqb n 0)
  | Some (JStr s) => negb (isEmpty s)
  | Some (JArr _) => true
  | Some (JObj _) => true
  end.

(** [v || d] *)
Definition orElse (v : option json) (d : json) : json :=
  match v with
  | Some x => if truthy v then x else d
  | None => d
  end.

(** [v !== false] *)
Definition notFalse (v : option json) : bool :=
  match v with
  | Some (JBool false) => false
  | _ => true
  end.

(** [v === 'lit'] *)
Definition isStr (lit : string) (v : option json) : bool :=
  match v with
  | Some (JStr s) => String.eqb s lit
  | _ => false
  end.

(** [String(v)] raises a [TypeError]: [v] is an object with an own
    property [toString] (which, parsed from JSON, is no function), or an
    array that holds such a value. *)
Fixpoint toStringThrows (v : json) : bool :=
  match v with
  | JObj fs => existsb (fun kv => String.eqb (fst kv) "toString") fs
  | JArr items => existsb toStringThrows items
  | _ => false
  end.

(** ** Strings: [startsWith], [split(',')], [trim], [replace] *)

Definition startsWith (p s : string) : bool := String.prefix p s.

Fixpoint dropStr (n : nat) (s : string) : string :=
  match n, s with
  | O, _ => s
  | S n', String _ s' => dropStr n' s'
  | S _, EmptyString => EmptyString
  end.

(** [s.replace(pat, rep)] with a string pattern: the first occurrence. *)
Fixpoint replace (pat rep s : string) : string :=
  if startsWith pat s then String.append rep (dropStr (String.length pat) s)
  else match s with
       | EmptyString => EmptyString
       | String c s' => String c (replace pat rep s')
       end.

(** [s.split(',')]: never empty, the pieces between the commas. *)
Fixpoint splitComma (s : string) : list string :=
  match s with
  | EmptyString => [EmptyString]
  | String c s' =>
      if Ascii.eqb c ","%char then EmptyString :: splitComma s'
      else match splitComma s' with
           | p :: ps => String c p :: ps
           | [] => [String c EmptyString]
           end
  end.

(** White space that [trim] removes, among the Latin-1 characters a
    header value can hold. *)
Definition isSpace (c : ascii) : bool :=
  let n := nat_of_ascii c in
  (Nat.eqb n 32 || Nat.eqb n 9 || Nat.eqb n 10 || Nat.eqb n 11
   || Nat.eqb n 12 || Nat.eqb n 13 || Nat.eqb n 160)%bool.

Fixpoint trimStart (s : string) : string :=
  match s with
  | EmptyString => EmptyString
  | String c s' => if isSpace c then trimStart s' else s
  end.

Fixpoint trimEnd (s : string) : string :=
  match s with
  | EmptyString => EmptyString
  | String c s' =>
      match trimEnd s' with
      | EmptyString => if isSpace c then EmptyString else String c EmptyString
      | t => String c t
      end
  end.

Definition trim (s : string) : string := trimEnd (trimStart s).

(** ** Sockets, connection records, the world *)

(** [WebSocket.CONNECTING], [OPEN], [CLOSING], [CLOSED] *)
Inductive ReadyState : Type := CONNECTING | OPEN | CLOSING | CLOSED.

(** What the handlers registered on a socket close over.  A client socket
    has handlers once authentication succeeded, and they hold the
    connection id; an upstream socket is created by [connectToSoniox],
    and its handlers hold the connection record [conn] (a reference into
    the heap), the connection id and the client config. *)
Inductive SockKind : Type :=
| ClientSock (handlers : option string)
| UpstreamSock (conn : nat) (connectionId : string) (config : json).

(** A socket handle: its handlers, its [readyState], and whether the
    handshake completed (only then can it deliver frames). *)
Record Sock : Type := mkSock {
  kind : SockKind;
  readyState : ReadyState;
  established : bool
}.

(** The leg a socket belongs to. *)
Inductive Leg : Type := ClientLeg | UpstreamLeg.

Definition legOf (k : SockKind) : Leg :=
  match k with
  | ClientSock _ => ClientLeg
  | UpstreamSock _ _ _ => UpstreamLeg
  end.

(** [connectionInfo]: [{ clientWs, sonioxWs: null, connectionId, isReady: false }] *)
Record ConnInfo : Type := mkConn {
  clientWs : nat;
  sonioxWs : option nat;
  connectionId : string;
  isReady : bool
}.

(** What is handed to [send]: [JSON.stringify] of a value; the [data]
    of a received frame as it came (a [Buffer], which goes out as a
    binary frame with the same bytes); or [data.toString()] of a received
    frame, a string, which goes out as a text frame: the bytes of [data]
    read as UTF-8, every sequence that is not well formed replaced by
    U+FFFD. *)
Inductive Payload : Type :=
| PJson (v : json)
| PRaw (data : string)
| PText (data : string).

(** Every call the relay makes on a socket or on the credential
    verifier.  [ASend] and [AClose] record the socket's state at the
    moment of the call, [ASend] also the leg the socket is on. *)
Inductive Action : Type :=
| ASend (s : nat) (leg : Leg) (at_state : ReadyState) (p : Payload)
| AClose (s : nat) (at_state : ReadyState) (code : option Z)
| AConnect (s : nat) (url : string) (authorization : option string)
| AVerify (token : string).

(** The process: the socket handles, the connection records, the
    [connections] map (id to record), the pending timers (upstream socket
    and delay), the log, whether the server still accepts connections and
    whether an uncaught exception has ended the process. *)
Record World : Type := mkWorld {
  socks : list Sock;
  heap : list ConnInfo;
  connections : gmap string nat;
  timers : list (nat * Z);
  log : list Action;
  listening : bool;
  crashed : bool
}.

Definition initial : World := mkWorld [] [] ∅ [] [] true false.

Definition emit (a : Action) (w : World) : World :=
  mkWorld (socks w) (heap w) (connections w) (timers w) (log w ++ [a])
    (listening w) (crashed w).

Definition setSocks (ss : list Sock) (w : World) : World :=
  mkWorld ss (heap w) (connections w) (timers w) (log w) (listening w) (crashed w).

Definition setHeap (h : list ConnInfo) (w : World) : World :=
  mkWorld (socks w) h (connections w) (timers w) (log w) (listening w) (crashed w).

Definition setConnections (m : gmap string nat) (w : World) : World :=
  mkWorld (socks w) (heap w) m (timers w) (log w) (listening w) (crashed w).

Definition setTimers (t : list (nat * Z)) (w : World) : World :=
  mkWorld (socks w) (heap w) (connections w) t (log w) (listening w) (crashed w).

Definition stopListening (w : World) : World :=
  mkWorld (socks w) (heap w) (connections w) (timers w) (log w) false (crashed w).

Definition setCrashed (w : World) : World :=
  mkWorld (socks w) (heap w) (connections w) (timers w) (log w) (listening w) true.

Definition stateOf (s : nat) (w : World) : option ReadyState :=
  readyState <$> socks w !! s.

Definition setState (s : nat) (r : ReadyState) (w : World) : World :=
  match socks w !! s with
  | Some sk => setSocks (<[s := mkSock (kind sk) r (established sk)]> (socks w)) w
  | None => w
  end.

(** The handshake of [s] completes: [OPEN], and frames can follow. *)
Definition markOpen (s : nat) (w : World) : World :=
  match socks w !! s with
  | Some sk => setSocks (<[s := mkSock (kind sk) OPEN true]> (socks w)) w
  | None => w
  end.

Definition isOpen (s : nat) (w : World) : bool :=
  match stateOf s w with
  | Some OPEN => true
  | _ => false
  end.

(** *** The [ws] socket operations the relay calls *)

(** [ws.close()]: a connecting socket aborts its handshake, an open one
    starts the closing handshake; nothing happens on a closed one. *)
Definition afterClose (r : ReadyState) : ReadyState :=
  match r with
  | CONNECTING => CLOSING
  | OPEN => CLOSING
  | CLOSING => CLOSING
  | CLOSED => CLOSED
  end.

Definition ws_close (s : nat) (code : option Z) (w : World) : World :=
  match stateOf s w with
  | Some r => emit (AClose s r code) (setState s (afterClose r) w)
  | None => w
  end.

(** [ws.send(data)] *)
Definition ws_send (s : nat) (p : Payload) (w : World) : World :=
  match socks w !! s with
  | Some sk => emit (ASend s (legOf (kind sk)) (readyState sk) p) w
  | None => w
  end.

(** A fresh handle: [new WebSocket(url)] gives one that is connecting,
    the server hands an accepted client socket over open. *)
Definition newSocket (sk : Sock) (w : World) : nat * World :=
  (List.length (socks w), setSocks (socks w ++ [sk]) w).

(** ** The relay *)

Section Relay.

(** [JSON.parse] ([None] when it raises [SyntaxError]) and the provider
    key read from the environment at start-up. *)
Variable JSON_parse : string -> option json.
Variable SONIOX_API_KEY : string.

Definition SONIOX_URL : string := "wss://stt-rt.soniox.com/transcribe-websocket".

(** [connections.get(connectionId)], with the record it refers to. *)
Definition getConn (cid : string) (w : World) : option (nat * ConnInfo) :=
  match connections w !! cid with
  | Some r =>
      match heap w !! r with
      | Some c => Some (r, c)
      | None => None
      end
  | None => None
  end.

Definition setSonioxWs (r : nat) (v : option nat) (w : World) : World :=
  match heap w !! r with
  | Some c => setHeap (<[r := mkConn (clientWs c) v (connectionId c) (isReady c)]> (heap w)) w
  | None => w
  end.

Definition setIsReady (r : nat) (b : bool) (w : World) : World :=
  match heap w !! r with
  | Some c => setHeap (<[r := mkConn (clientWs c) (sonioxWs c) (connectionId c) b]> (heap w)) w
  | None => w
  end.

(** [function sendToClient(ws, data)] *)
Definition sendToClient (ws : option nat) (data : json) (w : World) : World :=
  match ws with
  | Some s => if isOpen s w then ws_send s (PJson data) w else w
  | None => w
  end.

(** [function sendError(ws, message, code)] *)
Definition sendError (ws : option nat) (message : string) (code : Z) (w : World) : World :=
  sendToClient ws
    (JObj [("type", JStr "error"); ("message", JStr message); ("code", JNum code)]) w.

(** [conn.sonioxWs && conn.sonioxWs.readyState === WebSocket.OPEN] *)
Definition sonioxOpen (c : ConnInfo) (w : World) : option nat :=
  match sonioxWs c with
  | Some s => if isOpen s w then Some s else None
  | None => None
  end.

(** The object built in the upstream [open] handler. *)
Definition translationConfig (config : json) : list (string * json) :=
  if truthy (field "translation" config) then
    let translation := orElse (field "translation" config) JNull in
    let targetLang := field "target_language" translation in
    let sourceLang := field "source_language" translation in
    if truthy targetLang then
      [("translation",
        JObj ([("type", orElse (field "type" translation) (JStr "one_way"));
               ("target_language", orElse targetLang JNull)]
              ++ (if truthy sourceLang
                  then [("source_language", orElse sourceLang JNull)]
                  else [])))]
    else []
  else [].

Definition sonioxConfig (config : json) : json :=
  JObj ([("api_key", JStr SONIOX_API_KEY);
         ("model", orElse (field "model" config) (JStr "stt-rt-preview"));
         ("audio_format", orElse (field "audio_format" config) (JStr "pcm_s16le"));
         ("sample_rate", orElse (field "sample_rate" config) (JNum 16000));
         ("num_channels", orElse (field "num_channels" config) (JNum 1));
         ("include_nonfinal", JBool (notFalse (field "include_nonfinal" config)));
         ("language_hints", orElse (field "language_hints" config) (JArr [JStr "en"]));
         ("enable_endpoint_detection",
          JBool (notFalse (field "enable_endpoint_detection" config)));
         ("max_non_final_tokens_duration_ms",
          orElse (field "max_non_final_tokens_duration_ms" config) (JNum 4000))]
        ++ translationConfig config).

(** [function connectToSoniox(connectionId, config)]: the synchronous
    part, which all copies of the file share but for the [headers] option
    of [new WebSocket].  The handlers it registers are [onSonioxOpen],
    [onSonioxMessage], [onSonioxClose], [onSonioxError] and [onTimeout]
    below. *)
Definition connectWith (authorization : option string) (cid : string) (config : json)
    (w : World) : World :=
  match getConn cid w with
  | None => w
  | Some (r, conn) =>
      let w1 :=
        match sonioxWs conn with
        | Some old => setSonioxWs r None (ws_close old None w)
        | None => w
        end in
      let '(s, w2) := newSocket (mkSock (UpstreamSock r cid config) CONNECTING false) w1 in
      setTimers (timers w2 ++ [(s, 10000%Z)]) (emit (AConnect s SONIOX_URL authorization) w2)
  end.

(** The current file passes no header: the key goes in the config. *)
Definition connectToSoniox (cid : string) (config : json) (w : World) : World :=
  connectWith None cid config w.

(** The line that logs the translation, with [${sourceLang || 'auto'}]
    and [${targetLang}] in a template literal, raises a [TypeError]: it
    is reached with a truthy [target_language], and one of the two values
    it prints cannot be converted to a string. *)
Definition translationLogThrows (config : json) : bool :=
  let translation := orElse (field "translation" config) JNull in
  let targetLang := field "target_language" translation in
  let sourceLang := field "source_language" translation in
  (truthy (field "translation" config) && truthy targetLang
   && ((truthy sourceLang && toStringThrows (orElse sourceLang JNull))
       || toStringThrows (orElse targetLang JNull)))%bool.

(** [sonioxWs.on('open', ...)] *)
Definition onSonioxOpen (s r : nat) (config : json) (w : World) : Result World :=
  let w1 := setSonioxWs r (Some s) w in
  match config with
  | JNull => Throw "TypeError: Cannot read properties of null"
  | _ =>
      if translationLogThrows config
      then Throw "TypeError: Cannot convert object to primitive value"
      else Ok (ws_send s (PJson (sonioxConfig config)) w1)
  end.

(** The frames the relay writes itself. *)
Definition proxyReadyFrame (cid : string) : json :=
  JObj [("type", JStr "proxy_ready"); ("connection_id", JStr cid)].

Definition timeoutFrame : json :=
  JObj [("type", JStr "error"); ("message", JStr "Soniox connection timeout")].

Definition pongFrame (ref : json) (now : Z) : json :=
  JObj [("type", JStr "pong"); ("ref", ref); ("timestamp", JNum now)].

Definition unauthorizedFrame : json :=
  JObj [("type", JStr "error"); ("message", JStr "Unauthorized: No token provided");
        ("code", JNum 401)].

(** [sonioxWs.on('message', ...)]; what is sent on is [dataStr], which
    is [data.toString()]. *)
Definition onSonioxMessage (r : nat) (cid : string) (data : string) (w : World) : World :=
  match heap w !! r with
  | None => w
  | Some conn =>
      let w1 :=
        if negb (isReady conn) then
          sendToClient (Some (clientWs conn)) (proxyReadyFrame cid) (setIsReady r true w)
        else w in
      if isOpen (clientWs conn) w1 then ws_send (clientWs conn) (PText data) w1 else w1
  end.

(** [sonioxWs.on('close', ...)]; [reason] is [None] when it is falsy. *)
Definition onSonioxClose (r : nat) (code : Z) (reason : option string) (w : World) : World :=
  match heap w !! r with
  | None => w
  | Some conn =>
      let reasonStr := match reason with Some b => b | None => "No reason provided" end in
      let shown := if isEmpty reasonStr then "Unknown reason" else reasonStr in
      let w1 := setIsReady r false (setSonioxWs r None w) in
      if isOpen (clientWs conn) w1 then
        sendToClient (Some (clientWs conn))
          (JObj [("type", JStr "error");
                 ("message", JStr (String.append "Soniox connection closed: " shown));
                 ("code", JNum code)]) w1
      else w1
  end.

(** [sonioxWs.on('error', ...)] *)
Definition onSonioxError (r : nat) (message : string) (w : World) : World :=
  match heap w !! r with
  | None => w
  | Some conn =>
      let w1 := setIsReady r false (setSonioxWs r None w) in
      if isOpen (clientWs conn) w1 then
        sendToClient (Some (clientWs conn))
          (JObj [("type", JStr "error");
                 ("message", JStr (String.append "Soniox connection error: " message))]) w1
      else w1
  end.

(** The [setTimeout] callback, run 10000 ms after [connectToSoniox]. *)
Definition onTimeout (s r : nat) (w : World) : World :=
  match heap w !! r with
  | None => w
  | Some conn =>
      if negb (isOpen s w) then
        sendToClient (Some (clientWs conn)) timeoutFrame (ws_close s None w)
      else w
  end.

(** [function cleanupConnection(connectionId)] *)
Definition cleanupConnection (cid : string) (w : World) : World :=
  match getConn cid w with
  | None => w
  | Some (r, conn) =>
      let w1 :=
        match sonioxWs conn with
        | Some s => ws_close s None w
        | None => w
        end in
      let w2 :=
        match stateOf (clientWs conn) w1 with
        | Some CLOSED => w1
        | _ => ws_close (clientWs conn) None w1
        end in
      setConnections (delete cid (connections w2)) w2
  end.

(** [function handleClientMessage(connectionId, data, isBinary)]; [now]
    is what [Date.now()] returns during the call. *)
Definition handleClientMessage (cid : string) (data : string) (isBinary : bool)
    (now : Z) (w : World) : Result World :=
  match getConn cid w with
  | None => Ok w
  | Some (r, conn) =>
      let dataStr := data in
      let looksLikeJson := (startsWith "{" dataStr || startsWith "[" dataStr)%bool in
      if (isBinary && negb looksLikeJson)%bool then
        match sonioxOpen conn w with
        | Some s => Ok (ws_send s (PRaw data) w)
        | None => Ok w
        end
      else
        match JSON_parse dataStr with
        | None => Ok w
        | Some message =>
            match getProp "type" message with
            | Throw e => Throw e
            | Ok type =>
                if isStr "ping" type then
                  Ok (sendToClient (Some (clientWs conn))
                        (pongFrame (orElse (field "ref" message) (JNum 0)) now) w)
                else if isStr "start" (field "action" message) then
                  Ok (connectToSoniox cid (orElse (field "config" message) message) w)
                else if isStr "finalize" type then
                  match sonioxOpen conn w with
                  | Some s => Ok (ws_send s (PJson message) w)
                  | None => Ok w
                  end
                else
                  match sonioxOpen conn w with
                  | Some s => Ok (ws_send s (PJson message) w)
                  | None => Ok w
                  end
            end
        end
  end.

(** *** The upgrade handler, [wss.on('connection', ...)] *)

(** What the handler reads of the upgrade request: what [new
    URL(req.url, ...)] gives, the decoded query parameters in order
    ([url.searchParams]) or the [TypeError] it raises when the request
    target does not parse (as for [GET //]); and the
    [sec-websocket-protocol] header. *)
Record Request : Type := mkRequest {
  query : Result (list (string * string));
  secWebSocketProtocol : option string
}.

(** Outcome of [await supabase.auth.getUser(token)]: a user, a rejection
    ([error || !user]) or an exception. *)
Inductive AuthOutcome : Type :=
| AuthUser (id : string)
| AuthRejected
| AuthThrew (message : string).

(** Truthiness of a value that is a string or [null]/[undefined]. *)
Definition truthyStr (t : option string) : bool :=
  match t with
  | Some s => negb (isEmpty s)
  | None => false
  end.

(** The [token] variable when the handler reaches [if (!token)];
    [new URL] is not guarded, and what it raises leaves the handler. *)
Definition extractToken (req : Request) : Result (option string) :=
  match query req with
  | Throw e => Throw e
  | Ok searchParams =>
      let token := assoc "token" searchParams in
      if negb (truthyStr token) then
        let protocols := secWebSocketProtocol req in
        if truthyStr protocols then
          let protocolParts := map trim (splitComma (default EmptyString protocols)) in
          match List.find (startsWith "Bearer.") protocolParts with
          | Some bearerProtocol => Ok (Some (replace "Bearer." EmptyString bearerProtocol))
          | None => Ok token
          end
        else Ok token
      else Ok token
  end.

Definition setKind (s : nat) (k : SockKind) (w : World) : World :=
  match socks w !! s with
  | Some sk => setSocks (<[s := mkSock k (readyState sk) (established sk)]> (socks w)) w
  | None => w
  end.

(** The part of the handler after the token has been read; [token] is
    what the copy of the file at hand extracted. *)
Definition authenticate (cid : string) (token : option string) (auth : AuthOutcome)
    (w : World) : World :=
  let '(ws, w0) := newSocket (mkSock (ClientSock None) OPEN true) w in
  if negb (truthyStr token) then
    ws_close ws (Some 1008%Z) (sendError (Some ws) "Unauthorized: No token provided" 401 w0)
  else
    let w1 := emit (AVerify (default EmptyString token)) w0 in
    match auth with
    | AuthRejected =>
        ws_close ws (Some 1008%Z) (sendError (Some ws) "Unauthorized: Invalid token" 401 w1)
    | AuthThrew _ =>
        ws_close ws (Some 1011%Z) (sendError (Some ws) "Authentication error" 500 w1)
    | AuthUser _ =>
        let r := List.length (heap w1) in
        let w2 := setConnections (<[cid := r]> (connections w1))
                    (setHeap (heap w1 ++ [mkConn ws None cid false]) w1) in
        let w3 := sendToClient (Some ws)
                    (JObj [("type", JStr "auth_success");
                           ("message", JStr "Authenticated, ready for start message");
                           ("connectionId", JStr cid)]) w2 in
        setKind ws (ClientSock (Some cid)) w3
    end.

(** The handler: the token is read, then the rest runs.  The handler is
    an [async] function and nothing handles its rejection, so what it
    raises ends the process (the image runs Node 20) like an exception in
    any other handler. *)
Definition onConnection (cid : string) (req : Request) (auth : AuthOutcome)
    (w : World) : Result World :=
  match extractToken req with
  | Throw e => Throw e
  | Ok token => Ok (authenticate cid token auth w)
  end.

(** ** Events and the transition function *)

(** What the environment does: a client connects ([connectionId] is what
    [generateConnectionId] drew), a socket emits [message], [close] or
    [error], an upstream socket emits [open], a timer expires, the process
    receives SIGTERM ([ids] is the order in which the map yields its keys:
    insertion order, which the model does not keep). *)
Inductive Event : Type :=
| Upgrade (connectionId : string) (req : Request) (auth : AuthOutcome)
| ClientMessage (s : nat) (data : string) (isBinary : bool) (now : Z)
| ClientClose (s : nat)
| ClientError (s : nat)
| SonioxOpen (s : nat)
| SonioxMessage (s : nat) (data : string)
| SonioxClose (s : nat) (code : Z) (reason : option string)
| SonioxError (s : nat) (message : string)
| TimerFired (s : nat)
| Sigterm (ids : list string).

(** [process.on('SIGTERM', ...)]: every registered connection is cleaned
    up, in the order the map yields them, and the server stops accepting
    connections. *)
Definition onSigterm (ids : list string) (w : World) : World :=
  stopListening (foldl (fun acc id => cleanupConnection id acc) w ids).

(** [ids] lists the keys of [connections], each once. *)
Definition isKeyOrder (ids : list string) (w : World) : bool :=
  (bool_decide (NoDup ids)
   && bool_decide (list_to_set ids = dom (connections w)))%bool.

(** An exception that escapes a handler ends the process, and with it
    every connection: a crashed world takes no further step, and its
    other fields are those of the world that the event found. *)
Definition orCrash (w : World) (r : Result World) : World :=
  match r with
  | Ok w' => w'
  | Throw _ => setCrashed w
  end.

Definition removeTimer (s : nat) (t : list (nat * Z)) : list (nat * Z) :=
  List.filter (fun p => negb (Nat.eqb (fst p) s)) t.

Definition hasTimer (s : nat) (t : list (nat * Z)) : bool :=
  List.existsb (fun p => Nat.eqb (fst p) s) t.

(** One event; [None] when the event cannot occur in this world: [open]
    on a socket that is not connecting, a frame on a socket that is
    neither open nor closing after having been open, [close] or [error]
    on a closed socket, a timer that is not pending, a client once the
    server has stopped listening, anything after a crash.  The library moves the socket's [readyState] before the
    handler runs. *)
Definition step (w : World) (e : Event) : option World :=
  if crashed w then None else
  match e with
  | Upgrade cid req auth =>
      if listening w then Some (orCrash w (onConnection cid req auth w)) else None
  | ClientMessage s data isBinary now =>
      match socks w !! s with
      | Some (mkSock (ClientSock (Some cid)) OPEN _)
      | Some (mkSock (ClientSock (Some cid)) CLOSING _) =>
          Some (orCrash w (handleClientMessage cid data isBinary now w))
      | Some (mkSock (ClientSock None) OPEN _)
      | Some (mkSock (ClientSock None) CLOSING _) => Some w
      | _ => None
      end
  | ClientClose s =>
      match socks w !! s with
      | Some (mkSock (ClientSock _) CLOSED _) => None
      | Some (mkSock (ClientSock (Some cid)) _ _) =>
          Some (cleanupConnection cid (setState s CLOSED w))
      | Some (mkSock (ClientSock None) _ _) => Some (setState s CLOSED w)
      | _ => None
      end
  | ClientError s =>
      match socks w !! s with
      | Some (mkSock (ClientSock _) CLOSED _) => None
      | Some (mkSock (ClientSock (Some cid)) _ _) =>
          Some (cleanupConnection cid (setState s CLOSING w))
      | Some (mkSock (ClientSock None) _ _) => Some (setState s CLOSING w)
      | _ => None
      end
  | SonioxOpen s =>
      match socks w !! s with
      | Some (mkSock (UpstreamSock r cid config) CONNECTING _) =>
          Some (orCrash w (onSonioxOpen s r config (markOpen s w)))
      | _ => None
      end
  | SonioxMessage s data =>
      match socks w !! s with
      | Some (mkSock (UpstreamSock r cid config) OPEN _)
      | Some (mkSock (UpstreamSock r cid config) CLOSING true) =>
          Some (onSonioxMessage r cid data w)
      | _ => None
      end
  | SonioxClose s code reason =>
      match socks w !! s with
      | Some (mkSock (UpstreamSock r cid config) CLOSED _) => None
      | Some (mkSock (UpstreamSock r cid config) _ _) =>
          Some (onSonioxClose r code reason (setState s CLOSED w))
      | _ => None
      end
  | SonioxError s message =>
      match socks w !! s with
      | Some (mkSock (UpstreamSock r cid config) CLOSED _) => None
      | Some (mkSock (UpstreamSock r cid config) _ _) =>
          Some (onSonioxError r message (setState s CLOSING w))
      | _ => None
      end
  | TimerFired s =>
      match socks w !! s with
      | Some (mkSock (UpstreamSock r cid config) _ _) =>
          if hasTimer s (timers w)
          then Some (onTimeout s r (setTimers (removeTimer s (timers w)) w))
          else None
      | _ => None
      end
  | Sigterm ids =>
      if isKeyOrder ids w then Some (onSigterm ids w) else None
  end.

Fixpoint run (w : World) (tr : list Event) : option World :=
  match tr with
  | [] => Some w
  | e :: tr' =>
      match step w e with
      | Some w' => run w' tr'
      | None => None
      end
  end.

End Relay.

(** ** A reference [JSON.parse] for the examples

    The relay is stated over any [JSON_parse].  The examples run it with
    this parser of the fragment they need: objects whose keys are
    distinct, arrays, strings with the single-character escapes, integers
    that a JavaScript number holds exactly, [true], [false], [null].
    Outside this fragment it is not [JSON.parse]: it rejects fractions and
    exponents, and of two equal keys it keeps the first. *)

Definition dquote : ascii := "034"%char.

Definition isJsonSpace (c : ascii) : bool :=
  let n := nat_of_ascii c in
  (Nat.eqb n 32 || Nat.eqb n 9 || Nat.eqb n 10 || Nat.eqb n 13)%bool.

Fixpoint skipWs (s : string) : string :=
  match s with
  | String c s' => if isJsonSpace c then skipWs s' else s
  | EmptyString => EmptyString
  end.

Definition digitOf (c : ascii) : option Z :=
  let n := nat_of_ascii c in
  if (Nat.leb 48 n && Nat.leb n 57)%bool then Some (Z.of_nat (n - 48)) else None.

Fixpoint parseDigits (acc : Z) (s : string) : Z * string :=
  match s with
  | String c s' =>
      match digitOf c with
      | Some d => parseDigits (acc * 10 + d)%Z s'
      | None => (acc, s)
      end
  | EmptyString => (acc, s)
  end.

Definition startsDigit (s : string) : bool :=
  match s with
  | String c _ => match digitOf c with Some _ => true | None => false end
  | EmptyString => false
  end.

(** An integer literal; a fraction or an exponent is outside the fragment. *)
Definition parseNumber (s : string) : option (Z * string) :=
  let '(neg, s1) := match s with
                    | String "-" s' => (true, s')
                    | _ => (false, s)
                    end in
  if startsDigit s1 then
    let '(n, rest) := parseDigits 0 s1 in
    match rest with
    | String "." _ | String "e" _ | String "E" _ => None
    | _ => Some (if neg then (- n)%Z else n, rest)
    end
  else None.

Definition unescape (c : ascii) : option ascii :=
  if Ascii.eqb c dquote then Some dquote
  else if Ascii.eqb c "\"%char then Some "\"%char
  else if Ascii.eqb c "/"%char then Some "/"%char
  else if Ascii.eqb c "n"%char then Some "010"%char
  else if Ascii.eqb c "t"%char then Some "009"%char
  else if Ascii.eqb c "r"%char then Some "013"%char
  else None.

(** The characters after an opening quote, up to the closing one. *)
Fixpoint parseChars (s : string) : option (string * string) :=
  match s with
  | EmptyString => None
  | String c s' =>
      if Ascii.eqb c dquote then Some (EmptyString, s')
      else if Ascii.eqb c "\"%char then
        match s' with
        | String e s'' =>
            match unescape e, parseChars s'' with
            | Some u, Some (t, rest) => Some (String u t, rest)
            | _, _ => None
            end
        | EmptyString => None
        end
      else if Nat.ltb (nat_of_ascii c) 32 then None
      else match parseChars s' with
           | Some (t, rest) => Some (String c t, rest)
           | None => None
           end
  end.

Fixpoint parseValue (fuel : nat) (s : string) : option (json * string) :=
  match fuel with
  | O => None
  | S f =>
      match skipWs s with
      | String "{" s1 =>
          match skipWs s1 with
          | String "}" rest => Some (JObj [], rest)
          | s2 =>
              match parseMembers f s2 with
              | Some (fs, rest) => Some (JObj fs, rest)
              | None => None
              end
          end
      | String "[" s1 =>
          match skipWs s1 with
          | String "]" rest => Some (JArr [], rest)
          | s2 =>
              match parseElements f s2 with
              | Some (vs, rest) => Some (JArr vs, rest)
              | None => None
              end
          end
      | String c s1 =>
          if Ascii.eqb c dquote then
            match parseChars s1 with
            | Some (t, rest) => Some (JStr t, rest)
            | None => None
            end
          else if startsWith "true" (String c s1) then Some (JBool true, dropStr 4 (String c s1))
          else if startsWith "false" (String c s1) then Some (JBool false, dropStr 5 (String c s1))
          else if startsWith "null" (String c s1) then Some (JNull, dropStr 4 (String c s1))
          else match parseNumber (String c s1) with
               | Some (n, rest) => Some (JNum n, rest)
               | None => None
               end
      | EmptyString => None
      end
  end
with parseElements (fuel : nat) (s : string) : option (list json * string) :=
  match fuel with
  | O => None
  | S f =>
      match parseValue f s with
      | Some (v, rest) =>
          match skipWs rest with
          | String "," rest' =>
              match parseElements f rest' with
              | Some (vs, rest'') => Some (v :: vs, rest'')
              | None => None
              end
          | String "]" rest' => Some ([v], rest')
          | _ => None
          end
      | None => None
      end
  end
with parseMembers (fuel : nat) (s : string) : option (list (string * json) * string) :=
  match fuel with
  | O => None
  | S f =>
      match skipWs s with
      | String c s1 =>
          if Ascii.eqb c dquote then
            match parseChars s1 with
            | Some (k, rest) =>
                match skipWs rest with
                | String ":" rest1 =>
                    match parseValue f rest1 with
                    | Some (v, rest2) =>
                        match skipWs rest2 with
                        | String "," rest3 =>
                            match parseMembers f rest3 with
                            | Some (fs, rest4) => Some ((k, v) :: fs, rest4)
                            | None => None
                            end
                        | String "}" rest3 => Some ([(k, v)], rest3)
                        | _ => None
                        end
                    | None => None
                    end
                | _ => None
                end
            | None => None
            end
          else None
      | EmptyString => None
      end
  end.

Definition parse_json (s : string) : option json :=
  match parseValue (2 * String.length s + 2) s with
  | Some (v, rest) => if isEmpty (skipWs rest) then Some v else None
  | None => None
  end.

(** Text in which the letter q stands for the double quote. *)
Fixpoint q2s (s : string) : string :=
  match s with
  | EmptyString => EmptyString
  | String c s' => String (if Ascii.eqb c "q"%char then dquote else c) (q2s s')
  end.

(** ** The places where the older copies of the file differ *)

(** [{ ...config }]: the own enumerable properties of an object; an
    array or a string spreads its indices, anything else nothing. *)
Definition spread (v : json) : list (string * json) :=
  match v with
  | JObj fs => fs
  | JArr items => imap (fun i x => (pretty i, x)) items
  | JStr s => imap (fun i c => (pretty i, JStr (String c EmptyString))) (list_ascii_of_string s)
  | _ => []
  end.

(** [delete o.action] *)
Definition deleteAction (fs : list (string * json)) : list (string * json) :=
  List.filter (fun kv => negb (String.eqb (fst kv) "action")) fs.

(** The copy that authenticates upstream with an [Authorization] header
    and reads the client token from the query string only. *)
Module HeaderAuth.
Section Copy.

Variable SONIOX_API_KEY : string.

Definition extractToken (req : Request) : Result (option string) :=
  match query req with
  | Throw e => Throw e
  | Ok searchParams => Ok (assoc "token" searchParams)
  end.

Definition onConnection (cid : string) (req : Request) (auth : AuthOutcome)
    (w : World) : Result World :=
  match extractToken req with
  | Throw e => Throw e
  | Ok token => Ok (authenticate cid token auth w)
  end.

Definition connectToSoniox (cid : string) (config : json) (w : World) : World :=
  connectWith (Some (String.append "Bearer " SONIOX_API_KEY)) cid config w.

(** [sonioxWs.on('open', ...)]: the client config without [action]. *)
Definition onSonioxOpen (s r : nat) (config : json) (w : World) : World :=
  ws_send s (PJson (JObj (deleteAction (spread config)))) (setSonioxWs r (Some s) w).

End Copy.
End HeaderAuth.

(** The oldest copy: every binary frame is audio, and readiness is
    signalled as soon as the upstream socket opens. *)
Module ReadyOnOpen.
Section Copy.

Variable JSON_parse : string -> option json.
Variable SONIOX_API_KEY : string.

(** [sonioxWs.on('open', ...)] *)
Definition onSonioxOpen (s r : nat) (cid : string) (config : json) (w : World) : World :=
  let w1 := HeaderAuth.onSonioxOpen s r config w in
  match heap w1 !! r with
  | Some conn => sendToClient (Some (clientWs conn)) (proxyReadyFrame cid) (setIsReady r true w1)
  | None => w1
  end.

(** [sonioxWs.on('message', ...)]: [data.toString()] is sent on. *)
Definition onSonioxMessage (r : nat) (data : string) (w : World) : World :=
  match heap w !! r with
  | Some conn =>
      if isOpen (clientWs conn) w then ws_send (clientWs conn) (PText data) w else w
  | None => w
  end.

(** [function handleClientMessage(connectionId, data, isBinary)];
    [isBuffer] is [Buffer.isBuffer(data)]. *)
Definition handleClientMessage (cid : string) (data : string) (isBinary isBuffer : bool)
    (now : Z) (w : World) : Result World :=
  match getConn cid w with
  | None => Ok w
  | Some (r, conn) =>
      if (isBinary || isBuffer)%bool then
        match sonioxOpen conn w with
        | Some s => Ok (ws_send s (PRaw data) w)
        | None => Ok w
        end
      else
        match JSON_parse data with
        | None => Ok w
        | Some message =>
            match getProp "type" message with
            | Throw e => Throw e
            | Ok type =>
                if isStr "ping" type then
                  Ok (sendToClient (Some (clientWs conn))
                        (pongFrame (orElse (field "ref" message) (JNum 0)) now) w)
                else if isStr "start" (field "action" message) then
                  Ok (HeaderAuth.connectToSoniox SONIOX_API_KEY cid
                        (orElse (field "config" message) message) w)
                else
                  match sonioxOpen conn w with
                  | Some s => Ok (ws_send s (PJson message) w)
                  | None => Ok w
                  end
            end
        end
  end.

End Copy.
End ReadyOnOpen.

(** ** The HTTP endpoints

    The callback of [createServer] in the current file: the CORS headers,
    the preflight answer, the health check, the five endpoints behind a
    bearer token, and the second handler for [/api/openai/tts] that
    follows them.  The identity provider and the speech providers are the
    environment: what [supabase.auth.getUser] and [fetch] resolve to is
    given, and every call made on them is returned with the response. *)

(** [a || b] where [b] may be [undefined] as well. *)
Definition orUndef (a b : option json) : option json :=
  if truthy a then a else b.

(** [v?.k]: [undefined] when [v] is [null] or [undefined]. *)
Definition optChain (k : string) (v : option json) : option json :=
  match v with
  | None | Some JNull => None
  | Some x => field k x
  end.

(** [JSON.stringify] of an object literal: a property whose value is
    [undefined] is left out. *)
Definition stringify (fs : list (string * option json)) : json :=
  JObj (omap (fun kv => match snd kv with
                        | Some v => Some (fst kv, v)
                        | None => None
                        end) fs).

(** [String(v)] otherwise; [numberToString] is [String] on numbers
    (the decimal digits of an integer below 10^21, an exponent notation
    from there on). *)
Fixpoint toStr (numberToString : Z -> string) (v : json) : string :=
  match v with
  | JNull => "null"
  | JBool true => "true"
  | JBool false => "false"
  | JNum n => numberToString n
  | JStr s => s
  | JArr items =>
      String.concat ","
        (List.map (fun x => match x with JNull => EmptyString | _ => toStr numberToString x end) items)
  | JObj _ => "[object Object]"
  end.

(** Evaluating [text.length] inside a template literal raises, for a
    truthy [text]. *)
Definition lengthThrows (text : option json) : bool :=
  match text with
  | Some (JObj fs) =>
      match assoc "length" fs with
      | Some l => toStringThrows l
      | None => false
      end
  | _ => false
  end.

(** *** Requests, responses, the environment *)

(** What the callback reads of a request: [req.method], [req.url],
    [req.headers.authorization] and the body, all chunks up to [end]. *)
Record HttpRequest : Type := mkHttpRequest {
  method : string;
  url : string;
  authHeader : option string;
  body : string
}.

(** What is given to [res.end]: nothing, [JSON.stringify] of a value, a
    text, or the bytes of a [Buffer]. *)
Inductive ResBody : Type :=
| BNone
| BJson (v : json)
| BText (s : string)
| BBytes (data : string).

Record HttpResponse : Type := mkResponse {
  status : Z;
  headers : list (string * string);
  resBody : ResBody
}.

(** What [fetch] resolves to: a response with its status and its body
    ([None] when reading the body rejects), or a rejection. *)
Inductive FetchOutcome : Type :=
| Responded (status : Z) (payload : option string)
| FetchFailed.

(** The environment of one request: the verifier's answer, the
    provider's answer, and [new Date().toISOString()]. *)
Record Env : Type := mkEnv {
  user : AuthOutcome;
  fetched : FetchOutcome;
  isoNow : string
}.

(** The calls a request makes: [supabase.auth.getUser(token)] and
    [fetch(url, { method: 'POST', headers: { Authorization, 'Content-Type':
    'application/json' }, body: JSON.stringify(...) })]. *)
Inductive Call : Type :=
| GetUser (token : string)
| Fetch (url : string) (authorization : string) (body : json).

Definition corsHeaders : list (string * string) :=
  [("Access-Control-Allow-Origin", "*");
   ("Access-Control-Allow-Methods", "GET, POST, OPTIONS");
   ("Access-Control-Allow-Headers", "Content-Type, Authorization")].

(** [res.writeHead(status, { 'Content-Type': 'application/json' });
    res.end(JSON.stringify(v))] *)
Definition jsonResponse (st : Z) (v : json) : HttpResponse :=
  mkResponse st [("Content-Type", "application/json")] (BJson v).

Definition errorResponse (st : Z) (message : string) : HttpResponse :=
  jsonResponse st (JObj [("error", JStr message)]).

(** [res.writeHead(200, { 'Content-Type': contentType, 'Content-Length':
    audioData.byteLength }); res.end(Buffer.from(audioData))] *)
Definition audioResponse (contentType : string) (audioData : string) : HttpResponse :=
  mkResponse 200 [("Content-Type", contentType);
                  ("Content-Length", pretty (String.length audioData))]
    (BBytes audioData).

(** The token of [Authorization: Bearer <token>]; [None] when the
    handler answers [No token provided]. *)
Definition bearerToken (h : option string) : option string :=
  match h with
  | Some authHeader =>
      if (negb (isEmpty authHeader) && startsWith "Bearer " authHeader)%bool
      then Some (dropStr 7 authHeader)
      else None
  | None => None
  end.

(** [response.ok] *)
Definition isOk (st : Z) : bool := ((200 <=? st) && (st <=? 299))%Z.

(** [res.writeHead] accepts a status from 100 to 999 and raises a
    [RangeError] on any other. *)
Definition validStatus (st : Z) : bool := ((100 <=? st) && (st <=? 999))%Z.

(** *** The voices of the Realtime API *)

Definition REALTIME_VOICE_MAP : list (string * string) :=
  [("nova", "coral"); ("shimmer", "shimmer"); ("alloy", "alloy"); ("echo", "echo");
   ("fable", "sage"); ("onyx", "ash")].

Definition VALID_REALTIME_VOICES : list string :=
  ["alloy"; "ash"; "ballad"; "coral"; "echo"; "sage"; "shimmer"; "verse"; "marin"; "cedar"].

(** The methods every object literal inherits from [Object.prototype]. *)
Definition inheritedMethods : list string :=
  ["constructor"; "__defineGetter__"; "__defineSetter__"; "hasOwnProperty";
   "__lookupGetter__"; "__lookupSetter__"; "isPrototypeOf"; "propertyIsEnumerable";
   "toString"; "valueOf"; "toLocaleString"].

(** What the [voice] variable can hold: a string, an inherited method
    (a function) or [Object.prototype] itself. *)
Inductive VoiceValue : Type :=
| VoiceName (s : string)
| InheritedMethod (name : string)
| ThePrototype.

(** [REALTIME_VOICE_MAP[key]], [None] for [undefined]. *)
Definition voiceMapGet (key : string) : option VoiceValue :=
  match assoc key REALTIME_VOICE_MAP with
  | Some v => Some (VoiceName v)
  | None =>
      if String.eqb key "__proto__" then Some ThePrototype
      else if existsb (String.eqb key) inheritedMethods then Some (InheritedMethod key)
      else None
  end.

(** [VALID_REALTIME_VOICES.includes(requestedVoice) ? requestedVoice :
    (REALTIME_VOICE_MAP[requestedVoice] || 'coral')]; the property key of
    a value that is no string is [String(value)]. *)
Definition realtimeVoice (numberToString : Z -> string) (requestedVoice : json)
    : Result VoiceValue :=
  match requestedVoice with
  | JStr s =>
      if existsb (String.eqb s) VALID_REALTIME_VOICES then Ok (VoiceName s)
      else Ok (default (VoiceName "coral") (voiceMapGet s))
  | _ =>
      if toStringThrows requestedVoice
      then Throw "TypeError: Cannot convert object to primitive value"
      else Ok (default (VoiceName "coral") (voiceMapGet (toStr numberToString requestedVoice)))
  end.

(** How [JSON.stringify] shows a [voice] property: a function is left
    out, [Object.prototype] has no enumerable property. *)
Definition voiceJson (v : VoiceValue) : option json :=
  match v with
  | VoiceName s => Some (JStr s)
  | InheritedMethod _ => None
  | ThePrototype => Some (JObj [])
  end.

(** *** The callback *)

Section Http.

(** [String] on numbers; [JSON.parse]; [encodeURIComponent] ([None] when it raises
    [URIError]); the expression [Math.min(4.0, Math.max(0.25,
    parseFloat(v) || 1.1))] of the second [/api/openai/tts] handler, on
    floating-point numbers, which may raise when [v] is converted to a
    string; the keys read from the environment at start-up (the process
    exits when [OPENAI_API_KEY] is missing, [DEEPGRAM_API_KEY] is
    optional). *)
Variable numberToString : Z -> string.
Variable JSON_parse : string -> option json.
Variable encodeURIComponent : string -> option string.
Variable clampSpeed : option json -> Result json.
Variable OPENAI_API_KEY : string.
Variable DEEPGRAM_API_KEY : option string.

(** [catch (err) { res.writeHead(500, ...); res.end(...) }] *)
Definition catch (r : list Call * Result HttpResponse) : list Call * HttpResponse :=
  match r with
  | (calls, Ok res) => (calls, res)
  | (calls, Throw _) => (calls, errorResponse 500 "Internal server error")
  end.

(** The lines every endpoint behind a token starts with: the
    [Authorization] header, then the verifier; [rest] is what follows in
    the [try] block. *)
Definition withUser (env : Env) (req : HttpRequest)
    (rest : list Call * Result HttpResponse) : list Call * Result HttpResponse :=
  match bearerToken (authHeader req) with
  | None => ([], Ok (errorResponse 401 "Unauthorized: No token provided"))
  | Some token =>
      match user env with
      | AuthThrew message => ([GetUser token], Throw message)
      | AuthRejected => ([GetUser token], Ok (errorResponse 401 "Unauthorized: Invalid token"))
      | AuthUser _ => (GetUser token :: fst rest, snd rest)
      end
  end.

(** [let params = {}; try { params = JSON.parse(body || '{}'); } catch (e) {}] *)
Definition parseParams (body : string) : json :=
  if isEmpty body then JObj []
  else match JSON_parse body with
       | Some v => v
       | None => JObj []
       end.

(** The answer to a provider response that is not [ok]: its status and
    its text are passed on. *)
Definition passOn (call : Call) (prefix : string) (st : Z) (payload : option string)
    : list Call * Result HttpResponse :=
  match payload with
  | None => ([call], Throw "TypeError: fetch failed")
  | Some errorText =>
      if validStatus st
      then ([call], Ok (errorResponse st (String.append prefix errorText)))
      else ([call], Throw "RangeError: Invalid status code")
  end.

(** [POST /openai/token], deprecated *)
Definition openaiToken (env : Env) (req : HttpRequest) : list Call * Result HttpResponse :=
  withUser env req
    ([], Ok (mkResponse 200
               [("Content-Type", "application/json");
                ("X-Deprecated",
                 "This endpoint is deprecated. Use /api/openai/ephemeral-token instead.")]
               (BJson (JObj [("api_key", JStr OPENAI_API_KEY);
                             ("expires_in", JNum 3600);
                             ("deprecated", JBool true);
                             ("migration_notice",
                              JStr "Use /api/openai/ephemeral-token for better security")])))).

(** [POST /api/openai/ephemeral-token] *)
Definition ephemeralToken (env : Env) (req : HttpRequest) : list Call * Result HttpResponse :=
  withUser env req
    (let params := parseParams (body req) in
     match getProp "voice" params with
     | Throw e => ([], Throw e)
     | Ok voiceParam =>
         let requestedVoice := orElse voiceParam (JStr "nova") in
         let model := orElse (field "model" params)
                        (JStr "gpt-4o-realtime-preview-2024-12-17") in
         match realtimeVoice numberToString requestedVoice with
         | Throw e => ([], Throw e)
         | Ok voice =>
             let call :=
               Fetch "https://api.openai.com/v1/realtime/sessions"
                 (String.append "Bearer " OPENAI_API_KEY)
                 (stringify [("model", Some model);
                             ("voice", voiceJson voice);
                             ("modalities", Some (JArr [JStr "text"; JStr "audio"]))]) in
             match fetched env with
             | FetchFailed => ([call], Throw "TypeError: fetch failed")
             | Responded st payload =>
                 if negb (isOk st) then
                   if Z.eqb st 404 then
                     ([call], Ok (jsonResponse 200
                                    (stringify [("ephemeralKey", Some (JStr OPENAI_API_KEY));
                                                ("model", Some model);
                                                ("voice", voiceJson voice);
                                                ("fallback", Some (JBool true))])))
                   else ([call], Ok (errorResponse 500 "Failed to create OpenAI session"))
                 else
                   match payload ≫= JSON_parse with
                   | None => ([call], Throw "SyntaxError")
                   | Some sessionData =>
                       match getProp "client_secret" sessionData with
                       | Throw e => ([call], Throw e)
                       | Ok clientSecret =>
                           ([call],
                            Ok (jsonResponse 200
                                  (stringify
                                     [("ephemeralKey",
                                       orUndef (optChain "value" clientSecret)
                                         (field "api_key" sessionData));
                                      ("model", Some model);
                                      ("voice", voiceJson voice);
                                      ("expiresAt", optChain "expires_at" clientSecret)])))
                       end
                   end
             end
         end
     end).

(** [POST /api/soniox/token] *)
Definition sonioxToken (env : Env) (req : HttpRequest) : list Call * Result HttpResponse :=
  withUser env req
    ([], Ok (jsonResponse 200
               (JObj [("useProxy", JBool true);
                      ("proxyUrl", JStr "wss://selah-proxy-ffrw7.ondigitalocean.app");
                      ("message",
                       JStr "Connect to proxyUrl with your JWT token as query param")]))).

(** [POST /api/openai/tts], the handler that answers *)
Definition openaiTts (env : Env) (req : HttpRequest) : list Call * Result HttpResponse :=
  withUser env req
    (let params := parseParams (body req) in
     match getProp "text" params with
     | Throw e => ([], Throw e)
     | Ok textParam =>
         let text := orUndef textParam (field "input" params) in
         let voice := orElse (field "voice" params) (JStr "nova") in
         let model := orElse (field "model" params) (JStr "tts-1") in
         let speed := orElse (field "speed" params) (JNum 1) in
         if negb (truthy text) then ([], Ok (errorResponse 400 "Missing required field: text"))
         else if (toStringThrows voice || lengthThrows text)%bool
         then ([], Throw "TypeError: Cannot convert object to primitive value")
         else
           let call :=
             Fetch "https://api.openai.com/v1/audio/speech"
               (String.append "Bearer " OPENAI_API_KEY)
               (stringify [("model", Some model); ("input", text); ("voice", Some voice);
                           ("speed", Some speed); ("response_format", Some (JStr "mp3"))]) in
           match fetched env with
           | FetchFailed => ([call], Throw "TypeError: fetch failed")
           | Responded st payload =>
               if negb (isOk st) then passOn call "OpenAI TTS failed: " st payload
               else
                 match payload with
                 | None => ([call], Throw "TypeError: fetch failed")
                 | Some audioData => ([call], Ok (audioResponse "audio/mpeg" audioData))
                 end
           end
     end).

(** [POST /api/deepgram/tts] *)
Definition deepgramTts (env : Env) (req : HttpRequest) : list Call * Result HttpResponse :=
  if negb (truthyStr DEEPGRAM_API_KEY)
  then ([], Ok (errorResponse 503 "Deepgram TTS not configured"))
  else
    withUser env req
      (let params := parseParams (body req) in
       match getProp "text" params with
       | Throw e => ([], Throw e)
       | Ok textParam =>
           let text := orUndef textParam (field "input" params) in
           let model := orElse (field "model" params) (JStr "aura-asteria-en") in
           let encoding := orElse (field "encoding" params) (JStr "mp3") in
           if negb (truthy text)
           then ([], Ok (errorResponse 400 "Missing required field: text"))
           else if (toStringThrows model || lengthThrows text || toStringThrows encoding)%bool
           then ([], Throw "TypeError: Cannot convert object to primitive value")
           else
             match encodeURIComponent (toStr numberToString model) with
             | None => ([], Throw "URIError: URI malformed")
             | Some encodedModel =>
                 let deepgramUrl :=
                   String.append "https://api.deepgram.com/v1/speak?model="
                     (String.append encodedModel
                        (String.append "&encoding=" (toStr numberToString encoding))) in
                 let call :=
                   Fetch deepgramUrl
                     (String.append "Token " (default EmptyString DEEPGRAM_API_KEY))
                     (stringify [("text", text)]) in
                 match fetched env with
                 | FetchFailed => ([call], Throw "TypeError: fetch failed")
                 | Responded st payload =>
                     if negb (isOk st) then passOn call "Deepgram TTS failed: " st payload
                     else
                       match payload with
                       | None => ([call], Throw "TypeError: fetch failed")
                       | Some audioData =>
                           let contentType :=
                             if isStr "mp3" (Some encoding) then "audio/mpeg"
                             else if isStr "wav" (Some encoding) then "audio/wav"
                             else if isStr "opus" (Some encoding) then "audio/opus"
                             else if isStr "flac" (Some encoding) then "audio/flac"
                             else "audio/mpeg" in
                           ([call], Ok (audioResponse contentType audioData))
                       end
                 end
             end
       end).

(** The second handler written for [POST /api/openai/tts] *)
Definition openaiTtsSecond (env : Env) (req : HttpRequest) : list Call * Result HttpResponse :=
  if isEmpty OPENAI_API_KEY
  then ([], Ok (errorResponse 503 "OpenAI TTS not configured"))
  else
    withUser env req
      (let params := parseParams (body req) in
       match getProp "text" params with
       | Throw e => ([], Throw e)
       | Ok textParam =>
           let text := orUndef textParam (field "input" params) in
           let voice := orElse (field "voice" params) (JStr "nova") in
           let model := orElse (field "model" params) (JStr "tts-1") in
           let responseFormat := orElse (field "response_format" params) (JStr "mp3") in
           match clampSpeed (field "speed" params) with
           | Throw e => ([], Throw e)
           | Ok speed =>
               if negb (truthy text)
               then ([], Ok (errorResponse 400 "Missing required field: text"))
               else if (toStringThrows voice || toStringThrows model
                        || lengthThrows text)%bool
               then ([], Throw "TypeError: Cannot convert object to primitive value")
               else
                 let call :=
                   Fetch "https://api.openai.com/v1/audio/speech"
                     (String.append "Bearer " OPENAI_API_KEY)
                     (stringify [("model", Some model); ("input", text);
                                 ("voice", Some voice); ("speed", Some speed);
                                 ("response_format", Some responseFormat)]) in
                 match fetched env with
                 | FetchFailed => ([call], Throw "TypeError: fetch failed")
                 | Responded st payload =>
                     if negb (isOk st) then passOn call "OpenAI TTS failed: " st payload
                     else
                       match payload with
                       | None => ([call], Throw "TypeError: fetch failed")
                       | Some audioData =>
                           let contentType :=
                             if isStr "mp3" (Some responseFormat) then "audio/mpeg"
                             else if isStr "opus" (Some responseFormat) then "audio/opus"
                             else if isStr "aac" (Some responseFormat) then "audio/aac"
                             else if isStr "flac" (Some responseFormat) then "audio/flac"
                             else "audio/mpeg" in
                           ([call], Ok (audioResponse contentType audioData))
                       end
                 end
           end
       end).

Definition healthResponse (env : Env) : HttpResponse :=
  jsonResponse 200 (JObj [("status", JStr "healthy"); ("service", JStr "soniox-proxy");
                          ("timestamp", JStr (isoNow env))]).

Definition notFound : HttpResponse := mkResponse 404 [] (BText "Not Found").

(** The chain of [if (req.url === ... && req.method === 'POST')]
    statements, each of which returns. *)
Definition route (env : Env) (req : HttpRequest) : list Call * HttpResponse :=
  let post := String.eqb (method req) "POST" in
  if String.eqb (method req) "OPTIONS" then ([], mkResponse 200 [] BNone)
  else if (String.eqb (url req) "/health" || String.eqb (url req) "/")%bool
  then ([], healthResponse env)
  else if (String.eqb (url req) "/openai/token" && post)%bool
  then catch (openaiToken env req)
  else if (String.eqb (url req) "/api/openai/ephemeral-token" && post)%bool
  then catch (ephemeralToken env req)
  else if (String.eqb (url req) "/api/soniox/token" && post)%bool
  then catch (sonioxToken env req)
  else if (String.eqb (url req) "/api/openai/tts" && post)%bool
  then catch (openaiTts env req)
  else if (String.eqb (url req) "/api/deepgram/tts" && post)%bool
  then catch (deepgramTts env req)
  else if (String.eqb (url req) "/api/openai/tts" && post)%bool
  then catch (openaiTtsSecond env req)
  else ([], notFound).

(** The callback: the headers set by [res.setHeader] go out with
    whatever [writeHead] adds. *)
Definition handleRequest (env : Env) (req : HttpRequest) : list Call * HttpResponse :=
  let '(calls, res) := route env req in
  (calls, mkResponse (status res) (corsHeaders ++ headers res) (resBody res)).

(** The callback of the copy that has the [/deepgram/token] endpoint,
    which hands the provider key (required at start-up there) to a
    verified user. *)
Definition olderDeepgramToken (deepgramKey : string) (env : Env) (req : HttpRequest)
    : list Call * Result HttpResponse :=
  withUser env req
    ([], Ok (jsonResponse 200
               (JObj [("api_key", JStr deepgramKey); ("expires_in", JNum 3600)]))).

Definition olderHandleRequest (deepgramKey : string) (env : Env) (req : HttpRequest)
    : list Call * HttpResponse :=
  let '(calls, res) :=
    if String.eqb (method req) "OPTIONS" then ([], mkResponse 200 [] BNone)
    else if (String.eqb (url req) "/health" || String.eqb (url req) "/")%bool
    then ([], healthResponse env)
    else if (String.eqb (url req) "/deepgram/token" && String.eqb (method req) "POST")%bool
    then catch (olderDeepgramToken deepgramKey env req)
    else ([], notFound) in
  (calls, mkResponse (status res) (corsHeaders ++ headers res) (resBody res)).

(** The callback of the oldest copy: the health check and nothing
    else. *)
Definition oldestHandleRequest (env : Env) (req : HttpRequest) : list Call * HttpResponse :=
  if (String.eqb (url req) "/health" || String.eqb (url req) "/")%bool
  then ([], healthResponse env)
  else ([], notFound).

End Http.

(** ** Observations and invariants *)

(** The spec's test for a control frame: the first byte that is not
    white space is [{] or [[]. *)
Definition looksLikeJsonPerSpec (data : string) : bool :=
  let t := trimStart data in
  (startsWith "{" t || startsWith "[" t)%bool.

(** The frames written to client sockets, oldest first. *)
Definition isClientSend (a : Action) : bool :=
  match a with
  | ASend _ ClientLeg _ _ => true
  | _ => false
  end.

Definition clientFrames (l : list Action) : list Action := List.filter isClientSend l.

Definition isProxyReady (a : Action) : bool :=
  match a with
  | ASend _ _ _ (PJson (JObj (("type", JStr t) :: _))) => String.eqb t "proxy_ready"
  | _ => false
  end.

Definition countProxyReady (l : list Action) : nat := List.length (List.filter isProxyReady l).

(** An error frame whose message is the timeout message. *)
Definition isTimeoutSend (a : Action) : bool :=
  match a with
  | ASend _ _ _ (PJson (JObj [("type", JStr t); ("message", JStr m)])) =>
      (String.eqb t "error" && String.eqb m "Soniox connection timeout")%bool
  | _ => false
  end.

Definition isCloseOf (s : nat) (a : Action) : bool :=
  match a with
  | AClose s' _ _ => Nat.eqb s s'
  | _ => false
  end.

(** A [send] was made on an open socket. *)
Definition sentAtOpen (a : Action) : Prop :=
  match a with
  | ASend _ _ r _ => r = OPEN
  | _ => True
  end.

(** A socket is live while it is connecting or open. *)
Definition live (r : ReadyState) : bool :=
  match r with
  | CONNECTING | OPEN => true
  | CLOSING | CLOSED => false
  end.

(** The upstream sockets whose handlers hold connection record [r] and
    that are live. *)
Definition liveUpstream (r : nat) (w : World) : list nat :=
  List.map fst
    (List.filter
       (fun p => match kind (snd p) with
                 | UpstreamSock r' _ _ => (Nat.eqb r r' && live (readyState (snd p)))%bool
                 | ClientSock _ => false
                 end)
       (imap (fun i sk => (i, sk)) (socks w))).

(** [readyState] only moves forward; the handshake completes at most
    once, out of [CONNECTING]; a socket stays on its leg. *)
Definition rank (r : ReadyState) : nat :=
  match r with
  | CONNECTING => 0
  | OPEN => 1
  | CLOSING => 2
  | CLOSED => 3
  end.

Definition sockLe (a b : Sock) : Prop :=
  rank (readyState a) <= rank (readyState b)
  /\ legOf (kind a) = legOf (kind b)
  /\ (established b = established a \/ readyState a = CONNECTING).

Definition socksLe (ss ss' : list Sock) : Prop :=
  forall s sk, ss !! s = Some sk -> exists sk', ss' !! s = Some sk' /\ sockLe sk sk'.

(** No timer is set for a socket that exists already. *)
Definition timersLe (w w' : World) : Prop :=
  forall s, s < List.length (socks w) ->
    hasTimer s (timers w') = true -> hasTimer s (timers w) = true.

(** [w'] comes after [w]: the log grew by sends made on open sockets
    only, the sockets moved forward, and timers were set for new sockets
    only. *)
Definition evolves (w w' : World) : Prop :=
  (exists new, log w' = log w ++ new /\ Forall sentAtOpen new)
  /\ socksLe (socks w) (socks w')
  /\ timersLe w w'.

(** The events through which upstream socket [s] can still make the relay
    write a [proxy_ready] or a timeout frame. *)
Definition wakes (s : nat) (e : Event) : bool :=
  match e with
  | SonioxOpen s' | SonioxMessage s' _ | TimerFired s' => Nat.eqb s s'
  | _ => false
  end.

(** Upstream socket [s] is dormant: not live, its handshake never
    completed, and its timer is not pending. *)
Definition dormant (s : nat) (w : World) : Prop :=
  hasTimer s (timers w) = false
  /\ exists sk, socks w !! s = Some sk
       /\ established sk = false /\ live (readyState sk) = false.

(** Everything but the log. *)
Definition core (w : World) : World :=
  mkWorld (socks w) (heap w) (connections w) (timers w) [] (listening w) (crashed w).

(** The same world with an earlier history [l] put before its log. *)
Definition relog (l : list Action) (w : World) : World :=
  mkWorld (socks w) (heap w) (connections w) (timers w) (l ++ log w)
    (listening w) (crashed w).

(** Two worlds a client cannot tell apart: they differ at most in what
    was sent upstream. *)
Definition sameForClients (w1 w2 : World) : Prop :=
  core w1 = core w2 /\ clientFrames (log w1) = clientFrames (log w2).

(** *** The components of the [sec-websocket-protocol] header *)

(** A string of white space only. *)
Fixpoint allSpace (s : string) : bool :=
  match s with
  | EmptyString => true
  | String c s' => (isSpace c && allSpace s')%bool
  end.

(** A string without a comma. *)
Fixpoint noComma (s : string) : bool :=
  match s with
  | EmptyString => true
  | String c s' => (negb (Ascii.eqb c ","%char) && noComma s')%bool
  end.

(** The last character of a string is white space. *)
Fixpoint endsInSpace (s : string) : bool :=
  match s with
  | EmptyString => false
  | String c EmptyString => isSpace c
  | String _ s' => endsInSpace s'
  end.

(** A component of the header that reads [Bearer.] after white space. *)
Definition isBearerPart (p : string) : Prop :=
  exists ws rest, allSpace ws = true /\ p = String.append ws (String.append "Bearer." rest).

(** *** Well-formed worlds *)

(** The connection id that the handlers of a socket hold. *)
Definition ownerOf (sk : Sock) : option string :=
  match kind sk with
  | ClientSock handlers => handlers
  | UpstreamSock _ cid _ => Some cid
  end.

(** The socket a call is made on. *)
Definition socketOf (a : Action) : option nat :=
  match a with
  | ASend s _ _ _ | AClose s _ _ | AConnect s _ _ => Some s
  | AVerify _ => None
  end.

(** Every record's [clientWs] is a client socket whose handlers hold the
    record's id; the socket a record is attached to is an upstream socket
    that was created for this record and has completed its handshake. *)
Definition recordsOk (w : World) : Prop :=
  forall r c, heap w !! r = Some c ->
    (exists rs e,
        socks w !! clientWs c = Some (mkSock (ClientSock (Some (connectionId c))) rs e))
    /\ (forall s, sonioxWs c = Some s ->
          exists config rs,
            socks w !! s = Some (mkSock (UpstreamSock r (connectionId c) config) rs true)).

(** The handlers of an upstream socket hold a record that exists, and
    its id. *)
Definition upstreamOk (w : World) : Prop :=
  forall s sk r cid config,
    socks w !! s = Some sk -> kind sk = UpstreamSock r cid config ->
    connectionId <$> heap w !! r = Some cid.

(** Every id of the [connections] map refers to a record with that
    id. *)
Definition registryOk (w : World) : Prop :=
  forall cid r, connections w !! cid = Some r ->
    exists c, heap w !! r = Some c /\ connectionId c = cid.

Definition wellFormed (w : World) : Prop :=
  recordsOk w /\ upstreamOk w /\ registryOk w.

(** The upgrade handler as it resumes after [await
    supabase.auth.getUser(token)].  The client socket was open when the
    handler started; it is in state [found] now, and if its [close] event
    has fired meanwhile it found no listener. *)
Definition authenticateWhen (found : ReadyState) (cid : string) (token : option string)
    (auth : AuthOutcome) (w : World) : World :=
  let '(ws, w0) := newSocket (mkSock (ClientSock None) OPEN true) w in
  if negb (truthyStr token) then
    ws_close ws (Some 1008%Z) (sendError (Some ws) "Unauthorized: No token provided" 401 w0)
  else
    let w1 := setState ws found (emit (AVerify (default EmptyString token)) w0) in
    match auth with
    | AuthRejected =>
        ws_close ws (Some 1008%Z) (sendError (Some ws) "Unauthorized: Invalid token" 401 w1)
    | AuthThrew _ =>
        ws_close ws (Some 1011%Z) (sendError (Some ws) "Authentication error" 500 w1)
    | AuthUser _ =>
        let r := List.length (heap w1) in
        let w2 := setConnections (<[cid := r]> (connections w1))
                    (setHeap (heap w1 ++ [mkConn ws None cid false]) w1) in
        let w3 := sendToClient (Some ws)
                    (JObj [("type", JStr "auth_success");
                           ("message", JStr "Authenticated, ready for start message");
                           ("connectionId", JStr cid)]) w2 in
        setKind ws (ClientSock (Some cid)) w3
    end.

(** *** Connections do not interfere *)

(** The connection an event belongs to: the id drawn for an upgrade, the
    id held by the handlers of the socket that emits the event. *)
Definition subject (w : World) (e : Event) : option string :=
  match e with
  | Upgrade cid _ _ => Some cid
  | ClientMessage s _ _ _ | ClientClose s | ClientError s | SonioxOpen s
  | SonioxMessage s _ | SonioxClose s _ _ | SonioxError s _ | TimerFired s =>
      socks w !! s ≫= ownerOf
  | Sigterm _ => None
  end.

(** The socket that emits an event. *)
Definition socketOfEvent (e : Event) : option nat :=
  match e with
  | ClientMessage s _ _ _ | ClientClose s | ClientError s | SonioxOpen s
  | SonioxMessage s _ | SonioxClose s _ _ | SonioxError s _ | TimerFired s => Some s
  | Upgrade _ _ _ | Sigterm _ => None
  end.

(** From [w] to [w'] only connection [o] was touched: every socket and
    every record keeps its id, and a socket of another id, its timer, a
    record of another id and any other entry of [connections] are what
    they were; a socket that was created carries the id [o] or none; no
    call was made on a socket of another id. *)
Definition confinedTo (o : option string) (w w' : World) : Prop :=
  (forall s sk, socks w !! s = Some sk ->
     exists sk', socks w' !! s = Some sk' /\ ownerOf sk' = ownerOf sk
                 /\ (ownerOf sk <> o ->
                     sk' = sk /\ hasTimer s (timers w') = hasTimer s (timers w)))
  /\ (forall s sk', socks w' !! s = Some sk' -> List.length (socks w) <= s ->
        ownerOf sk' = o \/ ownerOf sk' = None)
  /\ (forall r c, heap w !! r = Some c ->
        exists c', heap w' !! r = Some c' /\ connectionId c' = connectionId c
                   /\ (Some (connectionId c) <> o -> c' = c))
  /\ (forall cid, Some cid <> o -> connections w' !! cid = connections w !! cid)
  /\ exists new, log w' = log w ++ new
       /\ forall a s sk, In a new -> socketOf a = Some s -> socks w !! s = Some sk ->
            ownerOf sk = o.

(** The events that take an id out of [connections] whatever its sockets
    do: SIGTERM, and an upgrade that draws the same id again, which puts
    another record in its place. *)
Definition replaces (cid : string) (e : Event) : bool :=
  match e with
  | Upgrade c _ _ => String.eqb c cid
  | Sigterm _ => true
  | _ => false
  end.

(** *** Observations on the endpoints *)

(** The calls of a request are none, the verifier alone, or the verifier
    and then one provider call for a user the verifier accepted; and a
    [200] is a verified user's. *)
Definition gated (env : Env) (req : HttpRequest) (calls : list Call) : Prop :=
  calls = []
  \/ (exists token, bearerToken (authHeader req) = Some token /\ calls = [GetUser token])
  \/ (exists token id u a b,
        bearerToken (authHeader req) = Some token /\ user env = AuthUser id
        /\ calls = [GetUser token; Fetch u a b]).

(** ** Inputs of the examples *)

Definition tokenRequest : Request := mkRequest (Ok [("token", "jwt")]) None.

Definition headerRequest : Request := mkRequest (Ok []) (Some "soniox, Bearer.jwt").

Definition noTokenRequest : Request := mkRequest (Ok [("lang", "es")]) (Some "soniox").

(** A header whose components carry white space on both sides. *)
Definition paddedRequest : Request :=
  mkRequest (Ok [("token", EmptyString)]) (Some " soniox ,  Bearer.jwt  ,v2").

(** A request whose target does not parse as a URL, as [GET //] with
    the upgrade headers. *)
Definition unparsableRequest : Request :=
  mkRequest (Throw "TypeError: Invalid URL") None.

(** A [start] frame whose [config] asks for a translation from [en] to
    [es]. *)
Definition startFrame : string :=
  q2s "{qactionq:qstartq,qconfigq:{qtranslationq:{qtarget_languageq:qesq,qsource_languageq:qenq}}}".

(** A [start] frame whose [target_language] is an object with a
    [toString] property. *)
Definition unprintableStart : string :=
  q2s "{qactionq:qstartq,qconfigq:{qtranslationq:{qtarget_languageq:{qtoStringq:1}}}}".

(** A [ping] frame with [ref] 42. *)
Definition pingFrame : string := q2s "{qtypeq:qpingq,qrefq:42}".

(** A [ping] frame whose [ref] is the empty string. *)
Definition pingEmptyRef : string := q2s "{qtypeq:qpingq,qrefq:qq}".

(** [{not json] *)
Definition malformedFrame : string := "{not json".

(** The frame [null]. *)
Definition nullFrame : string := "null".

(** A client connects and authenticates; its socket is handle 0, its
    record is at 0. *)
Definition accepted : list Event := [Upgrade "c1" tokenRequest (AuthUser "u1")].

(** The config of [startFrame]. *)
Definition sampleConfig : json :=
  JObj [("translation",
         JObj [("target_language", JStr "es"); ("source_language", JStr "en")])].

(** ... sends [start]: the upstream socket is handle 1, connecting. *)
Definition connecting : list Event :=
  accepted ++ [ClientMessage 0 startFrame false 100].

(** ... and the upstream socket opens. *)
Definition started : list Event := connecting ++ [SonioxOpen 1].

(** ... the provider answers: the session is ready. *)
Definition ready : list Event := started ++ [SonioxMessage 1 "ack"].

(** ... the client sends [start] again while the session is ready. *)
Definition restartedWhileReady : list Event :=
  ready ++ [ClientMessage 0 startFrame false 200].

(** ... the second upstream socket (handle 2) opens and the provider
    answers on it before the first socket's [close] is delivered. *)
Definition secondSessionAnswers : list Event :=
  restartedWhileReady ++ [SonioxOpen 2; SonioxMessage 2 "ack2"].

(** ... then the first socket's [close] arrives, and the provider sends
    another frame on the second. *)
Definition staleCloseThenFrame : list Event :=
  secondSessionAnswers
  ++ [SonioxClose 1 1000 (Some EmptyString); SonioxMessage 2 "tokens"].

(** Two [start] frames in succession, before the first upstream socket
    has opened; then both open. *)
Definition startTwice : list Event :=
  accepted ++ [ClientMessage 0 startFrame false 100; ClientMessage 0 startFrame false 101].

Definition startTwiceBothOpen : list Event := startTwice ++ [SonioxOpen 1; SonioxOpen 2].

(** After [connecting] the attempt fails: the upstream socket emits
    [error], then [close], without having opened. *)
Definition failedAttempt : list Event :=
  connecting ++ [SonioxError 1 "connect ECONNREFUSED"; SonioxClose 1 1006 None].

(** A client connects and sends the [start] frame whose language cannot
    be printed. *)
Definition unprintableConnecting : list Event :=
  [Upgrade "c1" tokenRequest (AuthUser "u1"); ClientMessage 0 unprintableStart false 100].

(** The world a trace of events leads to, with the reference parser. *)
Definition worldAfter (tr : list Event) : World :=
  default initial (run parse_json "sk-test" initial tr).

(** Two clients connect and authenticate: sockets 0 and 1, records 0
    and 1. *)
Definition twoClients : list Event :=
  [Upgrade "c1" tokenRequest (AuthUser "u1"); Upgrade "c2" tokenRequest (AuthUser "u2")].

(** Requests a verified user can make. *)
Definition postTo (path token : string) (data : string) : HttpRequest :=
  mkHttpRequest "POST" path (Some (String.append "Bearer " token)) data.

Definition verified (f : FetchOutcome) : Env := mkEnv (AuthUser "u1") f "2026-01-01T00:00:00.000Z".

(** The callback of the examples: the reference parser, an
    [encodeURIComponent] for names that need no escape, a speed that is
    always 1, and two keys; numbers print as their decimal digits. *)
Definition exampleHandle : Env -> HttpRequest -> list Call * HttpResponse :=
  handleRequest pretty parse_json Some (fun _ => Ok (JNum 1)) "sk-openai" (Some "dg-key").

(** A speech request for the text [hi], with an encoding. *)
Definition speechBody : string := q2s "{qtextq:qhiq,qencodingq:qwavq}".

(** * Properties *)

(** ** The socket operations *)

(** Reads of the socket that was just appended to the heap. *)
Ltac fresh_socket :=
  repeat (rewrite list_lookup_middle by reflexivity; simpl).


Lemma isOpen_lookup (s : nat) (w : World) :
  isOpen s w = true <->
  exists k e, socks w !! s = Some (mkSock k OPEN e).
Proof.
  unfold isOpen, stateOf. split.
  - destruct (socks w !! s) as [[k r e]|]; simpl; try discriminate.
    destruct r; try discriminate. eauto.
  - intros (k & e & ->). reflexivity.
Qed.

Lemma ws_send_open (s : nat) (p : Payload) (w : World) (k : SockKind) (e : bool) :
  socks w !! s = Some (mkSock k OPEN e) ->
  ws_send s p w = emit (ASend s (legOf k) OPEN p) w.
Proof. intros H. unfold ws_send. rewrite H. reflexivity. Qed.

Lemma sendToClient_open (s : nat) (data : json) (w : World) (k : SockKind) (e : bool) :
  socks w !! s = Some (mkSock k OPEN e) ->
  sendToClient (Some s) data w = emit (ASend s (legOf k) OPEN (PJson data)) w.
Proof.
  intros H. unfold sendToClient.
  assert (isOpen s w = true) as -> by (apply isOpen_lookup; eauto).
  eapply ws_send_open; eauto.
Qed.

Lemma sendToClient_not_open (ws : option nat) (data : json) (w : World) :
  match ws with Some s => isOpen s w = false | None => True end ->
  sendToClient ws data w = w.
Proof. destruct ws as [s|]; simpl; [intros ->|]; reflexivity. Qed.

Lemma sonioxOpen_Some (c : ConnInfo) (w : World) (s : nat) :
  sonioxOpen c w = Some s <-> sonioxWs c = Some s /\ isOpen s w = true.
Proof.
  unfold sonioxOpen. destruct (sonioxWs c) as [s'|]; [|split; [discriminate|intros [? _]; discriminate]].
  destruct (isOpen s' w) eqn:E; split.
  - intros [= ->]. auto.
  - intros [[= ->] _]. reflexivity.
  - discriminate.
  - intros [[= ->] H]. congruence.
Qed.

Lemma ws_close_absent (s : nat) (code : option Z) (w : World) :
  socks w !! s = None -> ws_close s code w = w.
Proof. intros H. unfold ws_close, stateOf. rewrite H. reflexivity. Qed.

Lemma ws_close_present (s : nat) (code : option Z) (w : World) (sk : Sock) :
  socks w !! s = Some sk ->
  ws_close s code w =
    emit (AClose s (readyState sk) code)
      (setSocks (<[s := mkSock (kind sk) (afterClose (readyState sk)) (established sk)]> (socks w)) w).
Proof. intros H. unfold ws_close, stateOf, setState. rewrite H. reflexivity. Qed.

Lemma ws_close_lookup_eq (s : nat) (code : option Z) (w : World) (sk : Sock) :
  socks w !! s = Some sk ->
  socks (ws_close s code w) !! s =
    Some (mkSock (kind sk) (afterClose (readyState sk)) (established sk)).
Proof.
  intros H. rewrite (ws_close_present _ _ _ _ H). simpl.
  apply list_lookup_insert_eq. eapply lookup_lt_Some; eauto.
Qed.

Lemma ws_close_lookup_ne (s s' : nat) (code : option Z) (w : World) :
  s <> s' -> socks (ws_close s code w) !! s' = socks w !! s'.
Proof.
  intros Hne. destruct (socks w !! s) as [sk|] eqn:H.
  - rewrite (ws_close_present _ _ _ _ H). simpl. apply list_lookup_insert_ne. exact Hne.
  - rewrite (ws_close_absent _ _ _ H). reflexivity.
Qed.

Lemma ws_close_frame (s : nat) (code : option Z) (w : World) :
  heap (ws_close s code w) = heap w
  /\ connections (ws_close s code w) = connections w
  /\ timers (ws_close s code w) = timers w
  /\ crashed (ws_close s code w) = crashed w.
Proof.
  destruct (socks w !! s) as [sk|] eqn:H.
  - rewrite (ws_close_present _ _ _ _ H). simpl. auto.
  - rewrite (ws_close_absent _ _ _ H). auto.
Qed.

Lemma ws_close_length (s : nat) (code : option Z) (w : World) :
  List.length (socks (ws_close s code w)) = List.length (socks w).
Proof.
  destruct (socks w !! s) as [sk|] eqn:H.
  - rewrite (ws_close_present _ _ _ _ H). simpl. apply length_insert.
  - rewrite (ws_close_absent _ _ _ H). reflexivity.
Qed.

Lemma live_afterClose (r : ReadyState) : live (afterClose r) = false.
Proof. destruct r; reflexivity. Qed.

(** ** Strings *)

Lemma startsWith_append (p t : string) : startsWith p (String.append p t) = true.
Proof.
  unfold startsWith. induction p as [|c p IH]; simpl.
  - destruct t; reflexivity.
  - destruct (ascii_dec c c); [exact IH|congruence].
Qed.

Lemma dropStr_append (p t : string) : dropStr (String.length p) (String.append p t) = t.
Proof. induction p as [|c p IH]; simpl; [reflexivity|exact IH]. Qed.

Lemma replace_unfold (pat rep s : string) :
  replace pat rep s =
    if startsWith pat s then String.append rep (dropStr (String.length pat) s)
    else match s with
         | EmptyString => EmptyString
         | String c s' => String c (replace pat rep s')
         end.
Proof. destruct s; reflexivity. Qed.

Lemma replace_prefix (p t : string) : replace p EmptyString (String.append p t) = t.
Proof.
  rewrite replace_unfold, startsWith_append, dropStr_append. reflexivity.
Qed.

Lemma splitComma_noComma (s : string) : noComma s = true -> splitComma s = [s].
Proof.
  induction s as [|c s IH]; simpl; [reflexivity|].
  intros H. apply andb_true_iff in H as [Hc Hs].
  destruct (Ascii.eqb c ","); [discriminate|]. rewrite (IH Hs). reflexivity.
Qed.

Lemma splitComma_app (p rest : string) :
  noComma p = true ->
  splitComma (String.append p (String ","%char rest)) = p :: splitComma rest.
Proof.
  induction p as [|c p IH]; simpl; [reflexivity|].
  intros H. apply andb_true_iff in H as [Hc Hs].
  destruct (Ascii.eqb c ","); [discriminate|]. rewrite (IH Hs). reflexivity.
Qed.

Lemma splitComma_concat (parts : list string) :
  parts <> [] -> Forall (fun p => noComma p = true) parts ->
  splitComma (String.concat "," parts) = parts.
Proof.
  induction parts as [|p parts IH]; [contradiction|].
  intros _ H. apply Forall_cons in H as [Hp Hps].
  destruct parts as [|q parts]; [apply splitComma_noComma; exact Hp|].
  change (String.concat "," (p :: q :: parts))
    with (String.append p (String ","%char (String.concat "," (q :: parts)))).
  rewrite (splitComma_app _ _ Hp). f_equal. apply IH; [discriminate|exact Hps].
Qed.

Lemma trimStart_lead (ws s : string) :
  allSpace ws = true -> trimStart (String.append ws s) = trimStart s.
Proof.
  induction ws as [|c ws IH]; simpl; [reflexivity|].
  intros H. apply andb_true_iff in H as [Hc Hs]. rewrite Hc. apply IH. exact Hs.
Qed.

Lemma trimEnd_allSpace (ws : string) : allSpace ws = true -> trimEnd ws = EmptyString.
Proof.
  induction ws as [|c ws IH]; simpl; [reflexivity|].
  intros H. apply andb_true_iff in H as [Hc Hs]. rewrite (IH Hs), Hc. reflexivity.
Qed.

Lemma trimEnd_keeps (s : string) :
  s <> EmptyString -> endsInSpace s = false -> trimEnd s = s.
Proof.
  induction s as [|c s IH]; [contradiction|]. intros _ H.
  destruct s as [|d s].
  - simpl in *. rewrite H. reflexivity.
  - change (endsInSpace (String c (String d s))) with (endsInSpace (String d s)) in H.
    change (trimEnd (String c (String d s)))
      with (match trimEnd (String d s) with
            | EmptyString => if isSpace c then EmptyString else String c EmptyString
            | t => String c t
            end).
    rewrite IH by (discriminate || exact H). reflexivity.
Qed.

Lemma trimEnd_trail (s ws : string) :
  allSpace ws = true -> trimEnd (String.append s ws) = trimEnd s.
Proof.
  intros H. induction s as [|c s IH]; simpl; [apply trimEnd_allSpace; exact H|].
  rewrite IH. reflexivity.
Qed.

Lemma endsInSpace_append (s t : string) :
  t <> EmptyString -> endsInSpace (String.append s t) = endsInSpace t.
Proof.
  intros Ht. induction s as [|c s IH]; simpl; [reflexivity|].
  destruct (String.append s t) eqn:E; [|exact IH].
  destruct s; simpl in E; [contradiction|discriminate].
Qed.

(** [trim] removes the white space around a core that has none at its
    ends. *)
Lemma trim_core (lead core trail : string) (c : ascii) (t : string) :
  allSpace lead = true -> allSpace trail = true ->
  core = String c t -> isSpace c = false -> endsInSpace core = false ->
  trim (String.append lead (String.append core trail)) = core.
Proof.
  intros Hl Ht -> Hc He. unfold trim. rewrite (trimStart_lead _ _ Hl).
  change (String.append (String c t) trail) with (String c (String.append t trail)).
  simpl trimStart. rewrite Hc.
  change (String c (String.append t trail)) with (String.append (String c t) trail).
  rewrite (trimEnd_trail _ _ Ht). apply trimEnd_keeps; [discriminate|exact He].
Qed.

Lemma trimStart_split (p : string) :
  exists ws, allSpace ws = true /\ p = String.append ws (trimStart p).
Proof.
  induction p as [|c p (ws & Hws & Hp)]; [exists EmptyString; auto|].
  simpl. destruct (isSpace c) eqn:Hc.
  - exists (String c ws). simpl. rewrite Hc, Hws. split; [reflexivity|].
    change (String c p = String c (String.append ws (trimStart p))). f_equal. exact Hp.
  - exists EmptyString. auto.
Qed.

Lemma trimEnd_split (q : string) : exists trail, q = String.append (trimEnd q) trail.
Proof.
  induction q as [|c q (trail & Hq)]; [exists EmptyString; reflexivity|].
  simpl. destruct (trimEnd q) as [|d t] eqn:E.
  - destruct (isSpace c).
    + exists (String c q). reflexivity.
    + exists q. reflexivity.
  - exists trail. change (String c q = String c (String.append (String d t) trail)).
    f_equal. exact Hq.
Qed.

Lemma append_assoc (a b c : string) :
  String.append (String.append a b) c = String.append a (String.append b c).
Proof.
  induction a as [|x a IH]; [reflexivity|].
  change (String x (String.append (String.append a b) c)
          = String x (String.append a (String.append b c))).
  rewrite IH. reflexivity.
Qed.

Lemma prefix_append (p s : string) :
  String.prefix p s = true -> exists rest, s = String.append p rest.
Proof.
  revert s. induction p as [|c p IH]; intros s; simpl.
  - eauto.
  - destruct s as [|d s]; simpl; [discriminate|].
    destruct (ascii_dec c d) as [->|]; [|discriminate].
    intros H. destruct (IH _ H) as (rest & ->). exists rest. reflexivity.
Qed.

Lemma trimmed_bearer (p : string) :
  startsWith "Bearer." (trim p) = true -> isBearerPart p.
Proof.
  intros H. apply prefix_append in H as (rest & Hrest).
  destruct (trimStart_split p) as (ws & Hws & Hp).
  destruct (trimEnd_split (trimStart p)) as (trail & Ht).
  exists ws, (String.append rest trail). split; [exact Hws|].
  rewrite Hp at 1. f_equal. rewrite Ht at 1. unfold trim in Hrest. rewrite Hrest.
  apply append_assoc.
Qed.

Lemma isBearerPart_trimStart (p : string) :
  isBearerPart p -> startsWith "Bearer." (trimStart p) = true.
Proof.
  intros (ws & rest & Hws & ->). rewrite (trimStart_lead _ _ Hws).
  change (String.append "Bearer." rest) with (String "B"%char (String.append "earer." rest)).
  simpl trimStart. apply (startsWith_append "Bearer." rest).
Qed.

Lemma splitComma_join (h : string) :
  String.concat "," (splitComma h) = h /\ Forall (fun p => noComma p = true) (splitComma h).
Proof.
  induction h as [|c h (IHc & IHn)]; [split; [reflexivity|repeat constructor]|].
  simpl. destruct (Ascii.eqb_spec c ","%char) as [->|Hc].
  - split; [|constructor; [reflexivity|exact IHn]].
    destruct (splitComma h) as [|p ps] eqn:E.
    + simpl in IHc. subst h. discriminate E.
    + change (String.concat "," (EmptyString :: p :: ps))
        with (String ","%char (String.concat "," (p :: ps))).
      rewrite IHc. reflexivity.
  - destruct (splitComma h) as [|p ps] eqn:E.
    + simpl in IHc. subst h. discriminate E.
    + apply Forall_cons in IHn as [Hp Hps]. split.
      * rewrite <- IHc. destruct ps; reflexivity.
      * constructor; [|exact Hps]. simpl. rewrite Hp.
        destruct (Ascii.eqb_spec c ","%char); [contradiction|reflexivity].
Qed.

Lemma trimStart_bearer (p : string) :
  startsWith "Bearer." (trimStart p) = true -> isBearerPart p.
Proof.
  intros H. apply prefix_append in H as (rest & Hrest).
  destruct (trimStart_split p) as (ws & Hws & Hp).
  exists ws, rest. split; [exact Hws|]. rewrite Hp at 1. rewrite Hrest. reflexivity.
Qed.

Lemma trimEnd_tail (q : string) :
  exists trail, allSpace trail = true /\ q = String.append (trimEnd q) trail
                /\ endsInSpace (trimEnd q) = false.
Proof.
  induction q as [|c q (trail & Hall & Hq & He)]; [exists EmptyString; auto|].
  simpl. destruct (trimEnd q) as [|d t] eqn:E.
  - change (q = trail) in Hq. subst trail. destruct (isSpace c) eqn:Hc.
    + exists (String c q). simpl. rewrite Hc, Hall. auto.
    + exists q. simpl. rewrite Hc. auto.
  - exists trail. split; [exact Hall|]. split.
    + change (String c q = String c (String.append (String d t) trail)). f_equal. exact Hq.
    + exact He.
Qed.

(** The components of a header: none reads [Bearer.], or there is a
    first one that does, and it is white space, [Bearer.], a token that
    does not end in white space, and white space. *)
Lemma header_parts_cover (parts : list string) :
  Forall (fun p => ~ isBearerPart p) parts
  \/ exists pre lead tok trail post,
       parts = pre ++ String.append lead (String.append "Bearer." (String.append tok trail))
                      :: post
       /\ Forall (fun p => ~ isBearerPart p) pre
       /\ allSpace lead = true /\ allSpace trail = true /\ endsInSpace tok = false.
Proof.
  induction parts as [|p parts IH]; [left; constructor|].
  destruct (startsWith "Bearer." (trimStart p)) eqn:E.
  - right. destruct (trimStart_bearer p E) as (ws & rest & Hws & ->).
    destruct (trimEnd_tail rest) as (trail & Hall & Hrest & He).
    exists [], ws, (trimEnd rest), trail, parts. rewrite <- Hrest. auto.
  - assert (~ isBearerPart p) as Hp
      by (intros H; apply isBearerPart_trimStart in H; congruence).
    destruct IH as [IH|(pre & lead & tok & trail & post & -> & Hpre & Hl & Ht & He)].
    + left. constructor; assumption.
    + right. exists (p :: pre), lead, tok, trail, post. auto.
Qed.

Lemma find_first {A : Type} (f : A -> bool) (pre post : list A) (x : A) :
  Forall (fun y => f y = false) pre -> f x = true ->
  List.find f (pre ++ x :: post) = Some x.
Proof.
  induction 1 as [|y pre Hy _ IH]; intros Hx; simpl.
  - rewrite Hx. reflexivity.
  - rewrite Hy. apply IH. exact Hx.
Qed.

(** ** JavaScript operators *)

Lemma orElse_truthy (v d : json) : truthy (Some v) = true -> orElse (Some v) d = v.
Proof. unfold orElse. intros ->. reflexivity. Qed.

(** ** Frame classification *)

Lemma startsWith_cons (c : ascii) (t : string) :
  startsWith (String c EmptyString) (String c t) = true.
Proof.
  unfold startsWith. simpl.
  destruct (ascii_dec c c); [destruct t; reflexivity|congruence].
Qed.

Lemma startsWith_char (c : ascii) (s : string) :
  startsWith (String c EmptyString) s = true -> exists t, s = String c t.
Proof.
  unfold startsWith. destruct s as [|a t]; simpl; [discriminate|].
  destruct (ascii_dec c a) as [->|]; [eauto|discriminate].
Qed.

Lemma trimStart_nonspace (c : ascii) (t : string) :
  isSpace c = false -> trimStart (String c t) = String c t.
Proof. intros H. simpl. rewrite H. reflexivity. Qed.

(** A frame that opens with [{] or [[] has that byte as its first byte
    that is not white space: what the code takes for JSON, the spec does
    too. *)
Lemma looksLikeJson_perSpec (data : string) :
  (startsWith "{" data || startsWith "[" data)%bool = true ->
  looksLikeJsonPerSpec data = true.
Proof.
  unfold looksLikeJsonPerSpec. intros H.
  apply orb_true_iff in H as [H|H]; apply startsWith_char in H as [t ->];
    rewrite trimStart_nonspace by reflexivity;
    rewrite (startsWith_cons _ t); [reflexivity | apply orb_true_r].
Qed.

(** ** Worlds only move forward *)

Lemma sockLe_refl (a : Sock) : sockLe a a.
Proof. unfold sockLe. auto. Qed.

Lemma sockLe_trans (a b c : Sock) : sockLe a b -> sockLe b c -> sockLe a c.
Proof.
  unfold sockLe. intros (Hr1 & Hl1 & He1) (Hr2 & Hl2 & He2).
  split; [lia|]. split; [congruence|].
  destruct He1 as [He1|He1]; [|auto].
  destruct He2 as [He2|He2]; [left; congruence|].
  right. rewrite He2 in Hr1. simpl in Hr1.
  destruct (readyState a); simpl in Hr1; [reflexivity|lia..].
Qed.

Lemma socksLe_refl (ss : list Sock) : socksLe ss ss.
Proof. intros s sk H. exists sk. split; [exact H|apply sockLe_refl]. Qed.

Lemma socksLe_trans (a b c : list Sock) : socksLe a b -> socksLe b c -> socksLe a c.
Proof.
  intros Hab Hbc s sk H.
  destruct (Hab _ _ H) as (sk1 & H1 & Hle1).
  destruct (Hbc _ _ H1) as (sk2 & H2 & Hle2).
  exists sk2. split; [exact H2|]. eapply sockLe_trans; eauto.
Qed.

Lemma socksLe_insert (ss : list Sock) (s : nat) (sk' : Sock) :
  (forall sk, ss !! s = Some sk -> sockLe sk sk') ->
  socksLe ss (<[s := sk']> ss).
Proof.
  intros Hle s0 sk0 H0. destruct (decide (s = s0)) as [->|Hne].
  - exists sk'. split; [|auto].
    apply list_lookup_insert_eq. eapply lookup_lt_Some; eauto.
  - exists sk0. split; [|apply sockLe_refl].
    rewrite list_lookup_insert_ne by exact Hne. exact H0.
Qed.

Lemma socksLe_app (ss extra : list Sock) : socksLe ss (ss ++ extra).
Proof.
  intros s sk H. exists sk. split; [|apply sockLe_refl].
  apply lookup_app_l_Some. exact H.
Qed.

Lemma socksLe_length (ss ss' : list Sock) (s : nat) :
  socksLe ss ss' -> s < List.length ss -> s < List.length ss'.
Proof.
  intros Hle Hs. apply lookup_lt_is_Some in Hs as [sk Hsk].
  destruct (Hle _ _ Hsk) as (sk' & Hsk' & _). eapply lookup_lt_Some; eauto.
Qed.

Lemma evolves_refl (w : World) : evolves w w.
Proof.
  split; [|split; [apply socksLe_refl|intros s _ H; exact H]].
  exists []. rewrite app_nil_r. split; [reflexivity|constructor].
Qed.

Lemma evolves_trans (w1 w2 w3 : World) : evolves w1 w2 -> evolves w2 w3 -> evolves w1 w3.
Proof.
  intros ((n1 & Hl1 & Hs1) & Hk1 & Ht1) ((n2 & Hl2 & Hs2) & Hk2 & Ht2).
  split; [|split].
  - exists (n1 ++ n2). rewrite Hl2, Hl1, app_assoc. split; [reflexivity|].
    apply Forall_app. auto.
  - eapply socksLe_trans; eauto.
  - intros s Hs H. apply Ht1; [exact Hs|]. apply Ht2; [|exact H].
    eapply socksLe_length; eauto.
Qed.

(** A step that touches neither the log, nor the sockets, nor the timers. *)
Lemma evolves_same (w w' : World) :
  log w' = log w -> socks w' = socks w -> timers w' = timers w -> evolves w w'.
Proof.
  intros Hl Hs Ht. split; [|split].
  - exists []. rewrite app_nil_r. split; [exact Hl|constructor].
  - rewrite Hs. apply socksLe_refl.
  - intros s _. rewrite Ht. auto.
Qed.

Lemma evolves_emit (a : Action) (w : World) : sentAtOpen a -> evolves w (emit a w).
Proof.
  intros Ha. split; [|split; [apply socksLe_refl|intros s _ H; exact H]].
  exists [a]. split; [reflexivity|]. constructor; [exact Ha|constructor].
Qed.

Lemma evolves_setSocks (ss : list Sock) (w : World) :
  socksLe (socks w) ss -> evolves w (setSocks ss w).
Proof.
  intros H. split; [|split; [exact H|intros s _ H0; exact H0]].
  exists []. simpl. rewrite app_nil_r. split; [reflexivity|constructor].
Qed.

Lemma hasTimer_removeTimer (s s' : nat) (t : list (nat * Z)) :
  hasTimer s (removeTimer s' t) = (negb (Nat.eqb s s') && hasTimer s t)%bool.
Proof.
  unfold hasTimer, removeTimer. induction t as [|[a d] t IH]; simpl.
  - rewrite andb_false_r. reflexivity.
  - destruct (Nat.eqb_spec a s') as [->|Hne]; simpl.
    + rewrite IH. destruct (Nat.eqb_spec s' s) as [->|Hne'].
      * rewrite Nat.eqb_refl. reflexivity.
      * simpl. reflexivity.
    + rewrite IH. destruct (Nat.eqb_spec a s) as [->|Hne']; simpl.
      * destruct (Nat.eqb_spec s s'); [contradiction|reflexivity].
      * reflexivity.
Qed.

Lemma hasTimer_app (s : nat) (t u : list (nat * Z)) :
  hasTimer s (t ++ u) = (hasTimer s t || hasTimer s u)%bool.
Proof. unfold hasTimer. apply existsb_app. Qed.

Lemma evolves_removeTimer (s : nat) (w : World) :
  evolves w (setTimers (removeTimer s (timers w)) w).
Proof.
  split; [|split; [apply socksLe_refl|]].
  - exists []. simpl. rewrite app_nil_r. split; [reflexivity|constructor].
  - intros s0 _. simpl. rewrite hasTimer_removeTimer.
    intros H. apply andb_true_iff in H as [_ H]. exact H.
Qed.

Lemma evolves_setState (s : nat) (r : ReadyState) (w : World) :
  (forall sk, socks w !! s = Some sk -> rank (readyState sk) <= rank r) ->
  evolves w (setState s r w).
Proof.
  intros Hr. unfold setState. destruct (socks w !! s) as [sk|] eqn:Hs; [|apply evolves_refl].
  apply evolves_setSocks, socksLe_insert. intros sk0 H0.
  rewrite Hs in H0. injection H0 as <-. unfold sockLe. simpl. auto.
Qed.

Lemma evolves_markOpen (s : nat) (w : World) :
  (forall sk, socks w !! s = Some sk -> readyState sk = CONNECTING) ->
  evolves w (markOpen s w).
Proof.
  intros Hr. unfold markOpen. destruct (socks w !! s) as [sk|] eqn:Hs; [|apply evolves_refl].
  apply evolves_setSocks, socksLe_insert. intros sk0 H0.
  rewrite Hs in H0. injection H0 as <-. unfold sockLe. simpl.
  rewrite (Hr _ eq_refl). simpl. split; [lia|]. auto.
Qed.

Lemma evolves_setKind (s : nat) (k : SockKind) (w : World) :
  (forall sk, socks w !! s = Some sk -> legOf (kind sk) = legOf k) ->
  evolves w (setKind s k w).
Proof.
  intros Hk. unfold setKind. destruct (socks w !! s) as [sk|] eqn:Hs; [|apply evolves_refl].
  apply evolves_setSocks, socksLe_insert. intros sk0 H0.
  rewrite Hs in H0. injection H0 as <-. unfold sockLe. simpl. auto.
Qed.

Lemma evolves_ws_close (s : nat) (code : option Z) (w : World) :
  evolves w (ws_close s code w).
Proof.
  unfold ws_close, stateOf. destruct (socks w !! s) as [sk|] eqn:Hs; simpl; [|apply evolves_refl].
  eapply evolves_trans; [|apply evolves_emit; exact I].
  apply evolves_setState. intros sk0 H0. rewrite Hs in H0. injection H0 as <-.
  destruct (readyState sk); simpl; lia.
Qed.

Lemma evolves_ws_send (s : nat) (p : Payload) (w : World) :
  isOpen s w = true -> evolves w (ws_send s p w).
Proof.
  intros H. apply isOpen_lookup in H as (k & e & H).
  rewrite (ws_send_open _ _ _ _ _ H). apply evolves_emit. reflexivity.
Qed.

Lemma evolves_sendToClient (ws : option nat) (data : json) (w : World) :
  evolves w (sendToClient ws data w).
Proof.
  destruct ws as [s|]; simpl; [|apply evolves_refl].
  destruct (isOpen s w) eqn:H; [|apply evolves_refl].
  apply evolves_ws_send. exact H.
Qed.

Lemma evolves_sendError (ws : option nat) (message : string) (code : Z) (w : World) :
  evolves w (sendError ws message code w).
Proof. apply evolves_sendToClient. Qed.

Lemma evolves_setSonioxWs (r : nat) (v : option nat) (w : World) :
  evolves w (setSonioxWs r v w).
Proof.
  unfold setSonioxWs. destruct (heap w !! r); [|apply evolves_refl].
  apply evolves_same; reflexivity.
Qed.

Lemma evolves_setIsReady (r : nat) (b : bool) (w : World) :
  evolves w (setIsReady r b w).
Proof.
  unfold setIsReady. destruct (heap w !! r); [|apply evolves_refl].
  apply evolves_same; reflexivity.
Qed.

Lemma setSonioxWs_found (r : nat) (v : option nat) (w : World) (c : ConnInfo) :
  heap w !! r = Some c ->
  setSonioxWs r v w
  = setHeap (<[r := mkConn (clientWs c) v (connectionId c) (isReady c)]> (heap w)) w.
Proof. intros H. unfold setSonioxWs. rewrite H. reflexivity. Qed.

Lemma setIsReady_found (r : nat) (b : bool) (w : World) (c : ConnInfo) :
  heap w !! r = Some c ->
  setIsReady r b w
  = setHeap (<[r := mkConn (clientWs c) (sonioxWs c) (connectionId c) b]> (heap w)) w.
Proof. intros H. unfold setIsReady. rewrite H. reflexivity. Qed.

Lemma isOpen_same_socks (s : nat) (w w' : World) :
  socks w' = socks w -> isOpen s w' = isOpen s w.
Proof. intros H. unfold isOpen, stateOf. rewrite H. reflexivity. Qed.

Lemma socks_setSonioxWs (r : nat) (v : option nat) (w : World) :
  socks (setSonioxWs r v w) = socks w.
Proof. unfold setSonioxWs. destruct (heap w !! r); reflexivity. Qed.

Lemma socks_setIsReady (r : nat) (b : bool) (w : World) :
  socks (setIsReady r b w) = socks w.
Proof. unfold setIsReady. destruct (heap w !! r); reflexivity. Qed.

Lemma log_setIsReady (r : nat) (b : bool) (w : World) :
  log (setIsReady r b w) = log w.
Proof. unfold setIsReady. destruct (heap w !! r); reflexivity. Qed.

(** Chains the lemmas above along the calls of a handler. *)
Ltac evo :=
  repeat match goal with
  | |- evolves ?w ?w => apply evolves_refl
  | H : sonioxOpen _ ?w' = Some ?s |- evolves ?w (ws_send ?s _ ?w') =>
      apply (evolves_trans w w' _);
      [|apply evolves_ws_send; apply sonioxOpen_Some in H; tauto]
  | H : isOpen ?s ?w' = true |- evolves ?w (ws_send ?s _ ?w') =>
      apply (evolves_trans w w' _); [|apply evolves_ws_send; exact H]
  | |- evolves ?w (match ?x with _ => _ end) => destruct x eqn:?
  | |- evolves ?w (emit ?a ?w') =>
      apply (evolves_trans w w' _); [|apply evolves_emit; exact I]
  | |- evolves ?w (ws_close ?s ?c ?w') =>
      apply (evolves_trans w w' _); [|apply evolves_ws_close]
  | |- evolves ?w (sendToClient ?ws ?d ?w') =>
      apply (evolves_trans w w' _); [|apply evolves_sendToClient]
  | |- evolves ?w (sendError ?ws ?m ?c ?w') =>
      apply (evolves_trans w w' _); [|apply evolves_sendError]
  | |- evolves ?w (setSonioxWs ?r ?v ?w') =>
      apply (evolves_trans w w' _); [|apply evolves_setSonioxWs]
  | |- evolves ?w (setIsReady ?r ?b ?w') =>
      apply (evolves_trans w w' _); [|apply evolves_setIsReady]
  | |- evolves ?w (setHeap ?h ?w') =>
      apply (evolves_trans w w' _); [|apply evolves_same; reflexivity]
  | |- evolves ?w (setConnections ?h ?w') =>
      apply (evolves_trans w w' _); [|apply evolves_same; reflexivity]
  | |- evolves ?w (setCrashed ?w') =>
      apply (evolves_trans w w' _); [|apply evolves_same; reflexivity]
  | |- evolves ?w (setSocks (socks ?w' ++ _) ?w') =>
      apply (evolves_trans w w' _); [|apply evolves_setSocks, socksLe_app]
  end.

(** A new upstream socket and its timer. *)
Lemma evolves_newUpstream (k : SockKind) (a : Action) (w : World) :
  sentAtOpen a ->
  evolves w
    (setTimers (timers w ++ [(List.length (socks w), 10000%Z)])
       (emit a (setSocks (socks w ++ [mkSock k CONNECTING false]) w))).
Proof.
  intros Ha. split; [|split].
  - exists [a]. split; [reflexivity|]. constructor; [exact Ha|constructor].
  - apply socksLe_app.
  - intros s Hs. simpl. rewrite hasTimer_app. intros H.
    apply orb_true_iff in H as [H|H]; [exact H|].
    simpl in H. rewrite orb_false_r in H. apply Nat.eqb_eq in H. lia.
Qed.

Lemma evolves_connectWith (authorization : option string) (cid : string) (config : json)
    (w : World) :
  evolves w (connectWith authorization cid config w).
Proof.
  unfold connectWith, newSocket.
  destruct (getConn cid w) as [[r conn]|]; [|apply evolves_refl].
  set (w1 := match sonioxWs conn with
             | Some old => setSonioxWs r None (ws_close old None w)
             | None => w
             end).
  apply (evolves_trans w w1 _); [subst w1; evo|].
  exact (evolves_newUpstream (UpstreamSock r cid config)
           (AConnect (List.length (socks w1)) SONIOX_URL authorization) w1 I).
Qed.

Lemma evolves_onSonioxMessage (r : nat) (cid dataStr : string) (w : World) :
  evolves w (onSonioxMessage r cid dataStr w).
Proof. unfold onSonioxMessage. evo. Qed.

Lemma evolves_onSonioxClose (r : nat) (code : Z) (reason : option string) (w : World) :
  evolves w (onSonioxClose r code reason w).
Proof. unfold onSonioxClose. evo. Qed.

Lemma evolves_onSonioxError (r : nat) (message : string) (w : World) :
  evolves w (onSonioxError r message w).
Proof. unfold onSonioxError. evo. Qed.

Lemma evolves_onTimeout (s r : nat) (w : World) :
  evolves w (onTimeout s r w).
Proof. unfold onTimeout. evo. Qed.

Lemma evolves_cleanupConnection (cid : string) (w : World) :
  evolves w (cleanupConnection cid w).
Proof. unfold cleanupConnection. evo. Qed.

Lemma evolves_onSigterm (ids : list string) (w : World) :
  evolves w (onSigterm ids w).
Proof.
  unfold onSigterm.
  apply (evolves_trans _ (foldl (fun acc id => cleanupConnection id acc) w ids));
    [|apply evolves_same; reflexivity].
  revert w. induction ids as [|id ids IH]; intros w; simpl; [apply evolves_refl|].
  eapply evolves_trans; [apply evolves_cleanupConnection|apply IH].
Qed.

Lemma evolves_authenticate (cid : string) (token : option string) (auth : AuthOutcome)
    (w : World) :
  evolves w (authenticate cid token auth w).
Proof.
  unfold authenticate, newSocket.
  destruct (negb (truthyStr token)); [evo|].
  destruct auth; evo.
  eapply evolves_trans; [|apply evolves_setKind].
  - evo.
  - intros sk. unfold sendToClient. simpl.
    destruct (isOpen _ _); unfold ws_send; simpl; fresh_socket; intros [= <-]; reflexivity.
Qed.

(** ** The handlers never read the log *)

Lemma relog_core (w : World) : relog (log w) (core w) = w.
Proof. destruct w. unfold relog, core. simpl. rewrite app_nil_r. reflexivity. Qed.

Lemma relog_emit (l : list Action) (a : Action) (w : World) :
  emit a (relog l w) = relog l (emit a w).
Proof. unfold emit, relog. simpl. rewrite app_assoc. reflexivity. Qed.

Lemma relog_stateOf (l : list Action) (s : nat) (w : World) :
  stateOf s (relog l w) = stateOf s w.
Proof. reflexivity. Qed.

Lemma relog_isOpen (l : list Action) (s : nat) (w : World) :
  isOpen s (relog l w) = isOpen s w.
Proof. reflexivity. Qed.

Lemma relog_getConn (l : list Action) (cid : string) (w : World) :
  getConn cid (relog l w) = getConn cid w.
Proof. reflexivity. Qed.

Lemma relog_sonioxOpen (l : list Action) (c : ConnInfo) (w : World) :
  sonioxOpen c (relog l w) = sonioxOpen c w.
Proof. reflexivity. Qed.

Lemma relog_setState (l : list Action) (s : nat) (r : ReadyState) (w : World) :
  setState s r (relog l w) = relog l (setState s r w).
Proof. unfold setState. simpl. destruct (socks w !! s); reflexivity. Qed.

Lemma relog_markOpen (l : list Action) (s : nat) (w : World) :
  markOpen s (relog l w) = relog l (markOpen s w).
Proof. unfold markOpen. simpl. destruct (socks w !! s); reflexivity. Qed.

Lemma relog_setKind (l : list Action) (s : nat) (k : SockKind) (w : World) :
  setKind s k (relog l w) = relog l (setKind s k w).
Proof. unfold setKind. simpl. destruct (socks w !! s); reflexivity. Qed.

Lemma relog_setSonioxWs (l : list Action) (r : nat) (v : option nat) (w : World) :
  setSonioxWs r v (relog l w) = relog l (setSonioxWs r v w).
Proof. unfold setSonioxWs. simpl. destruct (heap w !! r); reflexivity. Qed.

Lemma relog_setIsReady (l : list Action) (r : nat) (b : bool) (w : World) :
  setIsReady r b (relog l w) = relog l (setIsReady r b w).
Proof. unfold setIsReady. simpl. destruct (heap w !! r); reflexivity. Qed.

Lemma relog_ws_close (l : list Action) (s : nat) (code : option Z) (w : World) :
  ws_close s code (relog l w) = relog l (ws_close s code w).
Proof.
  unfold ws_close. rewrite relog_stateOf. destruct (stateOf s w); [|reflexivity].
  rewrite relog_setState, relog_emit. reflexivity.
Qed.

Lemma relog_ws_send (l : list Action) (s : nat) (p : Payload) (w : World) :
  ws_send s p (relog l w) = relog l (ws_send s p w).
Proof.
  unfold ws_send. simpl. destruct (socks w !! s); [|reflexivity].
  apply relog_emit.
Qed.

Lemma relog_sendToClient (l : list Action) (ws : option nat) (data : json) (w : World) :
  sendToClient ws data (relog l w) = relog l (sendToClient ws data w).
Proof.
  destruct ws as [s|]; simpl; [|reflexivity].
  rewrite relog_isOpen. destruct (isOpen s w); [apply relog_ws_send|reflexivity].
Qed.

Lemma relog_sendError (l : list Action) (ws : option nat) (m : string) (c : Z) (w : World) :
  sendError ws m c (relog l w) = relog l (sendError ws m c w).
Proof. apply relog_sendToClient. Qed.

Lemma relog_setSocks (l : list Action) (ss : list Sock) (w : World) :
  setSocks ss (relog l w) = relog l (setSocks ss w).
Proof. reflexivity. Qed.

Lemma relog_setHeap (l : list Action) (h : list ConnInfo) (w : World) :
  setHeap h (relog l w) = relog l (setHeap h w).
Proof. reflexivity. Qed.

Lemma relog_setConnections (l : list Action) (m : gmap string nat) (w : World) :
  setConnections m (relog l w) = relog l (setConnections m w).
Proof. reflexivity. Qed.

Lemma relog_setTimers (l : list Action) (t : list (nat * Z)) (w : World) :
  setTimers t (relog l w) = relog l (setTimers t w).
Proof. reflexivity. Qed.

Lemma relog_setCrashed (l : list Action) (w : World) :
  setCrashed (relog l w) = relog l (setCrashed w).
Proof. reflexivity. Qed.

Create Rewrite HintDb relog.
#[local] Hint Rewrite relog_emit relog_stateOf relog_isOpen relog_getConn relog_sonioxOpen
  relog_setState relog_markOpen relog_setKind relog_setSonioxWs relog_setIsReady
  relog_ws_close relog_ws_send relog_sendToClient relog_sendError
  relog_setSocks relog_setHeap relog_setConnections relog_setTimers relog_setCrashed : relog.

(** Pushes [relog] outwards through the calls of a handler. *)
Ltac relog_out :=
  repeat (progress (autorewrite with relog; cbn [relog socks heap connections timers listening crashed]));
  repeat match goal with
         | |- context [match ?x with _ => _ end] =>
             destruct x eqn:?;
             repeat (progress (autorewrite with relog in *;
                               cbn [relog socks heap connections timers listening crashed] in * ))
         end;
  try reflexivity; try congruence.

Lemma relog_connectWith (l : list Action) (a : option string) (cid : string) (config : json)
    (w : World) :
  connectWith a cid config (relog l w) = relog l (connectWith a cid config w).
Proof. unfold connectWith, newSocket. relog_out. Qed.

Lemma relog_onSonioxMessage (l : list Action) (r : nat) (cid d : string) (w : World) :
  onSonioxMessage r cid d (relog l w) = relog l (onSonioxMessage r cid d w).
Proof. unfold onSonioxMessage. relog_out. Qed.

Lemma relog_onSonioxClose (l : list Action) (r : nat) (code : Z) (reason : option string)
    (w : World) :
  onSonioxClose r code reason (relog l w) = relog l (onSonioxClose r code reason w).
Proof. unfold onSonioxClose. relog_out. Qed.

Lemma relog_onSonioxError (l : list Action) (r : nat) (m : string) (w : World) :
  onSonioxError r m (relog l w) = relog l (onSonioxError r m w).
Proof. unfold onSonioxError. relog_out. Qed.

Lemma relog_onTimeout (l : list Action) (s r : nat) (w : World) :
  onTimeout s r (relog l w) = relog l (onTimeout s r w).
Proof. unfold onTimeout. relog_out. Qed.

Lemma relog_cleanupConnection (l : list Action) (cid : string) (w : World) :
  cleanupConnection cid (relog l w) = relog l (cleanupConnection cid w).
Proof. unfold cleanupConnection. relog_out. Qed.

Lemma relog_onSigterm (l : list Action) (ids : list string) (w : World) :
  onSigterm ids (relog l w) = relog l (onSigterm ids w).
Proof.
  unfold onSigterm.
  assert (foldl (fun acc id => cleanupConnection id acc) (relog l w) ids
          = relog l (foldl (fun acc id => cleanupConnection id acc) w ids)) as ->;
    [|reflexivity].
  revert w. induction ids as [|id ids IH]; intros w; simpl; [reflexivity|].
  rewrite relog_cleanupConnection. apply IH.
Qed.

Lemma relog_authenticate (l : list Action) (cid : string) (token : option string)
    (auth : AuthOutcome) (w : World) :
  authenticate cid token auth (relog l w) = relog l (authenticate cid token auth w).
Proof. unfold authenticate, newSocket. relog_out. Qed.

Section Properties.

Variable JSON_parse : string -> option json.
Variable SONIOX_API_KEY : string.

(** ** [handleClientMessage] *)


(** C8: a frame that reaches [JSON.parse] and fails to parse is
    discarded.  The handler returns with the world unchanged, so nothing
    was sent to the client or upstream, no record or socket changed and
    nothing was closed; the event leaves the relay as it found it. *)
Theorem malformed_frame_discarded
    (s : nat) (cid data : string) (isBinary e : bool) (now : Z) (w : World) :
  crashed w = false ->
  socks w !! s = Some (mkSock (ClientSock (Some cid)) OPEN e) ->
  (isBinary && negb (startsWith "{" data || startsWith "[" data))%bool = false ->
  JSON_parse data = None ->
  handleClientMessage JSON_parse cid data isBinary now w = Ok w
  /\ step JSON_parse SONIOX_API_KEY w (ClientMessage s data isBinary now) = Some w.
Proof.
  intros Hcr Hs Hjson Hparse.
  assert (handleClientMessage JSON_parse cid data isBinary now w = Ok w) as Hh.
  { unfold handleClientMessage. destruct (getConn cid w) as [[r conn]|]; [|reflexivity].
    rewrite Hjson, Hparse. reflexivity. }
  split; [exact Hh|].
  unfold step. rewrite Hcr, Hs, Hh. reflexivity.
Qed.

(** C9, as the code has it: a parsed frame whose [type] is [ping],
    handled while the client socket is open, is answered with exactly one
    [pong] frame.  Its [ref] is the caller's [ref] when that is truthy and
    [0] otherwise (absent, [null], [false], [0] or the empty string); its
    [timestamp] is the clock read while handling, hence not before the
    time of receipt.  Only the log changes, by that one frame: nothing is
    sent or closed upstream. *)
Theorem ping_answered_with_pong
    (cid data : string) (isBinary : bool) (now received : Z) (w : World)
    (r : nat) (conn : ConnInfo) (k : SockKind) (e : bool) (message : json) :
  getConn cid w = Some (r, conn) ->
  socks w !! clientWs conn = Some (mkSock k OPEN e) ->
  (isBinary && negb (startsWith "{" data || startsWith "[" data))%bool = false ->
  JSON_parse data = Some message ->
  field "type" message = Some (JStr "ping") ->
  (received <= now)%Z ->
  exists ref timestamp,
    handleClientMessage JSON_parse cid data isBinary now w =
      Ok (emit (ASend (clientWs conn) (legOf k) OPEN (PJson (pongFrame ref timestamp))) w)
    /\ ref = (if truthy (field "ref" message)
              then default (JNum 0) (field "ref" message)
              else JNum 0)
    /\ (field "ref" message = None -> ref = JNum 0)
    /\ timestamp = now
    /\ (received <= timestamp)%Z.
Proof.
  intros Hc Hs Hjson Hparse Hty Hle.
  exists (orElse (field "ref" message) (JNum 0)), now.
  split; [|split; [|split; [|split]]].
  - unfold handleClientMessage. rewrite Hc, Hjson, Hparse.
    destruct message; try discriminate Hty.
    unfold getProp. rewrite Hty. simpl isStr. cbv iota.
    rewrite (sendToClient_open _ _ _ _ _ Hs). reflexivity.
  - unfold orElse. destruct (field "ref" message) as [v|]; reflexivity.
  - intros ->. reflexivity.
  - reflexivity.
  - exact Hle.
Qed.

(** ** [cleanupConnection] *)


(** ** The upgrade handler *)

Lemma find_none {A : Type} (f : A -> bool) (l : list A) :
  Forall (fun y => f y = false) l -> List.find f l = None.
Proof. induction 1 as [|y l Hy _ IH]; simpl; [reflexivity|]. rewrite Hy. exact IH. Qed.

Lemma concat_comma_nonempty (parts : list string) (p : string) :
  In p parts -> p <> EmptyString -> Forall (fun q => noComma q = true) parts ->
  isEmpty (String.concat "," parts) = false.
Proof.
  intros Hin Hp Hparts. destruct (String.concat "," parts) eqn:E; [|reflexivity].
  exfalso. assert (parts <> []) as Hne by (intros ->; destruct Hin).
  pose proof (splitComma_concat parts Hne Hparts) as Hs. rewrite E in Hs. simpl in Hs.
  rewrite <- Hs in Hin. destruct Hin as [<-|[]]. apply Hp. reflexivity.
Qed.

Lemma not_bearer_trimmed (parts : list string) :
  Forall (fun p => ~ isBearerPart p) parts ->
  Forall (fun p => startsWith "Bearer." p = false) (map trim parts).
Proof.
  intros H. apply Forall_map. eapply Forall_impl; [exact H|].
  intros p Hp. simpl. destruct (startsWith "Bearer." (trim p)) eqn:E; [|reflexivity].
  destruct (Hp (trimmed_bearer p E)).
Qed.

(** A request with a non-empty query token. *)
Lemma extractToken_query (req : Request) (searchParams : list (string * string)) (t : string) :
  query req = Ok searchParams -> assoc "token" searchParams = Some t -> isEmpty t = false ->
  extractToken req = Ok (Some t).
Proof.
  intros Hq Ht Hne. unfold extractToken. rewrite Hq, Ht. simpl. rewrite Hne. reflexivity.
Qed.

(** A request without one, whose header has a first component that
    trims to [Bearer.] and more. *)
Lemma extractToken_header
    (req : Request) (searchParams : list (string * string))
    (pre post : list string) (comp tok : string) :
  query req = Ok searchParams ->
  truthyStr (assoc "token" searchParams) = false ->
  secWebSocketProtocol req = Some (String.concat "," (pre ++ comp :: post)) ->
  Forall (fun p => noComma p = true) (pre ++ comp :: post) ->
  Forall (fun p => ~ isBearerPart p) pre ->
  trim comp = String.append "Bearer." tok ->
  extractToken req = Ok (Some tok).
Proof.
  intros Hq Hno Hh Hparts Hpre Hcomp. unfold extractToken. rewrite Hq. cbv zeta.
  rewrite Hno, Hh. cbn [negb truthyStr default].
  assert (comp <> EmptyString) as Hne by (intros ->; discriminate Hcomp).
  rewrite (concat_comma_nonempty _ comp) by (auto; apply in_or_app; right; left; reflexivity).
  cbn [negb]. unfold id. rewrite splitComma_concat by (auto; destruct pre; discriminate).
  rewrite map_app, map_cons, Hcomp.
  rewrite (find_first _ _ _ _ (not_bearer_trimmed _ Hpre) (startsWith_append _ _)).
  rewrite replace_prefix. reflexivity.
Qed.

(** A request without one, whose header, if there is one, has no
    component that reads [Bearer.]. *)
Lemma extractToken_no_bearer
    (req : Request) (searchParams : list (string * string)) :
  query req = Ok searchParams ->
  truthyStr (assoc "token" searchParams) = false ->
  secWebSocketProtocol req = None
  \/ (exists parts, secWebSocketProtocol req = Some (String.concat "," parts)
        /\ Forall (fun p => noComma p = true) parts
        /\ Forall (fun p => ~ isBearerPart p) parts) ->
  extractToken req = Ok (assoc "token" searchParams).
Proof.
  intros Hq Hno Hh. unfold extractToken. rewrite Hq. cbv zeta. rewrite Hno. cbn [negb].
  destruct Hh as [->|(parts & -> & Hparts & Hnone)]; [reflexivity|].
  cbn [truthyStr default]. destruct (isEmpty (String.concat "," parts)) eqn:E; [reflexivity|].
  cbn [negb]. unfold id. rewrite splitComma_concat by (auto; intros ->; discriminate E).
  rewrite (find_none _ _ (not_bearer_trimmed _ Hnone)). reflexivity.
Qed.

(** What the handler does with a token that is not truthy. *)
Lemma falsy_token_refused
    (req : Request) (t : option string) (cid : string) (auth : AuthOutcome) (w : World) :
  extractToken req = Ok t -> truthyStr t = false ->
  crashed w = false -> listening w = true ->
  exists w',
    step JSON_parse SONIOX_API_KEY w (Upgrade cid req auth) = Some w'
    /\ log w' = log w ++ [ASend (List.length (socks w)) ClientLeg OPEN (PJson unauthorizedFrame);
                          AClose (List.length (socks w)) OPEN (Some 1008%Z)]
    /\ socks w' = socks w ++ [mkSock (ClientSock None) CLOSING true]
    /\ heap w' = heap w
    /\ connections w' = connections w
    /\ crashed w' = false.
Proof.
  intros Ht Hno Hcr Hli. unfold step. rewrite Hcr, Hli.
  unfold onConnection, authenticate. rewrite Ht. cbn [orCrash]. rewrite Hno. simpl.
  unfold ws_close, sendError, sendToClient, isOpen, stateOf, ws_send, setState. simpl.
  fresh_socket.
  eexists. split; [reflexivity|]. simpl.
  rewrite <- app_assoc. simpl.
  rewrite insert_app_r_alt, Nat.sub_diag by reflexivity. auto.
Qed.

Lemma bearer_core (tok : string) :
  endsInSpace tok = false -> endsInSpace (String.append "Bearer." tok) = false.
Proof.
  intros H. destruct tok as [|c tok]; [reflexivity|].
  rewrite endsInSpace_append by discriminate. exact H.
Qed.

(** The token of an upgrade request whose target parses.  A non-empty
    query parameter [token] is the token, whatever the header holds.
    Without one, the [sec-websocket-protocol] header is cut at its commas,
    and the first component that reads [Bearer.] after white space gives
    the token: what follows the prefix, up to the white space that ends
    the component.  The verifier is then called with that token.  When
    there is no header, or no component reads [Bearer.], or nothing but
    white space follows the first [Bearer.], the handler sends the
    [Unauthorized] error frame, closes the socket with code 1008 and
    stops: the verifier is not called and no record is created.  Every
    header is of one of these forms. *)
Theorem token_from_query_then_header
    (req : Request) (searchParams : list (string * string)) :
  query req = Ok searchParams ->
  (forall t, assoc "token" searchParams = Some t -> isEmpty t = false ->
     extractToken req = Ok (Some t))
  /\ (forall pre lead tok trail post,
        truthyStr (assoc "token" searchParams) = false ->
        let component :=
          String.append lead (String.append "Bearer." (String.append tok trail)) in
        secWebSocketProtocol req = Some (String.concat "," (pre ++ component :: post)) ->
        Forall (fun p => noComma p = true) (pre ++ component :: post) ->
        Forall (fun p => ~ isBearerPart p) pre ->
        allSpace lead = true -> allSpace trail = true -> endsInSpace tok = false ->
        extractToken req = Ok (Some tok))
  /\ (forall cid auth w tok,
        extractToken req = Ok (Some tok) -> isEmpty tok = false ->
        crashed w = false -> listening w = true ->
        exists w' rest,
          step JSON_parse SONIOX_API_KEY w (Upgrade cid req auth) = Some w'
          /\ log w' = log w ++ AVerify tok :: rest)
  /\ (forall cid auth w,
        truthyStr (assoc "token" searchParams) = false ->
        secWebSocketProtocol req = None
        \/ (exists parts,
              secWebSocketProtocol req = Some (String.concat "," parts)
              /\ Forall (fun p => noComma p = true) parts
              /\ Forall (fun p => ~ isBearerPart p) parts)
        \/ (exists pre lead trail post,
              secWebSocketProtocol req
              = Some (String.concat ","
                        (pre ++ String.append lead (String.append "Bearer." trail) :: post))
              /\ Forall (fun p => noComma p = true)
                   (pre ++ String.append lead (String.append "Bearer." trail) :: post)
              /\ Forall (fun p => ~ isBearerPart p) pre
              /\ allSpace lead = true /\ allSpace trail = true) ->
        crashed w = false -> listening w = true ->
        exists w',
          step JSON_parse SONIOX_API_KEY w (Upgrade cid req auth) = Some w'
          /\ log w' = log w ++ [ASend (List.length (socks w)) ClientLeg OPEN (PJson unauthorizedFrame);
                                AClose (List.length (socks w)) OPEN (Some 1008%Z)]
          /\ socks w' = socks w ++ [mkSock (ClientSock None) CLOSING true]
          /\ heap w' = heap w
          /\ connections w' = connections w)
  /\ (forall header : string,
        exists parts,
          header = String.concat "," parts
          /\ Forall (fun p => noComma p = true) parts
          /\ (Forall (fun p => ~ isBearerPart p) parts
              \/ exists pre lead tok trail post,
                   parts = pre ++ String.append lead
                                    (String.append "Bearer." (String.append tok trail))
                                  :: post
                   /\ Forall (fun p => ~ isBearerPart p) pre
                   /\ allSpace lead = true /\ allSpace trail = true
                   /\ endsInSpace tok = false)).
Proof.
  intros Hq. split; [|split; [|split; [|split]]].
  5:{ intros header. exists (splitComma header).
      destruct (splitComma_join header) as (Hj & Hn).
      split; [symmetry; exact Hj|]. split; [exact Hn|]. apply header_parts_cover. }
  - intros t. apply extractToken_query. exact Hq.
  - intros pre lead tok trail post Hno component Hh Hparts Hpre Hlead Htrail Htok.
    apply (extractToken_header req searchParams pre post component tok); auto.
    subst component. rewrite <- (append_assoc "Bearer." tok trail).
    apply (trim_core lead (String.append "Bearer." tok) trail "B"%char
             (String.append "earer." tok)); auto using bearer_core.
  - intros cid auth w tok Htok Hne Hcr Hli. unfold step. rewrite Hcr, Hli.
    unfold onConnection, authenticate. rewrite Htok. cbn [orCrash]. simpl truthyStr.
    rewrite Hne. simpl. destruct auth; simpl.
    + unfold setKind, sendToClient, isOpen, stateOf, ws_send. simpl.
      fresh_socket.
      eexists _, _. split; [reflexivity|]. simpl. rewrite <- app_assoc. reflexivity.
    + unfold ws_close, sendError, sendToClient, isOpen, stateOf, ws_send, setState. simpl.
      fresh_socket.
      eexists _, _. split; [reflexivity|]. simpl. rewrite <- !app_assoc. reflexivity.
    + unfold ws_close, sendError, sendToClient, isOpen, stateOf, ws_send, setState. simpl.
      fresh_socket.
      eexists _, _. split; [reflexivity|]. simpl. rewrite <- !app_assoc. reflexivity.
  - intros cid auth w Hno Hh Hcr Hli.
    assert (exists t, extractToken req = Ok t /\ truthyStr t = false) as (t & Ht & Hf).
    { destruct Hh as [Hh|[Hh|(pre & lead & trail & post & Hh & Hparts & Hpre & Hl & Htr)]].
      - exists (assoc "token" searchParams). split; [|exact Hno].
        apply (extractToken_no_bearer req searchParams Hq Hno). left. exact Hh.
      - exists (assoc "token" searchParams). split; [|exact Hno].
        apply (extractToken_no_bearer req searchParams Hq Hno). right. exact Hh.
      - exists (Some EmptyString). split; [|reflexivity].
        apply (extractToken_header req searchParams pre post
                 (String.append lead (String.append "Bearer." trail)) EmptyString); auto.
        apply (trim_core lead "Bearer." trail "B"%char "earer."); auto. }
    destruct (falsy_token_refused req t cid auth w Ht Hf Hcr Hli)
      as (w' & Hstep & Hl & Hs & Hheap & Hc & _).
    exists w'. auto.
Qed.

(** ** Every step moves the world forward *)

Lemma evolves_handleClientMessage
    (cid data : string) (isBinary : bool) (now : Z) (w w' : World) :
  handleClientMessage JSON_parse cid data isBinary now w = Ok w' -> evolves w w'.
Proof.
  unfold handleClientMessage, connectToSoniox. intros H.
  repeat match type of H with
         | context [match ?x with _ => _ end] => destruct x eqn:?; try discriminate H
         end;
    injection H as <-; evo; apply evolves_connectWith.
Qed.

(** The [open] handler raises, with any key, or sends the config. *)
Lemma onSonioxOpen_result (s r : nat) (config : json) (w : World) :
  (exists msg, forall key, onSonioxOpen key s r config w = Throw msg)
  \/ (forall key,
        onSonioxOpen key s r config w
        = Ok (ws_send s (PJson (sonioxConfig key config)) (setSonioxWs r (Some s) w))).
Proof.
  unfold onSonioxOpen. destruct config; eauto;
    destruct (translationLogThrows _); eauto.
Qed.

Lemma evolves_onSonioxOpen (s r : nat) (config : json) (w w' : World) :
  isOpen s w = true ->
  onSonioxOpen SONIOX_API_KEY s r config w = Ok w' -> evolves w w'.
Proof.
  intros Ho H.
  assert (isOpen s (setSonioxWs r (Some s) w) = true) as Ho'
    by (rewrite (isOpen_same_socks _ _ _ (socks_setSonioxWs _ _ _)); exact Ho).
  destruct (onSonioxOpen_result s r config w) as [(msg & Ht)|Hok];
    [rewrite Ht in H; discriminate H|].
  rewrite Hok in H. injection H as <-. evo.
Qed.

Lemma onConnection_Ok (cid : string) (req : Request) (auth : AuthOutcome) (w w' : World) :
  onConnection cid req auth w = Ok w' ->
  exists token, extractToken req = Ok token /\ w' = authenticate cid token auth w.
Proof.
  unfold onConnection. destruct (extractToken req) as [token|]; [|discriminate].
  intros [= <-]. eauto.
Qed.

Lemma evolves_orCrash (w : World) (res : Result World) :
  (forall w', res = Ok w' -> evolves w w') -> evolves w (orCrash w res).
Proof.
  intros H. destruct res as [w'|msg]; simpl; [auto|].
  apply evolves_same; reflexivity.
Qed.

Lemma markOpen_lookup (s : nat) (w : World) (sk : Sock) :
  socks w !! s = Some sk ->
  socks (markOpen s w) !! s = Some (mkSock (kind sk) OPEN true).
Proof.
  intros H. unfold markOpen. rewrite H. simpl.
  apply list_lookup_insert_eq. eapply lookup_lt_Some; eauto.
Qed.

Lemma markOpen_isOpen (s : nat) (w : World) (sk : Sock) :
  socks w !! s = Some sk -> isOpen s (markOpen s w) = true.
Proof.
  intros H. apply isOpen_lookup. eexists _, _. eapply markOpen_lookup; eauto.
Qed.

Lemma step_evolves (w w' : World) (e : Event) :
  step JSON_parse SONIOX_API_KEY w e = Some w' -> evolves w w'.
Proof.
  unfold step. intros H.
  destruct (crashed w); [discriminate|].
  destruct e as [cid req auth|s data isBinary now|s|s|s|s data|s code reason|s message|s|ids];
    [destruct (listening w); [|discriminate H];
     injection H as <-; apply evolves_orCrash; intros w1 Ho;
     apply onConnection_Ok in Ho as (token & _ & ->); apply evolves_authenticate
    | ..
    | destruct (isKeyOrder ids w); [|discriminate H];
      injection H as <-; apply evolves_onSigterm ];
    destruct (socks w !! s) as [[k r e]|] eqn:Hs; try discriminate H;
    destruct k as [[cid|]|r0 cid config]; try discriminate H;
    destruct r; try discriminate H;
    try (destruct e; try discriminate H);
    try (destruct (hasTimer s (timers w)) eqn:Ht; try discriminate H);
    injection H as <-;
    try (apply evolves_orCrash; intros w'; apply evolves_handleClientMessage);
    try (eapply evolves_trans; [|apply evolves_cleanupConnection]);
    try (eapply evolves_trans; [|apply evolves_onSonioxMessage]);
    try (eapply evolves_trans; [|apply evolves_onSonioxClose]);
    try (eapply evolves_trans; [|apply evolves_onSonioxError]);
    try (eapply evolves_trans; [|apply evolves_onTimeout]);
    try apply evolves_removeTimer;
    try apply evolves_refl;
    try (apply evolves_setState; intros sk Hsk; rewrite Hs in Hsk;
         injection Hsk as <-; simpl; lia).
  all: apply evolves_orCrash; intros w' Ho.
  all: apply (evolves_trans _ (markOpen s w)).
  all: try (apply evolves_markOpen; intros sk Hsk; rewrite Hs in Hsk;
            injection Hsk as <-; reflexivity).
  all: eapply evolves_onSonioxOpen; [|exact Ho]; eapply markOpen_isOpen; eauto.
Qed.

Lemma run_evolves (tr : list Event) (w w' : World) :
  run JSON_parse SONIOX_API_KEY w tr = Some w' -> evolves w w'.
Proof.
  revert w. induction tr as [|e tr IH]; intros w; simpl.
  - intros [= <-]. apply evolves_refl.
  - destruct (step JSON_parse SONIOX_API_KEY w e) as [w1|] eqn:Hstep; [|discriminate].
    intros H. eapply evolves_trans; [eapply step_evolves|apply IH]; eauto.
Qed.

(** C10: the frames the relay writes to a client ([auth_success], [pong],
    [proxy_ready], [error]) go through [sendToClient], directly or by
    [sendError].  When the socket is absent or not [OPEN] the call changes
    nothing: the frame is dropped and no [send] is made; the function is
    total, so nothing is raised.  When it is [OPEN] the frame is sent, once.
    Hence along every run, from any world, every [send] the relay makes
    found its socket [OPEN]; none was attempted on a closing or closed
    socket. *)
Theorem client_frames_only_to_open_socket :
  (forall ws data w,
      match ws with Some s => isOpen s w = false | None => True end ->
      sendToClient ws data w = w)
  /\ (forall ws message code w,
        match ws with Some s => isOpen s w = false | None => True end ->
        sendError ws message code w = w)
  /\ (forall s data w k e,
        socks w !! s = Some (mkSock k OPEN e) ->
        sendToClient (Some s) data w = emit (ASend s (legOf k) OPEN (PJson data)) w)
  /\ (forall tr w w',
        run JSON_parse SONIOX_API_KEY w tr = Some w' ->
        exists new, log w' = log w ++ new
          /\ forall s leg r p, In (ASend s leg r p) new -> r = OPEN).
Proof.
  split; [|split; [|split]].
  - intros ws data w H. apply sendToClient_not_open. exact H.
  - intros ws message code w H. apply sendToClient_not_open. exact H.
  - intros s data w k e H. eapply sendToClient_open. exact H.
  - intros tr w w' H. apply run_evolves in H as ((new & Hl & Hall) & _).
    exists new. split; [exact Hl|].
    intros s leg r p Hin. rewrite Forall_forall in Hall.
    apply (Hall (ASend s leg r p)). apply list_elem_of_In. exact Hin.
Qed.

(** ** The connection timer *)

Lemma dormant_step (s : nat) (w w' : World) (e : Event) :
  dormant s w ->
  step JSON_parse SONIOX_API_KEY w e = Some w' ->
  dormant s w' /\ wakes s e = false.
Proof.
  intros (Ht & sk & Hsk & Hest & Hlive) Hstep. split.
  - destruct (step_evolves _ _ _ Hstep) as (_ & Hsocks & Htimers).
    destruct (Hsocks _ _ Hsk) as (sk' & Hsk' & Hrank & _ & He).
    split.
    + destruct (hasTimer s (timers w')) eqn:Ht'; [|reflexivity].
      rewrite <- Ht. symmetry. apply Htimers; [|exact Ht'].
      eapply lookup_lt_Some; eauto.
    + exists sk'. split; [exact Hsk'|].
      destruct (readyState sk) eqn:Hr; try discriminate Hlive;
        (split; [destruct He as [He|He]; congruence|]);
        destruct (readyState sk'); simpl in Hrank; try reflexivity; lia.
  - unfold step in Hstep. destruct (crashed w); [discriminate|].
    destruct e as [| | | |s'|s' ?|? ? ?|? ?|s'|]; try reflexivity;
      simpl; destruct (Nat.eqb_spec s s') as [<-|Hne]; try reflexivity;
      rewrite Hsk in Hstep; destruct sk as [k r est]; simpl in Hest, Hlive; subst est;
      destruct k; try discriminate Hstep;
      destruct r; try discriminate Hstep; try discriminate Hlive;
      rewrite Ht in Hstep; discriminate Hstep.
Qed.

Lemma dormant_run (s : nat) (tr : list Event) (w w' : World) :
  dormant s w ->
  run JSON_parse SONIOX_API_KEY w tr = Some w' ->
  Forall (fun e => wakes s e = false) tr.
Proof.
  revert w. induction tr as [|e tr IH]; intros w Hd; simpl; [constructor|].
  destruct (step JSON_parse SONIOX_API_KEY w e) as [w1|] eqn:Hstep; [|discriminate].
  intros Hrun. destruct (dormant_step _ _ _ _ Hd Hstep) as [Hd1 He].
  constructor; [exact He|]. eapply IH; eauto.
Qed.

(** C3, as the code has it.  Every [start] on a registered connection
    creates a connecting upstream socket and sets a timer of 10000 ms for
    it.  The timer is not cancelled when the socket opens; its callback
    looks at the socket when it runs.  (1) If the socket is not open when
    the timer expires, [close] is called on it and exactly one frame is
    sent to the (open) client socket, the timeout error.  If moreover the
    socket has never opened (it is still connecting, or the attempt has
    failed already), then from there on it can neither open nor deliver a
    frame nor fire its timer again: no [proxy_ready] and no second timeout
    frame comes from that attempt.  (2) If the socket is open when the
    timer expires, the callback does nothing: only the timer is gone.
    (3) Opening leaves the timers as they were. *)
Theorem timeout_checks_state_at_expiry :
  (forall cid config w r conn,
      getConn cid w = Some (r, conn) ->
      timers (connectToSoniox cid config w)
        = timers w ++ [(List.length (socks w), 10000%Z)]
      /\ socks (connectToSoniox cid config w) !! List.length (socks w)
         = Some (mkSock (UpstreamSock r cid config) CONNECTING false))
  /\ (forall s r cid config conn rs opened k e w,
      crashed w = false ->
      socks w !! s = Some (mkSock (UpstreamSock r cid config) rs opened) ->
      rs <> OPEN ->
      hasTimer s (timers w) = true ->
      heap w !! r = Some conn ->
      socks w !! clientWs conn = Some (mkSock k OPEN e) ->
      exists w',
        step JSON_parse SONIOX_API_KEY w (TimerFired s) = Some w'
        /\ log w' = log w ++ [AClose s rs None;
                              ASend (clientWs conn) (legOf k) OPEN (PJson timeoutFrame)]
        /\ socks w' !! s = Some (mkSock (UpstreamSock r cid config) (afterClose rs) opened)
        /\ heap w' = heap w
        /\ (opened = false ->
            forall tr w'',
              run JSON_parse SONIOX_API_KEY w' tr = Some w'' ->
              Forall (fun ev => wakes s ev = false) tr))
  /\ (forall s r cid config e w,
        crashed w = false ->
        socks w !! s = Some (mkSock (UpstreamSock r cid config) OPEN e) ->
        hasTimer s (timers w) = true ->
        step JSON_parse SONIOX_API_KEY w (TimerFired s)
          = Some (setTimers (removeTimer s (timers w)) w))
  /\ (forall s w w',
        step JSON_parse SONIOX_API_KEY w (SonioxOpen s) = Some w' ->
        timers w' = timers w).
Proof.
  split; [|split; [|split]].
  - intros cid config w r conn Hc.
    unfold connectToSoniox, connectWith, newSocket. rewrite Hc.
    cbn [timers socks setTimers emit setSocks].
    destruct (sonioxWs conn) as [old|].
    + rewrite socks_setSonioxWs, ws_close_length.
      assert (timers (setSonioxWs r None (ws_close old None w)) = timers w) as ->.
      { unfold setSonioxWs. destruct (heap _ !! r); simpl;
          destruct (ws_close_frame old None w) as (_ & _ & -> & _); reflexivity. }
      split; [reflexivity|].
      apply list_lookup_middle. rewrite ws_close_length. reflexivity.
    + split; [reflexivity|]. apply list_lookup_middle. reflexivity.
  - intros s r cid config conn rs opened k e w Hcr Hs Hrs Ht Hheap Hc.
    assert (clientWs conn <> s) as Hne by (intros Heq; rewrite Heq in Hc; congruence).
    set (w0 := setTimers (removeTimer s (timers w)) w).
    assert (step JSON_parse SONIOX_API_KEY w (TimerFired s)
            = Some (sendToClient (Some (clientWs conn)) timeoutFrame (ws_close s None w0)))
      as Hstep.
    { unfold step. rewrite Hcr, Hs, Ht. unfold onTimeout. simpl heap. rewrite Hheap.
      unfold isOpen at 1, stateOf. simpl socks. rewrite Hs.
      destruct rs; try reflexivity. contradiction. }
    assert (socks (ws_close s None w0) !! clientWs conn = Some (mkSock k OPEN e)) as Hc'
      by (rewrite ws_close_lookup_ne by auto; exact Hc).
    assert (socks w0 !! s = Some (mkSock (UpstreamSock r cid config) rs opened))
      as Hs0 by exact Hs.
    eexists. split; [exact Hstep|].
    rewrite (sendToClient_open _ _ _ _ _ Hc').
    assert (socks (emit (ASend (clientWs conn) (legOf k) OPEN (PJson timeoutFrame))
                     (ws_close s None w0)) !! s
            = Some (mkSock (UpstreamSock r cid config) (afterClose rs) opened)) as Hs'
      by (simpl; rewrite (ws_close_lookup_eq _ _ _ _ Hs0); reflexivity).
    split; [|split; [exact Hs'|split]].
    + simpl. rewrite (ws_close_present _ _ _ _ Hs0). simpl.
      rewrite <- app_assoc. reflexivity.
    + simpl. destruct (ws_close_frame s None w0) as (-> & _). reflexivity.
    + intros -> tr w''. apply dormant_run. split.
      * simpl. destruct (ws_close_frame s None w0) as (_ & _ & -> & _).
        simpl. rewrite hasTimer_removeTimer, Nat.eqb_refl. reflexivity.
      * eexists. split; [exact Hs'|]. split; [reflexivity|].
        destruct rs; reflexivity.
  - intros s r cid config e w Hcr Hs Ht.
    unfold step. rewrite Hcr, Hs, Ht. unfold onTimeout. simpl heap.
    unfold isOpen, stateOf. simpl socks. rewrite Hs. simpl.
    destruct (heap w !! r); reflexivity.
  - intros s w w' H. unfold step in H. destruct (crashed w); [discriminate|].
    destruct (socks w !! s) as [[[|r cid config] [] e]|]; try discriminate H.
    injection H as <-.
    assert (timers (markOpen s w) = timers w) as Hm
      by (unfold markOpen; destruct (socks w !! s); reflexivity).
    destruct (onSonioxOpen_result s r config (markOpen s w)) as [(msg & Ht)|Hok];
      [rewrite Ht; reflexivity|rewrite Hok].
    simpl. unfold ws_send; destruct (socks _ !! s); simpl;
      unfold setSonioxWs; destruct (heap _ !! r); simpl; exact Hm.
Qed.

(** ** The provider key *)

Lemma relog_handleClientMessage
    (l : list Action) (cid data : string) (isBinary : bool) (now : Z) (w : World) :
  handleClientMessage JSON_parse cid data isBinary now (relog l w) =
    match handleClientMessage JSON_parse cid data isBinary now w with
    | Ok w' => Ok (relog l w')
    | Throw e => Throw e
    end.
Proof.
  unfold handleClientMessage, connectToSoniox. rewrite relog_getConn.
  repeat match goal with
         | |- context [match ?x with _ => _ end] =>
             destruct x eqn:?; autorewrite with relog in *
         end;
    try reflexivity; try congruence.
  rewrite relog_connectWith. reflexivity.
Qed.

Lemma relog_onSonioxOpen (key : string) (l : list Action) (s r : nat) (config : json)
    (w : World) :
  onSonioxOpen key s r config (relog l w) =
    match onSonioxOpen key s r config w with
    | Ok w' => Ok (relog l w')
    | Throw e => Throw e
    end.
Proof.
  unfold onSonioxOpen. destruct config; autorewrite with relog; try reflexivity;
    destruct (translationLogThrows _); reflexivity.
Qed.

Lemma step_relog (key : string) (l : list Action) (w : World) (e : Event) :
  step JSON_parse key (relog l w) e = relog l <$> step JSON_parse key w e.
Proof.
  unfold step. cbn [relog socks heap connections timers listening crashed].
  destruct (crashed w); [reflexivity|].
  destruct e as [cid req auth|s data isBinary now|s|s|s|s data|s code reason|s message|s|ids].
  - unfold onConnection. destruct (listening w); [|reflexivity].
    destruct (extractToken req); simpl; [rewrite relog_authenticate|]; reflexivity.
  - destruct (socks w !! s) as [[[[cid|]|] [] ?]|]; try reflexivity;
      rewrite relog_handleClientMessage;
      destruct (handleClientMessage JSON_parse cid data isBinary now w); reflexivity.
  - destruct (socks w !! s) as [[[[cid|]|] [] ?]|]; try reflexivity;
      simpl; autorewrite with relog; try rewrite relog_cleanupConnection; reflexivity.
  - destruct (socks w !! s) as [[[[cid|]|] [] ?]|]; try reflexivity;
      simpl; autorewrite with relog; try rewrite relog_cleanupConnection; reflexivity.
  - destruct (socks w !! s) as [[[|r cid config] [] ?]|]; try reflexivity.
    simpl. autorewrite with relog. rewrite relog_onSonioxOpen.
    destruct (onSonioxOpen key s r config (markOpen s w)); reflexivity.
  - destruct (socks w !! s) as [[[|r cid config] [] []]|]; try reflexivity;
      simpl; rewrite relog_onSonioxMessage; reflexivity.
  - destruct (socks w !! s) as [[[|r cid config] [] ?]|]; try reflexivity;
      simpl; autorewrite with relog; rewrite relog_onSonioxClose; reflexivity.
  - destruct (socks w !! s) as [[[|r cid config] [] ?]|]; try reflexivity;
      simpl; autorewrite with relog; rewrite relog_onSonioxError; reflexivity.
  - destruct (socks w !! s) as [[[|r cid config] ? ?]|]; try reflexivity.
    destruct (hasTimer s (timers w)); [|reflexivity].
    simpl. autorewrite with relog. rewrite relog_onTimeout. reflexivity.
  - change (isKeyOrder ids (relog l w)) with (isKeyOrder ids w).
    destruct (isKeyOrder ids w); [|reflexivity].
    simpl. rewrite relog_onSigterm. reflexivity.
Qed.

Lemma clientFrames_app (l1 l2 : list Action) :
  clientFrames (l1 ++ l2) = clientFrames l1 ++ clientFrames l2.
Proof. unfold clientFrames. apply List.filter_app. Qed.

(** One event, the same world, two keys: the outcomes differ at most in a
    frame sent upstream. *)
Lemma step_other_key (otherKey : string) (w w1 : World) (e : Event) :
  step JSON_parse SONIOX_API_KEY w e = Some w1 ->
  exists w2, step JSON_parse otherKey w e = Some w2 /\ sameForClients w1 w2.
Proof.
  unfold step. destruct (crashed w); [discriminate|].
  destruct e as [cid req auth|s data isBinary now|s|s|s|s data|s code reason|s message|s|ids];
    try (intros H; exists w1; split; [exact H|split; reflexivity]).
  destruct (socks w !! s) as [[[|r cid config] [] est]|] eqn:Hs; try discriminate.
  intros [= <-]. eexists. split; [reflexivity|].
  assert (forall p, ws_send s p (setSonioxWs r (Some s) (markOpen s w))
                    = emit (ASend s UpstreamLeg OPEN p) (setSonioxWs r (Some s) (markOpen s w)))
    as Hsend.
  { intros p. eapply (ws_send_open _ _ _ (UpstreamSock r cid config)).
    rewrite socks_setSonioxWs. apply (markOpen_lookup _ _ _ Hs). }
  destruct (onSonioxOpen_result s r config (markOpen s w)) as [(msg & Ht)|Hok];
    [rewrite !Ht; split; reflexivity|].
  rewrite !Hok. simpl orCrash. rewrite !Hsend.
  split; [reflexivity|]. simpl. rewrite !clientFrames_app. reflexivity.
Qed.

Lemma run_other_key (otherKey : string) (tr : list Event) (w1 w2 w1' : World) :
  sameForClients w1 w2 ->
  run JSON_parse SONIOX_API_KEY w1 tr = Some w1' ->
  exists w2', run JSON_parse otherKey w2 tr = Some w2' /\ sameForClients w1' w2'.
Proof.
  revert w1 w2. induction tr as [|e tr IH]; intros w1 w2 Hsame; simpl.
  - intros [= <-]. eauto.
  - destruct (step JSON_parse SONIOX_API_KEY w1 e) as [v1|] eqn:Hstep; [|discriminate].
    intros Hrun. destruct Hsame as [Hcore Hframes].
    rewrite <- (relog_core w1), step_relog in Hstep.
    destruct (step JSON_parse SONIOX_API_KEY (core w1) e) as [c1|] eqn:Hc1; [|discriminate].
    injection Hstep as <-.
    destruct (step_other_key otherKey _ _ _ Hc1) as (c2 & Hc2 & Hcc & Hcf).
    rewrite <- (relog_core w2), step_relog, <- Hcore, Hc2. simpl.
    refine (IH _ _ _ Hrun). split; [exact Hcc|].
    simpl. rewrite !clientFrames_app. congruence.
Qed.


End Properties.

(** * Further properties of the relay *)

Section Further.

Variable JSON_parse : string -> option json.
Variable SONIOX_API_KEY : string.

(** In the two older copies of the file the upgrade handler reads the
    token from the query string only: when the request target parses and
    has no non-empty [token] parameter, the request is refused with the
    [Unauthorized] frame and code 1008, whatever the
    [sec-websocket-protocol] header holds, and the verifier is not
    called.  When the target does not parse, [new URL] raises before the
    token is looked at and nothing is sent. *)
Theorem older_copies_ignore_protocol_header
    (cid : string) (req : Request) (auth : AuthOutcome) (w : World) :
  (forall searchParams,
     query req = Ok searchParams ->
     truthyStr (assoc "token" searchParams) = false ->
     exists w',
       HeaderAuth.onConnection cid req auth w = Ok w'
       /\ log w' = log w ++ [ASend (List.length (socks w)) ClientLeg OPEN
                               (PJson unauthorizedFrame);
                             AClose (List.length (socks w)) OPEN (Some 1008%Z)]
       /\ connections w' = connections w)
  /\ (forall e, query req = Throw e -> HeaderAuth.onConnection cid req auth w = Throw e).
Proof.
  split.
  - intros searchParams Hq Hno.
    unfold HeaderAuth.onConnection, HeaderAuth.extractToken, authenticate.
    rewrite Hq, Hno. simpl.
    unfold ws_close, sendError, sendToClient, isOpen, stateOf, ws_send, setState. simpl.
    fresh_socket. eexists. split; [reflexivity|]. simpl. rewrite <- app_assoc. auto.
  - intros e Hq. unfold HeaderAuth.onConnection, HeaderAuth.extractToken. rewrite Hq.
    reflexivity.
Qed.

(** In the oldest copy readiness is signalled when the upstream socket
    opens: the [open] handler attaches the socket, sends the client config
    without its [action] field, sets [isReady] and sends [proxy_ready],
    before any frame has come from the provider. *)
Theorem oldest_copy_ready_on_open
    (s r : nat) (cid : string) (config : json) (conn : ConnInfo) (w : World)
    (ks kc : SockKind) (es ec : bool) :
  heap w !! r = Some conn ->
  socks w !! s = Some (mkSock ks OPEN es) ->
  socks w !! clientWs conn = Some (mkSock kc OPEN ec) ->
  let w' := ReadyOnOpen.onSonioxOpen s r cid config w in
  heap w' !! r = Some (mkConn (clientWs conn) (Some s) (connectionId conn) true)
  /\ log w' = log w ++ [ASend s (legOf ks) OPEN (PJson (JObj (deleteAction (spread config))));
                        ASend (clientWs conn) (legOf kc) OPEN (PJson (proxyReadyFrame cid))].
Proof.
  intros Hr Hs Hc w'. subst w'.
  unfold ReadyOnOpen.onSonioxOpen, HeaderAuth.onSonioxOpen.
  assert (r < List.length (heap w)) as Hlt by (eapply lookup_lt_Some; eauto).
  rewrite (setSonioxWs_found _ _ _ _ Hr).
  rewrite (ws_send_open s _ _ ks es) by exact Hs.
  set (c1 := mkConn (clientWs conn) (Some s) (connectionId conn) (isReady conn)).
  set (w1 := emit _ _).
  assert (heap w1 !! r = Some c1) as Hr1 by (apply list_lookup_insert_eq; exact Hlt).
  rewrite Hr1, (setIsReady_found _ _ _ _ Hr1).
  rewrite (sendToClient_open _ _ _ kc ec) by exact Hc.
  split.
  - cbn [heap emit setHeap]. apply list_lookup_insert_eq.
    subst w1. cbn [heap emit setHeap]. rewrite length_insert. exact Hlt.
  - subst w1. cbn [log emit setHeap]. rewrite <- app_assoc. reflexivity.
Qed.

(** A [start] that finds an upstream socket attached to the record calls
    [close] on that socket and detaches it before it creates the new
    socket; the new socket is connecting, has a 10000 ms timer, and the
    record refers to no socket until one opens. *)
Theorem start_closes_attached_session
    (cid : string) (config : json) (w : World) (r : nat) (conn : ConnInfo)
    (old : nat) (sk : Sock) :
  getConn cid w = Some (r, conn) ->
  sonioxWs conn = Some old ->
  socks w !! old = Some sk ->
  let w' := connectToSoniox cid config w in
  log w' = log w ++ [AClose old (readyState sk) None;
                     AConnect (List.length (socks w)) SONIOX_URL None]
  /\ socks w' !! old = Some (mkSock (kind sk) (afterClose (readyState sk)) (established sk))
  /\ socks w' !! List.length (socks w)
     = Some (mkSock (UpstreamSock r cid config) CONNECTING false)
  /\ heap w' !! r = Some (mkConn (clientWs conn) None (connectionId conn) (isReady conn))
  /\ timers w' = timers w ++ [(List.length (socks w), 10000%Z)].
Proof.
  intros Hc Hold Hsk w'. subst w'.
  assert (heap w !! r = Some conn) as Hr.
  { unfold getConn in Hc. destruct (connections w !! cid) as [r'|]; [|discriminate].
    destruct (heap w !! r') eqn:E; [|discriminate]. injection Hc as <- <-. exact E. }
  assert (old < List.length (socks w)) as Hlt by (eapply lookup_lt_Some; eauto).
  unfold connectToSoniox, connectWith. rewrite Hc, Hold. unfold newSocket.
  rewrite (ws_close_present _ _ _ _ Hsk). unfold setSonioxWs. simpl heap. rewrite Hr.
  simpl. rewrite length_insert.
  split; [rewrite <- app_assoc; reflexivity|].
  split; [rewrite lookup_app_l by (rewrite length_insert; exact Hlt);
          apply list_lookup_insert_eq; exact Hlt|].
  split; [apply list_lookup_middle; rewrite length_insert; reflexivity|].
  split; [apply list_lookup_insert_eq; eapply lookup_lt_Some; eauto|reflexivity].
Qed.

(** A frame that parses to [null] makes the handler raise: reading
    [message.type] is a [TypeError], and nothing catches it. *)
Theorem null_frame_raises
    (s : nat) (cid data : string) (isBinary e : bool) (now : Z) (w : World)
    (r : nat) (conn : ConnInfo) :
  crashed w = false ->
  socks w !! s = Some (mkSock (ClientSock (Some cid)) OPEN e) ->
  getConn cid w = Some (r, conn) ->
  (isBinary && negb (startsWith "{" data || startsWith "[" data))%bool = false ->
  JSON_parse data = Some JNull ->
  (exists msg, handleClientMessage JSON_parse cid data isBinary now w = Throw msg)
  /\ step JSON_parse SONIOX_API_KEY w (ClientMessage s data isBinary now)
     = Some (setCrashed w).
Proof.
  intros Hcr Hs Hc Hjson Hparse.
  assert (handleClientMessage JSON_parse cid data isBinary now w
          = Throw "TypeError: Cannot read properties of null") as Hh.
  { unfold handleClientMessage. rewrite Hc, Hjson, Hparse. reflexivity. }
  split; [eauto|]. unfold step. rewrite Hcr, Hs, Hh. reflexivity.
Qed.

(** No upstream session before a [start]: a record is created with no
    upstream socket and [isReady] false, and a client frame creates a
    socket only when it parses to a value whose [action] is [start]. *)
Theorem no_upstream_before_start :
  (forall cid req token id w,
      extractToken req = Ok token -> truthyStr token = true ->
      exists w',
        onConnection cid req (AuthUser id) w = Ok w'
        /\ heap w' = heap w ++ [mkConn (List.length (socks w)) None cid false])
  /\ (forall cid data isBinary now w w',
        handleClientMessage JSON_parse cid data isBinary now w = Ok w' ->
        socks w' = socks w
        \/ exists message, JSON_parse data = Some message
             /\ field "action" message = Some (JStr "start")).
Proof.
  split.
  - intros cid req token id w Hreq Htok. unfold onConnection, authenticate.
    rewrite Hreq, Htok. eexists. split; [reflexivity|]. simpl.
    unfold setKind, sendToClient, isOpen, stateOf, ws_send. simpl. fresh_socket. reflexivity.
  - intros cid data isBinary now w w'. unfold handleClientMessage.
    destruct (getConn cid w) as [[r conn]|]; [|intros [= <-]; auto].
    assert (forall p s, socks (ws_send s p w) = socks w) as Hsend
      by (intros p s; unfold ws_send; destruct (socks w !! s); reflexivity).
    destruct (isBinary && negb (startsWith "{" data || startsWith "[" data))%bool.
    { destruct (sonioxOpen conn w); intros [= <-]; auto. }
    destruct (JSON_parse data) as [message|]; [|intros [= <-]; auto].
    destruct (getProp "type" message) as [type|]; [|discriminate].
    destruct (isStr "ping" type).
    { intros [= <-]. left. unfold sendToClient. destruct (isOpen _ _); auto. }
    destruct (isStr "start" (field "action" message)) eqn:Hstart.
    { intros _. right. exists message. split; [reflexivity|].
      unfold isStr in Hstart. destruct (field "action" message) as [[]|]; try discriminate.
      apply String.eqb_eq in Hstart. subst. reflexivity. }
    destruct (isStr "finalize" type); destruct (sonioxOpen conn w); intros [= <-]; auto.
Qed.

(** Readiness within one session: the first provider frame after the
    flag was clear sets it and sends [proxy_ready] once, followed by the
    text of the frame, [data.toString()]; of a frame that finds the flag
    set the text is passed on alone; the [close] and [error] handlers
    clear the flag and detach the socket. *)
Theorem readiness_within_a_session
    (r : nat) (cid data : string) (conn : ConnInfo) (w : World) (k : SockKind) (e : bool) :
  heap w !! r = Some conn ->
  socks w !! clientWs conn = Some (mkSock k OPEN e) ->
  (isReady conn = false ->
     log (onSonioxMessage r cid data w)
       = log w ++ [ASend (clientWs conn) (legOf k) OPEN (PJson (proxyReadyFrame cid));
                   ASend (clientWs conn) (legOf k) OPEN (PText data)]
     /\ heap (onSonioxMessage r cid data w) !! r
        = Some (mkConn (clientWs conn) (sonioxWs conn) (connectionId conn) true))
  /\ (isReady conn = true ->
        onSonioxMessage r cid data w
          = emit (ASend (clientWs conn) (legOf k) OPEN (PText data)) w)
  /\ (forall code reason,
        heap (onSonioxClose r code reason w) !! r
          = Some (mkConn (clientWs conn) None (connectionId conn) false))
  /\ (forall message,
        heap (onSonioxError r message w) !! r
          = Some (mkConn (clientWs conn) None (connectionId conn) false)).
Proof.
  intros Hr Hc.
  assert (r < List.length (heap w)) as Hlt by (eapply lookup_lt_Some; eauto).
  assert (isOpen (clientWs conn) w = true) as Ho by (apply isOpen_lookup; eauto).
  assert (heap (setIsReady r false (setSonioxWs r None w)) !! r
          = Some (mkConn (clientWs conn) None (connectionId conn) false)) as Hreset.
  { unfold setSonioxWs. rewrite Hr. unfold setIsReady. simpl heap.
    rewrite list_lookup_insert_eq by exact Hlt. simpl.
    rewrite list_insert_insert_eq. apply list_lookup_insert_eq. exact Hlt. }
  assert (socks (setIsReady r false (setSonioxWs r None w)) = socks w) as Hsocks
    by (rewrite socks_setIsReady, socks_setSonioxWs; reflexivity).
  assert (forall data0, heap (sendToClient (Some (clientWs conn)) data0
                                (setIsReady r false (setSonioxWs r None w))) !! r
                        = Some (mkConn (clientWs conn) None (connectionId conn) false)) as Hsent.
  { intros data0. rewrite (sendToClient_open _ _ _ k e) by (rewrite Hsocks; exact Hc).
    exact Hreset. }
  split; [|split; [|split]].
  - intros Hnot. unfold onSonioxMessage. rewrite Hr, Hnot. simpl negb. cbv iota.
    assert (socks (setIsReady r true w) !! clientWs conn = Some (mkSock k OPEN e)) as Hc'
      by (rewrite socks_setIsReady; exact Hc).
    rewrite (sendToClient_open _ _ _ _ _ Hc').
    unfold isOpen, stateOf. simpl socks. rewrite Hc'. simpl.
    unfold ws_send. simpl socks. rewrite Hc'. simpl.
    split; [rewrite log_setIsReady, <- app_assoc; reflexivity|].
    unfold setIsReady. rewrite Hr. simpl. apply list_lookup_insert_eq. exact Hlt.
  - intros Hset. unfold onSonioxMessage. rewrite Hr, Hset. simpl negb. cbv iota.
    rewrite Ho. eapply ws_send_open. exact Hc.
  - intros code reason. unfold onSonioxClose. rewrite Hr.
    rewrite (isOpen_same_socks _ _ _ Hsocks), Ho. apply Hsent.
  - intros message. unfold onSonioxError. rewrite Hr.
    rewrite (isOpen_same_socks _ _ _ Hsocks), Ho. apply Hsent.
Qed.

(** [connectToSoniox] does not touch [isReady]: after a [start] the flag
    is what it was before, set or not. *)
Theorem start_leaves_isReady
    (cid : string) (config : json) (w : World) (r : nat) (conn : ConnInfo) :
  getConn cid w = Some (r, conn) ->
  isReady <$> heap (connectToSoniox cid config w) !! r = Some (isReady conn).
Proof.
  intros Hc.
  assert (heap w !! r = Some conn) as Hr.
  { unfold getConn in Hc. destruct (connections w !! cid) as [r'|]; [|discriminate].
    destruct (heap w !! r') eqn:E; [|discriminate]. injection Hc as <- <-. exact E. }
  unfold connectToSoniox, connectWith. rewrite Hc. unfold newSocket.
  cbn [heap setTimers emit setSocks].
  destruct (sonioxWs conn) as [old|]; [|rewrite Hr; reflexivity].
  assert (heap (ws_close old None w) !! r = Some conn) as Hr'
    by (destruct (ws_close_frame old None w) as (-> & _); exact Hr).
  rewrite (setSonioxWs_found _ _ _ _ Hr'). cbn [heap setHeap].
  rewrite list_lookup_insert_eq by (eapply lookup_lt_Some; eauto). reflexivity.
Qed.

End Further.

(** * The worlds of the relay, its connections, the HTTP endpoints *)

(** ** Well-formed worlds *)

Lemma wellFormed_same (w w' : World) :
  socks w' = socks w -> heap w' = heap w -> connections w' = connections w ->
  wellFormed w -> wellFormed w'.
Proof.
  intros Hs Hh Hc (Hr & Hu & Hg). unfold wellFormed, recordsOk, upstreamOk, registryOk.
  rewrite Hs, Hh, Hc. auto.
Qed.

(** A socket changes in place: it keeps its handlers, and a completed
    handshake stays completed. *)
Lemma wellFormed_insert (s : nat) (sk sk' : Sock) (w : World) :
  wellFormed w ->
  socks w !! s = Some sk ->
  kind sk' = kind sk ->
  (established sk = true -> established sk' = true) ->
  wellFormed (setSocks (<[s := sk']> (socks w)) w).
Proof.
  intros (Hr & Hu & Hg) Hs Hk He.
  assert (s < List.length (socks w)) as Hlt by (eapply lookup_lt_Some; eauto).
  split; [|split; [|exact Hg]].
  - intros r c Hrc. cbn [heap setSocks] in Hrc. cbn [socks setSocks].
    destruct (Hr r c Hrc) as ((rs & e & Hcl) & Hup). split.
    + destruct (decide (clientWs c = s)) as [Heq|Hne].
      * rewrite Heq in *. rewrite list_lookup_insert_eq by exact Hlt.
        rewrite Hs in Hcl. injection Hcl as ->. destruct sk' as [k' rs' e'].
        simpl in Hk. subst k'. eauto.
      * rewrite list_lookup_insert_ne by auto. eauto.
    + intros s0 Hs0. destruct (Hup s0 Hs0) as (config & rs0 & Hl).
      destruct (decide (s0 = s)) as [->|Hne].
      * rewrite list_lookup_insert_eq by exact Hlt.
        rewrite Hs in Hl. injection Hl as ->. destruct sk' as [k' rs' e'].
        simpl in Hk, He. subst k'. rewrite He by reflexivity. eauto.
      * rewrite list_lookup_insert_ne by auto. eauto.
  - intros s0 sk0 r cid config Hl Hk0. cbn [socks setSocks heap] in *.
    destruct (decide (s0 = s)) as [->|Hne].
    + rewrite list_lookup_insert_eq in Hl by exact Hlt. injection Hl as <-.
      eapply Hu; [exact Hs|]. rewrite <- Hk. exact Hk0.
    + rewrite list_lookup_insert_ne in Hl by auto. eapply Hu; eauto.
Qed.

Lemma wellFormed_setState (s : nat) (rs : ReadyState) (w : World) :
  wellFormed w -> wellFormed (setState s rs w).
Proof.
  intros Hwf. unfold setState. destruct (socks w !! s) as [sk|] eqn:Hs; [|exact Hwf].
  eapply wellFormed_insert; eauto.
Qed.

Lemma wellFormed_markOpen (s : nat) (w : World) :
  wellFormed w -> wellFormed (markOpen s w).
Proof.
  intros Hwf. unfold markOpen. destruct (socks w !! s) as [sk|] eqn:Hs; [|exact Hwf].
  eapply wellFormed_insert; eauto.
Qed.

Lemma wellFormed_ws_close (s : nat) (code : option Z) (w : World) :
  wellFormed w -> wellFormed (ws_close s code w).
Proof.
  intros Hwf. unfold ws_close, stateOf.
  destruct (socks w !! s) as [sk|] eqn:Hs; simpl; [|exact Hwf].
  eapply wellFormed_same; [| | |apply (wellFormed_setState s (afterClose (readyState sk)))];
    try reflexivity. exact Hwf.
Qed.

Lemma wellFormed_heap_insert (r : nat) (c c' : ConnInfo) (w : World) :
  wellFormed w ->
  heap w !! r = Some c ->
  clientWs c' = clientWs c -> connectionId c' = connectionId c ->
  (forall s, sonioxWs c' = Some s ->
     exists config rs,
       socks w !! s = Some (mkSock (UpstreamSock r (connectionId c) config) rs true)) ->
  wellFormed (setHeap (<[r := c']> (heap w)) w).
Proof.
  intros (Hr & Hu & Hg) Hrc Hcl Hid Hup.
  assert (r < List.length (heap w)) as Hlt by (eapply lookup_lt_Some; eauto).
  split; [|split].
  - intros r0 c0 H0. cbn [heap socks setHeap] in *.
    destruct (decide (r0 = r)) as [->|Hne].
    + rewrite list_lookup_insert_eq in H0 by exact Hlt. injection H0 as <-.
      rewrite Hcl, Hid. split; [apply (Hr r c Hrc)|exact Hup].
    + rewrite list_lookup_insert_ne in H0 by auto. apply Hr. exact H0.
  - intros s sk r0 cid config Hl Hk. cbn [heap socks setHeap] in *.
    specialize (Hu s sk r0 cid config Hl Hk).
    destruct (decide (r0 = r)) as [->|Hne].
    + rewrite list_lookup_insert_eq by exact Hlt. rewrite Hrc in Hu. simpl in *.
      rewrite Hid. exact Hu.
    + rewrite list_lookup_insert_ne by auto. exact Hu.
  - intros cid r0 Hreg. cbn [connections heap setHeap] in *.
    destruct (Hg cid r0 Hreg) as (c0 & Hrc0 & Hid0).
    destruct (decide (r0 = r)) as [->|Hne].
    + rewrite Hrc in Hrc0. injection Hrc0 as <-.
      exists c'. rewrite list_lookup_insert_eq by exact Hlt.
      split; [reflexivity|congruence].
    + exists c0. rewrite list_lookup_insert_ne by auto. auto.
Qed.

Lemma wellFormed_setSonioxWs_None (r : nat) (w : World) :
  wellFormed w -> wellFormed (setSonioxWs r None w).
Proof.
  intros Hwf. unfold setSonioxWs. destruct (heap w !! r) as [c|] eqn:Hrc; [|exact Hwf].
  eapply wellFormed_heap_insert; eauto. discriminate.
Qed.

Lemma wellFormed_setIsReady (r : nat) (b : bool) (w : World) :
  wellFormed w -> wellFormed (setIsReady r b w).
Proof.
  intros Hwf. unfold setIsReady. destruct (heap w !! r) as [c|] eqn:Hrc; [|exact Hwf].
  eapply wellFormed_heap_insert; eauto.
  simpl. destruct Hwf as (Hr & _). apply (Hr r c Hrc).
Qed.

Lemma wellFormed_setSonioxWs_Some
    (r s : nat) (cid : string) (config : json) (rs : ReadyState) (w : World) :
  wellFormed w ->
  socks w !! s = Some (mkSock (UpstreamSock r cid config) rs true) ->
  wellFormed (setSonioxWs r (Some s) w).
Proof.
  intros Hwf Hs. unfold setSonioxWs. destruct (heap w !! r) as [c|] eqn:Hrc; [|exact Hwf].
  eapply wellFormed_heap_insert; eauto.
  simpl. intros s0 [= <-].
  destruct Hwf as (_ & Hu & _). specialize (Hu s _ r cid config Hs eq_refl).
  rewrite Hrc in Hu. injection Hu as <-. eauto.
Qed.

Lemma wellFormed_sendToClient (ws : option nat) (data : json) (w : World) :
  wellFormed w -> wellFormed (sendToClient ws data w).
Proof.
  apply wellFormed_same; unfold sendToClient, ws_send;
    destruct ws as [s|]; try reflexivity;
    destruct (isOpen s w); try reflexivity; destruct (socks w !! s); reflexivity.
Qed.

Lemma wellFormed_ws_send (s : nat) (p : Payload) (w : World) :
  wellFormed w -> wellFormed (ws_send s p w).
Proof.
  apply wellFormed_same; unfold ws_send; destruct (socks w !! s); reflexivity.
Qed.

(** A fresh socket: a client socket without handlers, or an upstream
    socket for a record that exists. *)
Lemma wellFormed_newSocket (sk : Sock) (w : World) :
  wellFormed w ->
  (forall r cid config, kind sk = UpstreamSock r cid config ->
     connectionId <$> heap w !! r = Some cid) ->
  wellFormed (setSocks (socks w ++ [sk]) w).
Proof.
  intros (Hr & Hu & Hg) Hnew. split; [|split; [|exact Hg]].
  - intros r c Hrc. cbn [heap socks setSocks] in *.
    destruct (Hr r c Hrc) as ((rs & e & Hcl) & Hup). split.
    + exists rs, e. rewrite lookup_app_l by (eapply lookup_lt_Some; eauto). exact Hcl.
    + intros s Hs. destruct (Hup s Hs) as (config & rs0 & Hl).
      exists config, rs0. rewrite lookup_app_l by (eapply lookup_lt_Some; eauto). exact Hl.
  - intros s sk0 r cid config Hl Hk. cbn [heap socks setSocks] in *.
    destruct (decide (s < List.length (socks w))) as [Hlt|Hge].
    + rewrite lookup_app_l in Hl by exact Hlt. eapply Hu; eauto.
    + rewrite lookup_app_r in Hl by lia.
      destruct (s - List.length (socks w)) as [|n]; simpl in Hl; [|discriminate].
      injection Hl as <-. eapply Hnew; eauto.
Qed.

Lemma wellFormed_delete (cid : string) (w : World) :
  wellFormed w -> wellFormed (setConnections (delete cid (connections w)) w).
Proof.
  intros (Hr & Hu & Hg). split; [exact Hr|split; [exact Hu|]].
  intros cid' r Hreg. cbn [connections setConnections] in Hreg.
  apply lookup_delete_Some in Hreg as (Hne & Hreg). apply (Hg cid' r Hreg).
Qed.

Lemma getConn_Some (cid : string) (w : World) (r : nat) (c : ConnInfo) :
  getConn cid w = Some (r, c) <-> connections w !! cid = Some r /\ heap w !! r = Some c.
Proof.
  unfold getConn. split.
  - destruct (connections w !! cid) as [r'|]; [|discriminate].
    destruct (heap w !! r') as [c'|] eqn:E; [|discriminate].
    intros [= <- <-]. auto.
  - intros [-> ->]. reflexivity.
Qed.

Lemma getConn_None (cid : string) (w : World) :
  wellFormed w -> getConn cid w = None -> connections w !! cid = None.
Proof.
  intros (_ & _ & Hg). unfold getConn.
  destruct (connections w !! cid) as [r|] eqn:Hreg; [|reflexivity].
  destruct (Hg cid r Hreg) as (c & -> & _). discriminate.
Qed.

Lemma getConn_id (cid : string) (w : World) (r : nat) (c : ConnInfo) :
  wellFormed w -> getConn cid w = Some (r, c) -> connectionId c = cid.
Proof.
  intros (_ & _ & Hg) H. apply getConn_Some in H as (Hreg & Hrc).
  destruct (Hg cid r Hreg) as (c' & Hrc' & Hid). congruence.
Qed.

Lemma wellFormed_cleanupConnection (cid : string) (w : World) :
  wellFormed w -> wellFormed (cleanupConnection cid w).
Proof.
  intros Hwf. unfold cleanupConnection.
  destruct (getConn cid w) as [[r conn]|] eqn:Hc; [|exact Hwf].
  apply wellFormed_delete.
  assert (wellFormed (match sonioxWs conn with Some s => ws_close s None w | None => w end))
    as Hwf1 by (destruct (sonioxWs conn); [apply wellFormed_ws_close|]; exact Hwf).
  destruct (stateOf _ _) as [[]|]; try apply wellFormed_ws_close; exact Hwf1.
Qed.

Lemma wellFormed_connectWith
    (authorization : option string) (cid : string) (config : json) (w : World) :
  wellFormed w -> wellFormed (connectWith authorization cid config w).
Proof.
  intros Hwf. unfold connectWith.
  destruct (getConn cid w) as [[r conn]|] eqn:Hc; [|exact Hwf].
  pose proof (getConn_id _ _ _ _ Hwf Hc) as Hid.
  apply getConn_Some in Hc as (Hreg & Hrc).
  set (w1 := match sonioxWs conn with
             | Some old => setSonioxWs r None (ws_close old None w)
             | None => w
             end).
  assert (wellFormed w1 /\ connectionId <$> heap w1 !! r = Some cid) as (Hwf1 & Hid1).
  { subst w1. destruct (sonioxWs conn) as [old|] eqn:Hold.
    - assert (heap (ws_close old None w) !! r = Some conn) as Hrc'
        by (destruct (ws_close_frame old None w) as (-> & _); exact Hrc).
      split.
      + apply wellFormed_setSonioxWs_None, wellFormed_ws_close. exact Hwf.
      + rewrite (setSonioxWs_found _ _ _ _ Hrc'). cbn [heap setHeap].
        rewrite list_lookup_insert_eq by (eapply lookup_lt_Some; eauto).
        simpl. congruence.
    - split; [exact Hwf|]. rewrite Hrc. simpl. congruence. }
  clearbody w1. unfold newSocket.
  eapply wellFormed_same; [| | |apply (wellFormed_newSocket
      (mkSock (UpstreamSock r cid config) CONNECTING false) w1 Hwf1)]; try reflexivity.
  simpl. intros r0 cid0 config0 [= <- <- <-]. exact Hid1.
Qed.

(** What the upgrade handler leaves, by the verifier's answer. *)
Lemma authenticateWhen_user
    (found : ReadyState) (cid : string) (token : option string) (id : string) (w : World) :
  truthyStr token = true ->
  socks (authenticateWhen found cid token (AuthUser id) w)
    = socks w ++ [mkSock (ClientSock (Some cid)) found true]
  /\ heap (authenticateWhen found cid token (AuthUser id) w)
     = heap w ++ [mkConn (List.length (socks w)) None cid false]
  /\ connections (authenticateWhen found cid token (AuthUser id) w)
     = <[cid := List.length (heap w)]> (connections w)
  /\ timers (authenticateWhen found cid token (AuthUser id) w) = timers w
  /\ log (authenticateWhen found cid token (AuthUser id) w)
     = log w ++ AVerify (default EmptyString token)
          :: match found with
             | OPEN => [ASend (List.length (socks w)) ClientLeg OPEN
                          (PJson (JObj [("type", JStr "auth_success");
                                        ("message",
                                         JStr "Authenticated, ready for start message");
                                        ("connectionId", JStr cid)]))]
             | _ => []
             end.
Proof.
  intros Htok. unfold authenticateWhen. rewrite Htok. simpl.
  unfold setKind, sendToClient, isOpen, stateOf, ws_send, setState. simpl. fresh_socket.
  rewrite insert_app_r_alt, Nat.sub_diag by reflexivity. simpl. fresh_socket.
  destruct found; simpl; fresh_socket;
    rewrite ?insert_app_r_alt, ?Nat.sub_diag by (rewrite ?length_app; simpl; lia);
    rewrite <- ?app_assoc; simpl; auto.
Qed.

Lemma authenticateWhen_refused
    (found : ReadyState) (cid : string) (token : option string) (auth : AuthOutcome)
    (w : World) :
  truthyStr token = false \/ (forall id, auth <> AuthUser id) ->
  exists rs new,
    socks (authenticateWhen found cid token auth w)
    = socks w ++ [mkSock (ClientSock None) rs true]
    /\ heap (authenticateWhen found cid token auth w) = heap w
    /\ connections (authenticateWhen found cid token auth w) = connections w
    /\ timers (authenticateWhen found cid token auth w) = timers w
    /\ log (authenticateWhen found cid token auth w) = log w ++ new
    /\ forall a s, In a new -> socketOf a = Some s -> s = List.length (socks w).
Proof.
  intros Hno. unfold authenticateWhen.
  assert (forall a s (l : list Action),
            Forall (fun a => socketOf a = None \/ socketOf a = Some (List.length (socks w))) l ->
            In a l -> socketOf a = Some s -> s = List.length (socks w)) as Hall.
  { intros a s l Hl Hin Hs. rewrite Forall_forall in Hl.
    destruct (Hl a (proj2 (list_elem_of_In _ _) Hin)) as [H|H]; congruence. }
  destruct (truthyStr token); simpl.
  - destruct auth as [id| |m]; [destruct Hno as [?|Hno]; [discriminate|destruct (Hno id eq_refl)]| |];
      unfold ws_close, sendError, sendToClient, isOpen, stateOf, ws_send, setState; simpl;
      fresh_socket; rewrite insert_app_r_alt, Nat.sub_diag by reflexivity; simpl; fresh_socket;
      destruct found; simpl; fresh_socket;
      rewrite ?insert_app_r_alt, ?Nat.sub_diag by (rewrite ?length_app; simpl; lia);
      rewrite <- ?app_assoc; simpl;
      (eexists _, _; repeat (split; [reflexivity|]);
       intros a s; apply Hall;
       repeat (constructor; [first [left; reflexivity|right; reflexivity]|]);
       constructor).
  - unfold ws_close, sendError, sendToClient, isOpen, stateOf, ws_send, setState; simpl;
      fresh_socket; rewrite insert_app_r_alt, Nat.sub_diag by reflexivity;
      rewrite <- ?app_assoc; simpl;
      (eexists _, _; repeat (split; [reflexivity|]);
       intros a s; apply Hall;
       repeat (constructor; [first [left; reflexivity|right; reflexivity]|]);
       constructor).
Qed.

Lemma authenticate_authenticateWhen
    (cid : string) (token : option string) (auth : AuthOutcome) (w : World) :
  authenticate cid token auth w = authenticateWhen OPEN cid token auth w.
Proof.
  unfold authenticate, authenticateWhen, newSocket.
  destruct (negb (truthyStr token)); [reflexivity|].
  assert (setState (List.length (socks w)) OPEN
            (emit (AVerify (default EmptyString token))
               (setSocks (socks w ++ [mkSock (ClientSock None) OPEN true]) w))
          = emit (AVerify (default EmptyString token))
              (setSocks (socks w ++ [mkSock (ClientSock None) OPEN true]) w)) as ->.
  { unfold setState. simpl. fresh_socket.
    rewrite insert_app_r_alt, Nat.sub_diag by reflexivity. reflexivity. }
  reflexivity.
Qed.

Lemma wellFormed_authenticateWhen
    (found : ReadyState) (cid : string) (token : option string) (auth : AuthOutcome)
    (w : World) :
  wellFormed w -> wellFormed (authenticateWhen found cid token auth w).
Proof.
  intros Hwf.
  assert (truthyStr token = true /\ (exists id, auth = AuthUser id)
          \/ (truthyStr token = false \/ forall id, auth <> AuthUser id)) as [(Htok & id & ->)|Hno].
  { destruct (truthyStr token); [|auto]. destruct auth as [id| |m]; [left; eauto| |];
      right; right; discriminate. }
  - destruct (authenticateWhen_user found cid token id w Htok) as (Hs & Hh & Hc & _).
    destruct Hwf as (Hr & Hu & Hg). split; [|split].
    + intros r c Hrc. rewrite Hh in Hrc. rewrite Hs.
      destruct (decide (r < List.length (heap w))) as [Hlt|Hge].
      * rewrite lookup_app_l in Hrc by exact Hlt.
        destruct (Hr r c Hrc) as ((rs & e & Hcl) & Hup). split.
        -- exists rs, e. rewrite lookup_app_l by (eapply lookup_lt_Some; eauto). exact Hcl.
        -- intros s0 Hs0. destruct (Hup s0 Hs0) as (cf & rs0 & Hl). exists cf, rs0.
           rewrite lookup_app_l by (eapply lookup_lt_Some; eauto). exact Hl.
      * rewrite lookup_app_r in Hrc by lia.
        destruct (r - List.length (heap w)) as [|n]; simpl in Hrc; [|discriminate].
        injection Hrc as <-. simpl. split; [|discriminate].
        exists found, true. apply list_lookup_middle. reflexivity.
    + intros s sk r cid0 config Hl Hk. rewrite Hs in Hl. rewrite Hh.
      destruct (decide (s < List.length (socks w))) as [Hlt|Hge].
      * rewrite lookup_app_l in Hl by exact Hlt.
        pose proof (Hu s sk r cid0 config Hl Hk) as Hid.
        destruct (heap w !! r) as [c|] eqn:Hrc; [|discriminate].
        rewrite lookup_app_l by (eapply lookup_lt_Some; eauto). rewrite Hrc. exact Hid.
      * rewrite lookup_app_r in Hl by lia.
        destruct (s - List.length (socks w)) as [|n]; simpl in Hl; [|discriminate].
        injection Hl as <-. discriminate.
    + intros cid0 r Hreg. rewrite Hc in Hreg. rewrite Hh.
      destruct (decide (cid0 = cid)) as [->|Hne].
      * rewrite lookup_insert_eq in Hreg. injection Hreg as <-.
        eexists. split; [apply list_lookup_middle; reflexivity|reflexivity].
      * rewrite lookup_insert_ne in Hreg by auto.
        destruct (Hg cid0 r Hreg) as (c & Hrc & Hid). exists c.
        split; [rewrite lookup_app_l by (eapply lookup_lt_Some; eauto); exact Hrc|exact Hid].
  - destruct (authenticateWhen_refused found cid token auth w Hno)
      as (rs & new & Hs & Hh & Hc & _).
    eapply wellFormed_same;
      [| | |apply (wellFormed_newSocket (mkSock (ClientSock None) rs true) w Hwf)];
      auto; discriminate.
Qed.

Lemma wellFormed_onSigterm (ids : list string) (w : World) :
  wellFormed w -> wellFormed (onSigterm ids w).
Proof.
  intros Hwf. unfold onSigterm.
  eapply wellFormed_same with (w := foldl (fun acc id => cleanupConnection id acc) w ids);
    try reflexivity.
  revert w Hwf. induction ids as [|id ids IH]; intros w Hwf; simpl; [exact Hwf|].
  apply IH. apply wellFormed_cleanupConnection. exact Hwf.
Qed.

Lemma wellFormed_upstream_lost (r : nat) (ws : nat) (data : json) (w : World) :
  wellFormed w ->
  wellFormed (let w1 := setIsReady r false (setSonioxWs r None w) in
              if isOpen ws w1 then sendToClient (Some ws) data w1 else w1).
Proof.
  intros Hwf. cbv zeta.
  destruct (isOpen _ _); [apply wellFormed_sendToClient|];
    apply wellFormed_setIsReady, wellFormed_setSonioxWs_None; exact Hwf.
Qed.

Section WellFormed.

Variable JSON_parse : string -> option json.
Variable SONIOX_API_KEY : string.

Lemma wellFormed_handleClientMessage
    (cid data : string) (isBinary : bool) (now : Z) (w w' : World) :
  wellFormed w ->
  handleClientMessage JSON_parse cid data isBinary now w = Ok w' ->
  wellFormed w'.
Proof.
  intros Hwf. unfold handleClientMessage.
  destruct (getConn cid w) as [[r conn]|]; [|intros [= <-]; exact Hwf].
  destruct (isBinary && negb (startsWith "{" data || startsWith "[" data))%bool.
  { destruct (sonioxOpen conn w); intros [= <-]; [apply wellFormed_ws_send|]; exact Hwf. }
  destruct (JSON_parse data) as [message|]; [|intros [= <-]; exact Hwf].
  destruct (getProp "type" message) as [type|]; [|discriminate].
  destruct (isStr "ping" type).
  { intros [= <-]. apply (wellFormed_sendToClient (Some (clientWs conn))). exact Hwf. }
  destruct (isStr "start" (field "action" message)).
  { intros [= <-]. apply wellFormed_connectWith. exact Hwf. }
  destruct (isStr "finalize" type); destruct (sonioxOpen conn w); intros [= <-];
    try apply wellFormed_ws_send; exact Hwf.
Qed.

Lemma wellFormed_setCrashed (w : World) : wellFormed w -> wellFormed (setCrashed w).
Proof. apply wellFormed_same; reflexivity. Qed.

Lemma wellFormed_step (w w' : World) (e : Event) :
  wellFormed w -> step JSON_parse SONIOX_API_KEY w e = Some w' -> wellFormed w'.
Proof.
  intros Hwf. unfold step. destruct (crashed w); [discriminate|].
  destruct e as [cid req auth|s data isBinary now|s|s|s|s data|s code reason|s message|s|ids].
  - destruct (listening w); [|discriminate]. intros [= <-].
    unfold onConnection. destruct (extractToken req) as [token|]; simpl;
      [|apply wellFormed_setCrashed; exact Hwf].
    rewrite authenticate_authenticateWhen. apply wellFormed_authenticateWhen. exact Hwf.
  - destruct (socks w !! s) as [[[[cid|]|r cid config] [] e]|] eqn:Hs;
      try discriminate; intros [= <-]; try exact Hwf;
      (destruct (handleClientMessage JSON_parse cid data isBinary now w) as [w1|] eqn:Hh;
       simpl; [eapply wellFormed_handleClientMessage; eauto
              |apply wellFormed_setCrashed; exact Hwf]).
  - destruct (socks w !! s) as [[[[cid|]|r cid config] [] e]|] eqn:Hs;
      try discriminate; intros [= <-];
      try (apply wellFormed_cleanupConnection); apply wellFormed_setState; exact Hwf.
  - destruct (socks w !! s) as [[[[cid|]|r cid config] [] e]|] eqn:Hs;
      try discriminate; intros [= <-];
      try (apply wellFormed_cleanupConnection); apply wellFormed_setState; exact Hwf.
  - destruct (socks w !! s) as [[[[cid|]|r cid config] [] e]|] eqn:Hs;
      try discriminate; intros [= <-].
    assert (wellFormed (setSonioxWs r (Some s) (markOpen s w))) as Hwf2.
    { eapply wellFormed_setSonioxWs_Some; [apply wellFormed_markOpen; exact Hwf|].
      unfold markOpen. rewrite Hs. cbn [socks setSocks].
      apply list_lookup_insert_eq. eapply lookup_lt_Some; eauto. }
    destruct (onSonioxOpen_result s r config (markOpen s w)) as [(msg & Ht)|Hok];
      [rewrite Ht; apply wellFormed_setCrashed; exact Hwf|].
    rewrite Hok. simpl. apply wellFormed_ws_send. exact Hwf2.
  - assert (forall r cid, wellFormed (onSonioxMessage r cid data w)) as Hm.
    { intros r cid. unfold onSonioxMessage. destruct (heap w !! r) as [conn|]; [|exact Hwf].
      set (w1 := if negb (isReady conn) then _ else w).
      assert (wellFormed w1) as Hwf1.
      { subst w1. destruct (negb (isReady conn)); [|exact Hwf].
        apply wellFormed_sendToClient, wellFormed_setIsReady. exact Hwf. }
      destruct (isOpen (clientWs conn) w1); [apply wellFormed_ws_send|]; exact Hwf1. }
    destruct (socks w !! s) as [[[[cid|]|r cid config] [] []]|] eqn:Hs;
      try discriminate; intros [= <-]; apply Hm.
  - destruct (socks w !! s) as [[[[cid|]|r cid config] [] e]|] eqn:Hs;
      try discriminate; intros [= <-]; unfold onSonioxClose;
      (destruct (heap _ !! r) as [conn|]; [|apply wellFormed_setState; exact Hwf]);
      apply wellFormed_upstream_lost, wellFormed_setState; exact Hwf.
  - destruct (socks w !! s) as [[[[cid|]|r cid config] [] e]|] eqn:Hs;
      try discriminate; intros [= <-]; unfold onSonioxError;
      (destruct (heap _ !! r) as [conn|]; [|apply wellFormed_setState; exact Hwf]);
      apply wellFormed_upstream_lost, wellFormed_setState; exact Hwf.
  - destruct (socks w !! s) as [[[h|r cid config] rs e]|] eqn:Hs; try discriminate.
    destruct (hasTimer s (timers w)); [|discriminate]. intros [= <-].
    set (w0 := setTimers _ w).
    assert (wellFormed w0) as Hwf0 by (eapply wellFormed_same; [| | |exact Hwf]; reflexivity).
    unfold onTimeout. destruct (heap w0 !! r) as [conn|]; [|exact Hwf0].
    destruct (negb (isOpen s w0)); [|exact Hwf0].
    apply wellFormed_sendToClient, wellFormed_ws_close. exact Hwf0.
  - destruct (isKeyOrder ids w); [|discriminate]. intros [= <-].
    apply wellFormed_onSigterm. exact Hwf.
Qed.

Lemma wellFormed_run (tr : list Event) (w w' : World) :
  wellFormed w -> run JSON_parse SONIOX_API_KEY w tr = Some w' -> wellFormed w'.
Proof.
  revert w. induction tr as [|e tr IH]; intros w Hwf; simpl; [intros [= <-]; exact Hwf|].
  destruct (step JSON_parse SONIOX_API_KEY w e) as [w1|] eqn:Hstep; [|discriminate].
  apply IH. eapply wellFormed_step; eauto.
Qed.

Lemma wellFormed_initial : wellFormed initial.
Proof.
  split; [|split].
  - intros r c H. discriminate.
  - intros s sk r cid config H. discriminate.
  - intros cid r H. simpl in H. rewrite lookup_empty in H. discriminate.
Qed.

End WellFormed.

(** ** Connections do not interfere *)

Lemma confinedTo_refl (o : option string) (w : World) : confinedTo o w w.
Proof.
  split; [|split; [|split; [|split]]].
  - intros s sk H. exists sk. auto.
  - intros s sk H Hge. apply lookup_lt_Some in H. lia.
  - intros r c H. exists c. auto.
  - auto.
  - exists []. rewrite app_nil_r. split; [reflexivity|]. intros a s sk [].
Qed.

Lemma confinedTo_trans (o : option string) (w1 w2 w3 : World) :
  confinedTo o w1 w2 -> confinedTo o w2 w3 -> confinedTo o w1 w3.
Proof.
  intros (Hs1 & Hn1' & Hh1 & Hc1 & new1 & Hl1 & Hn1)
         (Hs2 & Hn2' & Hh2 & Hc2 & new2 & Hl2 & Hn2).
  split; [|split; [|split; [|split]]].
  - intros s sk H. destruct (Hs1 s sk H) as (sk2 & H2 & Ho2 & Hk2).
    destruct (Hs2 s sk2 H2) as (sk3 & H3 & Ho3 & Hk3).
    exists sk3. split; [exact H3|]. split; [congruence|].
    intros Hne. destruct (Hk2 Hne) as (-> & Ht2).
    destruct (Hk3 Hne) as (-> & Ht3). split; [reflexivity|congruence].
  - intros s sk3 H3 Hge. destruct (socks w2 !! s) as [sk2|] eqn:H2.
    + destruct (Hs2 s sk2 H2) as (sk3' & H3' & Ho3 & _).
      rewrite H3 in H3'. injection H3' as <-. rewrite Ho3. eapply Hn1'; eauto.
    + apply lookup_ge_None in H2. eapply Hn2'; eauto.
  - intros r c H. destruct (Hh1 r c H) as (c2 & H2 & Hi2 & Hk2).
    destruct (Hh2 r c2 H2) as (c3 & H3 & Hi3 & Hk3).
    exists c3. split; [exact H3|]. split; [congruence|].
    intros Hne. pose proof (Hk2 Hne) as ->. apply Hk3. exact Hne.
  - intros cid Hne. rewrite Hc2, Hc1 by exact Hne. reflexivity.
  - exists (new1 ++ new2). split; [rewrite Hl2, Hl1, app_assoc; reflexivity|].
    intros a s sk Hin Hsock H. apply in_app_or in Hin as [Hin|Hin].
    + eapply Hn1; eauto.
    + destruct (Hs1 s sk H) as (sk2 & H2 & Ho2 & _). rewrite <- Ho2. eapply Hn2; eauto.
Qed.

(** Nothing but the log, the timers of sockets of [o], [listening] and
    [crashed] differs. *)
Lemma confinedTo_emit (o : option string) (a : Action) (w : World) :
  (forall s sk, socketOf a = Some s -> socks w !! s = Some sk -> ownerOf sk = o) ->
  confinedTo o w (emit a w).
Proof.
  intros Ha. split; [|split; [|split; [|split]]].
  - intros s sk H. exists sk. auto.
  - intros s sk H Hge. apply lookup_lt_Some in H. simpl in H. lia.
  - intros r c H. exists c. auto.
  - auto.
  - exists [a]. split; [reflexivity|]. intros a0 s sk [<-|[]]. apply Ha.
Qed.

Lemma confinedTo_quiet (o : option string) (w w' : World) :
  socks w' = socks w -> heap w' = heap w -> connections w' = connections w ->
  log w' = log w ->
  (forall s sk, socks w !! s = Some sk -> ownerOf sk <> o ->
     hasTimer s (timers w') = hasTimer s (timers w)) ->
  confinedTo o w w'.
Proof.
  intros Hs Hh Hc Hl Ht. split; [|split; [|split; [|split]]].
  - intros s sk H. exists sk. rewrite Hs. eauto.
  - intros s sk H Hge. rewrite Hs in H. apply lookup_lt_Some in H. lia.
  - intros r c H. exists c. rewrite Hh. auto.
  - intros cid _. rewrite Hc. reflexivity.
  - exists []. rewrite app_nil_r. split; [exact Hl|]. intros a s sk [].
Qed.

Lemma confinedTo_insert (o : option string) (s : nat) (sk sk' : Sock) (w : World) :
  socks w !! s = Some sk -> ownerOf sk' = ownerOf sk -> ownerOf sk = o ->
  confinedTo o w (setSocks (<[s := sk']> (socks w)) w).
Proof.
  intros Hs Ho Hown.
  assert (s < List.length (socks w)) as Hlt by (eapply lookup_lt_Some; eauto).
  split; [|split; [|split; [|split]]].
  - intros s0 sk0 H. cbn [socks setSocks timers].
    destruct (decide (s0 = s)) as [->|Hne].
    + rewrite list_lookup_insert_eq by exact Hlt. exists sk'.
      rewrite Hs in H. injection H as <-.
      split; [reflexivity|]. split; [exact Ho|]. intros Hne. contradiction.
    + rewrite list_lookup_insert_ne by auto. exists sk0. auto.
  - intros s0 sk0 H Hge. apply lookup_lt_Some in H. cbn [socks setSocks] in H.
    rewrite length_insert in H. lia.
  - intros r c H. exists c. auto.
  - auto.
  - exists []. cbn [log setSocks]. rewrite app_nil_r. split; [reflexivity|]. intros a s0 sk0 [].
Qed.

Lemma confinedTo_setState (o : option string) (s : nat) (rs : ReadyState) (w : World) :
  (forall sk, socks w !! s = Some sk -> ownerOf sk = o) ->
  confinedTo o w (setState s rs w).
Proof.
  intros Hown. unfold setState. destruct (socks w !! s) as [sk|] eqn:Hs;
    [|apply confinedTo_refl].
  eapply confinedTo_insert; eauto.
Qed.

Lemma confinedTo_markOpen (o : option string) (s : nat) (w : World) :
  (forall sk, socks w !! s = Some sk -> ownerOf sk = o) ->
  confinedTo o w (markOpen s w).
Proof.
  intros Hown. unfold markOpen. destruct (socks w !! s) as [sk|] eqn:Hs;
    [|apply confinedTo_refl].
  eapply confinedTo_insert; eauto.
Qed.

Lemma socks_setState_owner (s s0 : nat) (rs : ReadyState) (w : World) (sk : Sock) :
  socks (setState s rs w) !! s0 = Some sk ->
  exists sk0, socks w !! s0 = Some sk0 /\ ownerOf sk0 = ownerOf sk.
Proof.
  unfold setState. destruct (socks w !! s) as [sk1|] eqn:Hs; [|eauto].
  cbn [socks setSocks]. destruct (decide (s0 = s)) as [->|Hne].
  - rewrite list_lookup_insert_eq by (eapply lookup_lt_Some; eauto).
    intros [= <-]. eauto.
  - rewrite list_lookup_insert_ne by auto. eauto.
Qed.

Lemma confinedTo_ws_close (o : option string) (s : nat) (code : option Z) (w : World) :
  (forall sk, socks w !! s = Some sk -> ownerOf sk = o) ->
  confinedTo o w (ws_close s code w).
Proof.
  intros Hown. unfold ws_close, stateOf.
  destruct (socks w !! s) as [sk|] eqn:Hs; simpl; [|apply confinedTo_refl].
  eapply confinedTo_trans; [apply (confinedTo_setState o s); rewrite Hs; exact Hown|].
  apply confinedTo_emit. simpl. intros s0 sk0 [= <-] H.
  apply socks_setState_owner in H as (sk1 & H1 & <-). rewrite Hs in H1. auto.
Qed.

Lemma confinedTo_ws_send (o : option string) (s : nat) (p : Payload) (w : World) :
  (forall sk, socks w !! s = Some sk -> ownerOf sk = o) ->
  confinedTo o w (ws_send s p w).
Proof.
  intros Hown. unfold ws_send. destruct (socks w !! s) as [sk|] eqn:Hs;
    [|apply confinedTo_refl].
  apply confinedTo_emit. simpl. intros s0 sk0 [= <-] H. rewrite Hs in H. auto.
Qed.

Lemma confinedTo_sendToClient (o : option string) (s : nat) (data : json) (w : World) :
  (forall sk, socks w !! s = Some sk -> ownerOf sk = o) ->
  confinedTo o w (sendToClient (Some s) data w).
Proof.
  intros Hown. unfold sendToClient. destruct (isOpen s w); [|apply confinedTo_refl].
  apply confinedTo_ws_send. exact Hown.
Qed.

Lemma confinedTo_heap_insert (o : option string) (r : nat) (c c' : ConnInfo) (w : World) :
  heap w !! r = Some c -> connectionId c' = connectionId c -> Some (connectionId c) = o ->
  confinedTo o w (setHeap (<[r := c']> (heap w)) w).
Proof.
  intros Hrc Hid Hown.
  assert (r < List.length (heap w)) as Hlt by (eapply lookup_lt_Some; eauto).
  split; [|split; [|split; [|split]]].
  - intros s sk H. exists sk. auto.
  - intros s sk H Hge. apply lookup_lt_Some in H. simpl in H. lia.
  - intros r0 c0 H. cbn [heap setHeap]. destruct (decide (r0 = r)) as [->|Hne].
    + rewrite list_lookup_insert_eq by exact Hlt. exists c'.
      rewrite Hrc in H. injection H as <-.
      split; [reflexivity|]. split; [exact Hid|]. intros Hne. contradiction.
    + rewrite list_lookup_insert_ne by auto. exists c0. auto.
  - auto.
  - exists []. cbn [log setHeap]. rewrite app_nil_r. split; [reflexivity|]. intros a s sk [].
Qed.

Lemma confinedTo_setSonioxWs (o : option string) (r : nat) (v : option nat) (w : World) :
  (forall c, heap w !! r = Some c -> Some (connectionId c) = o) ->
  confinedTo o w (setSonioxWs r v w).
Proof.
  intros Hown. unfold setSonioxWs. destruct (heap w !! r) as [c|] eqn:Hrc;
    [|apply confinedTo_refl].
  eapply confinedTo_heap_insert; eauto.
Qed.

Lemma confinedTo_setIsReady (o : option string) (r : nat) (b : bool) (w : World) :
  (forall c, heap w !! r = Some c -> Some (connectionId c) = o) ->
  confinedTo o w (setIsReady r b w).
Proof.
  intros Hown. unfold setIsReady. destruct (heap w !! r) as [c|] eqn:Hrc;
    [|apply confinedTo_refl].
  eapply confinedTo_heap_insert; eauto.
Qed.

(** The world grows: sockets and records are added at the end, and a
    timer is set or an entry of [connections] written for [o] only. *)
Lemma confinedTo_grow (o : option string) (w w' : World) (ss : list Sock) (h : list ConnInfo)
    (new : list Action) :
  socks w' = socks w ++ ss -> heap w' = heap w ++ h ->
  Forall (fun sk => ownerOf sk = o \/ ownerOf sk = None) ss ->
  (forall cid, Some cid <> o -> connections w' !! cid = connections w !! cid) ->
  log w' = log w ++ new ->
  (forall a s, In a new -> socketOf a = Some s -> List.length (socks w) <= s) ->
  (forall s, s < List.length (socks w) -> hasTimer s (timers w') = hasTimer s (timers w)) ->
  confinedTo o w w'.
Proof.
  intros Hs Hh Hss Hc Hl Hn Ht. split; [|split; [|split; [|split]]].
  - intros s sk H. exists sk. rewrite Hs.
    assert (s < List.length (socks w)) as Hlt by (eapply lookup_lt_Some; eauto).
    rewrite lookup_app_l by exact Hlt. auto.
  - intros s sk H Hge. rewrite Hs, lookup_app_r in H by exact Hge.
    rewrite Forall_forall in Hss. apply Hss. eapply list_elem_of_lookup_2; eauto.
  - intros r c H. exists c. rewrite Hh.
    rewrite lookup_app_l by (eapply lookup_lt_Some; eauto). auto.
  - exact Hc.
  - exists new. split; [exact Hl|]. intros a s sk Hin Hsock H.
    apply lookup_lt_Some in H. specialize (Hn a s Hin Hsock). lia.
Qed.

Lemma confinedTo_delete (cid : string) (w : World) :
  confinedTo (Some cid) w (setConnections (delete cid (connections w)) w).
Proof.
  split; [|split; [|split; [|split]]].
  - intros s sk H. exists sk. auto.
  - intros s sk H Hge. apply lookup_lt_Some in H. simpl in H. lia.
  - intros r c H. exists c. auto.
  - intros cid' Hne. cbn [connections setConnections].
    apply lookup_delete_ne. congruence.
  - exists []. cbn [log setConnections]. rewrite app_nil_r. split; [reflexivity|].
    intros a s sk [].
Qed.

(** In a well-formed world the sockets of a record carry its id. *)
Lemma client_owner (w : World) (r : nat) (c : ConnInfo) :
  wellFormed w -> heap w !! r = Some c ->
  forall sk, socks w !! clientWs c = Some sk -> ownerOf sk = Some (connectionId c).
Proof.
  intros (Hr & _) Hrc sk Hl. destruct (Hr r c Hrc) as ((rs & e & Hcl) & _).
  rewrite Hcl in Hl. injection Hl as <-. reflexivity.
Qed.

Lemma attached_owner (w : World) (r : nat) (c : ConnInfo) (s : nat) :
  wellFormed w -> heap w !! r = Some c -> sonioxWs c = Some s ->
  forall sk, socks w !! s = Some sk -> ownerOf sk = Some (connectionId c).
Proof.
  intros (Hr & _) Hrc Hs sk Hl. destruct (Hr r c Hrc) as (_ & Hup).
  destruct (Hup s Hs) as (config & rs & Hl'). rewrite Hl' in Hl. injection Hl as <-.
  reflexivity.
Qed.

Lemma socks_sendToClient (ws : option nat) (data : json) (w : World) :
  socks (sendToClient ws data w) = socks w.
Proof.
  unfold sendToClient, ws_send. destruct ws as [s|]; [|reflexivity].
  destruct (isOpen s w); [|reflexivity]. destruct (socks w !! s); reflexivity.
Qed.

Lemma confinedTo_connectWith
    (authorization : option string) (cid : string) (config : json)
    (w : World) :
  wellFormed w ->
  confinedTo (Some cid) w (connectWith authorization cid config w).
Proof.
  intros Hwf. unfold connectWith.
  destruct (getConn cid w) as [[r conn]|] eqn:Hc; [|apply confinedTo_refl].
  pose proof (getConn_id _ _ _ _ Hwf Hc) as Hid.
  apply getConn_Some in Hc as (Hreg & Hrc).
  set (w1 := match sonioxWs conn with
             | Some old => setSonioxWs r None (ws_close old None w)
             | None => w
             end).
  assert (confinedTo (Some cid) w w1) as H1.
  { subst w1. destruct (sonioxWs conn) as [old|] eqn:Hold; [|apply confinedTo_refl].
    eapply confinedTo_trans.
    - apply confinedTo_ws_close. intros sk Hl. rewrite <- Hid.
      eapply attached_owner; eauto.
    - apply confinedTo_setSonioxWs. intros c.
      destruct (ws_close_frame old None w) as (-> & _). rewrite Hrc. intros [= <-]. congruence. }
  clearbody w1. eapply confinedTo_trans; [exact H1|].
  unfold newSocket.
  eapply (confinedTo_grow _ _ _ [_] []);
    cbn [socks heap connections log timers emit setSocks setTimers]; try reflexivity.
  - rewrite app_nil_r. reflexivity.
  - constructor; [left; reflexivity|constructor].
  - intros a s [<-|[]] [= <-]. reflexivity.
  - intros s Hlt. rewrite hasTimer_app. simpl.
    destruct (Nat.eqb_spec (List.length (socks w1)) s); [lia|]. rewrite !orb_false_r. reflexivity.
Qed.

Lemma confinedTo_cleanupConnection (cid : string) (w : World) :
  wellFormed w ->
  confinedTo (Some cid) w (cleanupConnection cid w).
Proof.
  intros Hwf. unfold cleanupConnection.
  destruct (getConn cid w) as [[r conn]|] eqn:Hc; [|apply confinedTo_refl].
  pose proof (getConn_id _ _ _ _ Hwf Hc) as Hid.
  apply getConn_Some in Hc as (Hreg & Hrc).
  set (w1 := match sonioxWs conn with Some s => ws_close s None w | None => w end).
  assert (confinedTo (Some cid) w w1) as H1.
  { subst w1. destruct (sonioxWs conn) as [s|] eqn:Hs; [|apply confinedTo_refl].
    apply confinedTo_ws_close. intros sk Hl. rewrite <- Hid. eapply attached_owner; eauto. }
  assert (forall sk, socks w1 !! clientWs conn = Some sk -> ownerOf sk = Some cid) as Hown.
  { intros sk Hl. destruct H1 as (Hs1 & _). destruct Hwf as (Hr & _).
    destruct (Hr r conn Hrc) as ((rs & e & Hcl) & _).
    destruct (Hs1 _ _ Hcl) as (sk' & Hl' & Ho & _). rewrite Hl' in Hl. injection Hl as <-.
    rewrite Ho. unfold ownerOf. simpl. congruence. }
  clearbody w1.
  set (w2 := match stateOf (clientWs conn) w1 with
             | Some CLOSED => w1
             | _ => ws_close (clientWs conn) None w1
             end).
  assert (confinedTo (Some cid) w1 w2) as H2.
  { subst w2. destruct (stateOf (clientWs conn) w1) as [[]|];
      try apply confinedTo_refl; apply confinedTo_ws_close; exact Hown. }
  clearbody w2.
  eapply confinedTo_trans; [exact H1|]. eapply confinedTo_trans; [exact H2|].
  apply confinedTo_delete.
Qed.

Lemma confinedTo_authenticateWhen
    (found : ReadyState) (cid : string) (token : option string) (auth : AuthOutcome)
    (w : World) :
  confinedTo (Some cid) w (authenticateWhen found cid token auth w).
Proof.
  assert (truthyStr token = true /\ (exists id, auth = AuthUser id)
          \/ (truthyStr token = false \/ forall id, auth <> AuthUser id)) as [(Htok & id & ->)|Hno].
  { destruct (truthyStr token); [|auto]. destruct auth as [id| |m]; [left; eauto| |];
      right; right; discriminate. }
  - destruct (authenticateWhen_user found cid token id w Htok) as (Hs & Hh & Hc & Ht & Hl).
    eapply (confinedTo_grow (Some cid) w _ _ _ _ Hs Hh).
    + constructor; [left; reflexivity|constructor].
    + intros cid' Hne. rewrite Hc. apply lookup_insert_ne. congruence.
    + exact Hl.
    + intros a s Hin Hsock. destruct Hin as [<-|Hin]; [discriminate|].
      destruct found; simpl in Hin; try destruct Hin as [<-|[]]; try destruct Hin.
      injection Hsock as <-. reflexivity.
    + intros s _. rewrite Ht. reflexivity.
  - destruct (authenticateWhen_refused found cid token auth w Hno)
      as (rs & new & Hs & Hh & Hc & Ht & Hl & Hn).
    rewrite <- (app_nil_r (heap w)) in Hh.
    eapply (confinedTo_grow (Some cid) w _ _ _ _ Hs Hh).
    + constructor; [right; reflexivity|constructor].
    + intros cid' _. rewrite Hc. reflexivity.
    + exact Hl.
    + intros a s Hin Hsock. rewrite (Hn a s Hin Hsock). reflexivity.
    + intros s _. rewrite Ht. reflexivity.
Qed.

Lemma confinedTo_reset (r : nat) (cid : string) (w : World) :
  connectionId <$> heap w !! r = Some cid ->
  confinedTo (Some cid) w (setIsReady r false (setSonioxWs r None w)).
Proof.
  intros Hid. destruct (heap w !! r) as [conn|] eqn:Hrc; [|discriminate].
  injection Hid as Hid.
  eapply confinedTo_trans.
  - apply confinedTo_setSonioxWs. rewrite Hrc. intros c [= <-]. congruence.
  - apply confinedTo_setIsReady. rewrite (setSonioxWs_found _ _ _ _ Hrc). cbn [heap setHeap].
    rewrite list_lookup_insert_eq by (eapply lookup_lt_Some; eauto).
    intros c [= <-]. simpl. congruence.
Qed.

Lemma confinedTo_onSonioxMessage
    (r : nat) (cid data : string) (w : World) :
  wellFormed w -> connectionId <$> heap w !! r = Some cid ->
  confinedTo (Some cid) w (onSonioxMessage r cid data w).
Proof.
  intros Hwf Hid. unfold onSonioxMessage.
  destruct (heap w !! r) as [conn|] eqn:Hrc; [|discriminate]. injection Hid as Hid.
  pose proof (client_owner _ _ _ Hwf Hrc) as Hown. rewrite Hid in Hown.
  set (w1 := if negb (isReady conn) then _ else w).
  assert (confinedTo (Some cid) w w1 /\ socks w1 = socks w) as (H1 & Hs1).
  { subst w1. destruct (negb (isReady conn)); [|split; [apply confinedTo_refl|reflexivity]].
    split; [|rewrite socks_sendToClient, socks_setIsReady; reflexivity].
    eapply confinedTo_trans.
    - apply confinedTo_setIsReady. rewrite Hrc. intros c [= <-]. congruence.
    - apply confinedTo_sendToClient. rewrite socks_setIsReady. exact Hown. }
  clearbody w1. destruct (isOpen (clientWs conn) w1); [|exact H1].
  eapply confinedTo_trans; [exact H1|]. apply confinedTo_ws_send. rewrite Hs1. exact Hown.
Qed.

Lemma confinedTo_onSonioxClose
    (r : nat) (cid : string) (code : Z) (reason : option string)
    (w : World) :
  wellFormed w -> connectionId <$> heap w !! r = Some cid ->
  confinedTo (Some cid) w (onSonioxClose r code reason w).
Proof.
  intros Hwf Hid. unfold onSonioxClose.
  pose proof (confinedTo_reset r cid w Hid) as H1.
  destruct (heap w !! r) as [conn|] eqn:Hrc; [|discriminate]. injection Hid as Hid.
  pose proof (client_owner _ _ _ Hwf Hrc) as Hown. rewrite Hid in Hown.
  destruct (isOpen _ _); [|exact H1].
  eapply confinedTo_trans; [exact H1|]. apply confinedTo_sendToClient.
  rewrite socks_setIsReady, socks_setSonioxWs. exact Hown.
Qed.

Lemma confinedTo_onSonioxError
    (r : nat) (cid message : string) (w : World) :
  wellFormed w -> connectionId <$> heap w !! r = Some cid ->
  confinedTo (Some cid) w (onSonioxError r message w).
Proof.
  intros Hwf Hid. unfold onSonioxError.
  pose proof (confinedTo_reset r cid w Hid) as H1.
  destruct (heap w !! r) as [conn|] eqn:Hrc; [|discriminate]. injection Hid as Hid.
  pose proof (client_owner _ _ _ Hwf Hrc) as Hown. rewrite Hid in Hown.
  destruct (isOpen _ _); [|exact H1].
  eapply confinedTo_trans; [exact H1|]. apply confinedTo_sendToClient.
  rewrite socks_setIsReady, socks_setSonioxWs. exact Hown.
Qed.

Lemma confinedTo_onTimeout (s r : nat) (cid : string) (w : World) :
  wellFormed w -> connectionId <$> heap w !! r = Some cid ->
  (forall sk, socks w !! s = Some sk -> ownerOf sk = Some cid) ->
  confinedTo (Some cid) w (onTimeout s r w).
Proof.
  intros Hwf Hid Hs. unfold onTimeout.
  destruct (heap w !! r) as [conn|] eqn:Hrc; [|discriminate]. injection Hid as Hid.
  pose proof (client_owner _ _ _ Hwf Hrc) as Hown. rewrite Hid in Hown.
  destruct (negb (isOpen s w)); [|apply confinedTo_refl].
  pose proof (confinedTo_ws_close (Some cid) s None w Hs) as H1.
  eapply confinedTo_trans; [exact H1|]. apply confinedTo_sendToClient.
  intros sk Hl. destruct Hwf as (Hr & _). destruct (Hr r conn Hrc) as ((rs & e & Hcl) & _).
  destruct H1 as (H1 & _). destruct (H1 _ _ Hcl) as (sk' & Hl' & Ho & _).
  rewrite Hl' in Hl. injection Hl as <-. rewrite Ho. unfold ownerOf. simpl. congruence.
Qed.

Section Confined.

Variable JSON_parse : string -> option json.
Variable SONIOX_API_KEY : string.

Lemma confinedTo_handleClientMessage
    (cid data : string) (isBinary : bool) (now : Z) (w w' : World) :
  wellFormed w ->
  handleClientMessage JSON_parse cid data isBinary now w = Ok w' ->
  confinedTo (Some cid) w w'.
Proof.
  intros Hwf. unfold handleClientMessage.
  destruct (getConn cid w) as [[r conn]|] eqn:Hc; [|intros [= <-]; apply confinedTo_refl].
  pose proof (getConn_id _ _ _ _ Hwf Hc) as Hid.
  apply getConn_Some in Hc as (Hreg & Hrc).
  assert (forall s p, sonioxOpen conn w = Some s -> confinedTo (Some cid) w (ws_send s p w))
    as Hup.
  { intros s p Hs. apply confinedTo_ws_send. intros sk Hl. rewrite <- Hid.
    apply sonioxOpen_Some in Hs. eapply attached_owner; eauto. apply Hs. }
  destruct (isBinary && negb (startsWith "{" data || startsWith "[" data))%bool.
  { destruct (sonioxOpen conn w) eqn:Hs; intros [= <-]; [auto|apply confinedTo_refl]. }
  destruct (JSON_parse data) as [message|]; [|intros [= <-]; apply confinedTo_refl].
  destruct (getProp "type" message) as [type|]; [|discriminate].
  destruct (isStr "ping" type).
  { intros [= <-]. apply (confinedTo_sendToClient (Some cid) (clientWs conn)).
    intros sk Hl. rewrite <- Hid. eapply client_owner; eauto. }
  destruct (isStr "start" (field "action" message)).
  { intros [= <-]. eapply confinedTo_connectWith. exact Hwf. }
  destruct (isStr "finalize" type); destruct (sonioxOpen conn w) eqn:Hs; intros [= <-];
    auto; apply confinedTo_refl.
Qed.

Lemma confinedTo_setCrashed (o : option string) (w : World) : confinedTo o w (setCrashed w).
Proof. apply confinedTo_quiet; reflexivity. Qed.

Lemma step_confined (w w' : World) (e : Event) :
  wellFormed w ->
  (forall ids, e <> Sigterm ids) ->
  step JSON_parse SONIOX_API_KEY w e = Some w' ->
  confinedTo (subject w e) w w'.
Proof.
  intros Hwf Hsig. unfold step. destruct (crashed w); [discriminate|].
  destruct e as [cid req auth|s data isBinary now|s|s|s|s data|s code reason|s message|s|ids];
    cbn [subject].
  - destruct (listening w); [|discriminate]. intros [= <-].
    unfold onConnection. destruct (extractToken req) as [token|]; simpl;
      [|apply confinedTo_setCrashed].
    rewrite authenticate_authenticateWhen. apply confinedTo_authenticateWhen.
  - destruct (socks w !! s) as [[[[cid|]|r cid config] [] e]|] eqn:Hs;
      try discriminate; intros [= <-]; try apply confinedTo_refl;
      (destruct (handleClientMessage JSON_parse cid data isBinary now w) as [w1|] eqn:Hh;
       simpl; [eapply confinedTo_handleClientMessage; eauto|apply confinedTo_setCrashed]).
  - destruct (socks w !! s) as [[[[cid|]|r cid config] [] e]|] eqn:Hs;
      try discriminate; intros [= <-];
      try (eapply confinedTo_trans;
           [|eapply confinedTo_cleanupConnection; apply wellFormed_setState; exact Hwf]);
      apply confinedTo_setState; rewrite Hs; intros sk [= <-]; reflexivity.
  - destruct (socks w !! s) as [[[[cid|]|r cid config] [] e]|] eqn:Hs;
      try discriminate; intros [= <-];
      try (eapply confinedTo_trans;
           [|eapply confinedTo_cleanupConnection; apply wellFormed_setState; exact Hwf]);
      apply confinedTo_setState; rewrite Hs; intros sk [= <-]; reflexivity.
  - destruct (socks w !! s) as [[[[cid|]|r cid config] [] e]|] eqn:Hs;
      try discriminate; intros [= <-]. simpl.
    assert (connectionId <$> heap w !! r = Some cid) as Hid
      by (destruct Hwf as (_ & Hu & _); eapply Hu; [exact Hs|reflexivity]).
    assert (confinedTo (Some cid) w (markOpen s w)) as H1
      by (apply confinedTo_markOpen; rewrite Hs; intros sk [= <-]; reflexivity).
    assert (confinedTo (Some cid) w (setSonioxWs r (Some s) (markOpen s w))) as H2.
    { eapply confinedTo_trans; [exact H1|]. apply confinedTo_setSonioxWs.
      change (heap (markOpen s w)) with (heap w) || (unfold markOpen; rewrite Hs; simpl).
      destruct (heap w !! r) as [c|]; [|discriminate]. injection Hid as Hid.
      intros c0 [= <-]. congruence. }
    destruct (onSonioxOpen_result s r config (markOpen s w)) as [(msg & Ht)|Hok];
      [rewrite Ht; apply confinedTo_setCrashed|].
    rewrite Hok. simpl. eapply confinedTo_trans; [exact H2|]. apply confinedTo_ws_send.
    rewrite socks_setSonioxWs, (markOpen_lookup _ _ _ Hs). intros sk [= <-]. reflexivity.
  - destruct (socks w !! s) as [[[[cid|]|r cid config] [] []]|] eqn:Hs;
      try discriminate; intros [= <-]; simpl;
      (eapply confinedTo_onSonioxMessage; [exact Hwf|]);
      destruct Hwf as (_ & Hu & _); (eapply Hu; [exact Hs|reflexivity]).
  - destruct (socks w !! s) as [[[[cid|]|r cid config] [] e]|] eqn:Hs;
      try discriminate; intros [= <-]; simpl;
      (eapply confinedTo_trans;
       [apply confinedTo_setState; rewrite Hs; intros sk [= <-]; reflexivity|];
       eapply confinedTo_onSonioxClose;
       [apply wellFormed_setState; exact Hwf
       |unfold setState; rewrite Hs; cbn [heap setSocks];
        destruct Hwf as (_ & Hu & _); (eapply Hu; [exact Hs|reflexivity])]).
  - destruct (socks w !! s) as [[[[cid|]|r cid config] [] e]|] eqn:Hs;
      try discriminate; intros [= <-]; simpl;
      (eapply confinedTo_trans;
       [apply confinedTo_setState; rewrite Hs; intros sk [= <-]; reflexivity|];
       eapply confinedTo_onSonioxError;
       [apply wellFormed_setState; exact Hwf
       |unfold setState; rewrite Hs; cbn [heap setSocks];
        destruct Hwf as (_ & Hu & _); (eapply Hu; [exact Hs|reflexivity])]).
  - destruct (socks w !! s) as [[[h|r cid config] rs e]|] eqn:Hs; try discriminate.
    destruct (hasTimer s (timers w)); [|discriminate]. intros [= <-]. simpl.
    eapply confinedTo_trans.
    + apply (confinedTo_quiet (Some cid) w (setTimers (removeTimer s (timers w)) w));
        try reflexivity.
      intros s0 sk0 Hl Hne. cbn [timers setTimers]. rewrite hasTimer_removeTimer.
      destruct (Nat.eqb_spec s0 s) as [->|_]; [|reflexivity].
      rewrite Hs in Hl. injection Hl as <-. contradiction Hne. reflexivity.
    + eapply confinedTo_onTimeout.
      * eapply wellFormed_same; [| | |exact Hwf]; reflexivity.
      * destruct Hwf as (_ & Hu & _). eapply Hu; [exact Hs|reflexivity].
      * cbn [socks setTimers]. rewrite Hs. intros sk [= <-]. reflexivity.
  - destruct (Hsig ids eq_refl).
Qed.

End Confined.

(** ** The relay as a whole *)

Lemma heap_cleanupConnection (cid : string) (w : World) :
  heap (cleanupConnection cid w) = heap w.
Proof.
  unfold cleanupConnection. destruct (getConn cid w) as [[r conn]|]; [|reflexivity].
  cbn [heap setConnections].
  assert (heap (match sonioxWs conn with Some s => ws_close s None w | None => w end) = heap w)
    as H1 by (destruct (sonioxWs conn); [apply ws_close_frame|reflexivity]).
  destruct (stateOf _ _) as [[]|]; rewrite ?(proj1 (ws_close_frame _ _ _)); exact H1.
Qed.

Lemma connections_cleanupConnection (cid k : string) (w : World) :
  wellFormed w ->
  connections (cleanupConnection cid w) !! k
  = if bool_decide (k = cid) then None else connections w !! k.
Proof.
  intros Hwf. unfold cleanupConnection. destruct (getConn cid w) as [[r conn]|] eqn:Hc.
  - cbn [connections setConnections].
    assert (connections (match sonioxWs conn with Some s => ws_close s None w | None => w end)
            = connections w) as H1
      by (destruct (sonioxWs conn); [apply ws_close_frame|reflexivity]).
    assert (forall w2, w2 = match stateOf (clientWs conn)
                                    (match sonioxWs conn with
                                     | Some s => ws_close s None w | None => w end) with
                            | Some CLOSED =>
                                match sonioxWs conn with
                                | Some s => ws_close s None w | None => w end
                            | _ => ws_close (clientWs conn) None
                                     (match sonioxWs conn with
                                      | Some s => ws_close s None w | None => w end)
                            end -> connections w2 = connections w) as H2.
    { intros w2 ->. destruct (stateOf _ _) as [[]|];
        rewrite ?(proj1 (proj2 (ws_close_frame _ _ _))); exact H1. }
    rewrite (H2 _ eq_refl). case_bool_decide as Hk.
    + subst k. apply lookup_delete_eq.
    + apply lookup_delete_ne. congruence.
  - case_bool_decide as Hk; [|reflexivity]. subst k. eapply getConn_None; eauto.
Qed.

(** After the cleanup of a registered connection neither of its sockets
    is live. *)
Lemma cleanup_not_live (cid : string) (w : World) (r : nat) (conn : ConnInfo) (s : nat)
    (sk : Sock) :
  getConn cid w = Some (r, conn) ->
  sonioxWs conn = Some s \/ clientWs conn = s ->
  socks w !! s = Some sk ->
  exists sk', socks (cleanupConnection cid w) !! s = Some sk' /\ live (readyState sk') = false.
Proof.
  intros Hc Hwhich Hsk. unfold cleanupConnection. rewrite Hc. cbn [socks setConnections].
  set (w1 := match sonioxWs conn with Some s => ws_close s None w | None => w end).
  assert (exists sk1, socks w1 !! s = Some sk1
            /\ (sonioxWs conn = Some s -> live (readyState sk1) = false)) as (sk1 & Hsk1 & Hdead1).
  { subst w1. destruct (sonioxWs conn) as [s0|] eqn:Hs.
    - destruct (decide (s0 = s)) as [->|Hne].
      + rewrite (ws_close_lookup_eq _ _ _ _ Hsk). eexists. split; [reflexivity|].
        intros _. apply live_afterClose.
      + rewrite (ws_close_lookup_ne _ _ _ _ Hne). exists sk. split; [exact Hsk|].
        intros [= ?]. contradiction.
    - exists sk. split; [exact Hsk|discriminate]. }
  clearbody w1. unfold stateOf.
  destruct (decide (clientWs conn = s)) as [Heq|Hne].
  - rewrite Heq. rewrite Hsk1. simpl.
    destruct (readyState sk1) eqn:Hr;
      try (rewrite (ws_close_lookup_eq _ _ _ _ Hsk1); eexists; split;
           [reflexivity|apply live_afterClose]).
    exists sk1. split; [exact Hsk1|]. rewrite Hr. reflexivity.
  - destruct Hwhich as [Hs|Hs]; [|contradiction].
    exists sk1.
    destruct (socks w1 !! clientWs conn) as [skc|] eqn:Hskc; simpl.
    + destruct (readyState skc);
        try (rewrite (ws_close_lookup_ne _ _ _ _ Hne)); auto.
    + rewrite (ws_close_lookup_ne _ _ _ _ Hne). auto.
Qed.

Lemma live_sockLe (a b : Sock) :
  sockLe a b -> live (readyState a) = false -> live (readyState b) = false.
Proof.
  intros (Hrank & _). destruct (readyState a), (readyState b); simpl in *;
    try reflexivity; try discriminate; lia.
Qed.

(** What a sequence of cleanups leaves. *)
Lemma fold_cleanupConnection (ids : list string) (w : World) :
  wellFormed w ->
  let w' := foldl (fun acc id => cleanupConnection id acc) w ids in
  heap w' = heap w
  /\ (forall k, connections w' !! k
                = if bool_decide (k ∈ ids) then None else connections w !! k)
  /\ socksLe (socks w) (socks w')
  /\ (forall cid r c s sk,
        cid ∈ ids -> getConn cid w = Some (r, c) ->
        sonioxWs c = Some s \/ clientWs c = s ->
        socks w !! s = Some sk ->
        exists sk', socks w' !! s = Some sk' /\ live (readyState sk') = false).
Proof.
  revert w. induction ids as [|id ids IH]; intros w Hwf; simpl.
  - split; [reflexivity|]. split; [intros k; reflexivity|]. split; [apply socksLe_refl|].
    intros cid r c s sk Hin. apply elem_of_nil in Hin. destruct Hin.
  - set (w1 := cleanupConnection id w).
    assert (wellFormed w1) as Hwf1 by (apply wellFormed_cleanupConnection; exact Hwf).
    destruct (IH w1 Hwf1) as (Hh & Hc & Hs & Hdead).
    pose proof (heap_cleanupConnection id w) as Hh1.
    pose proof (fun k => connections_cleanupConnection id k w Hwf) as Hc1.
    destruct (evolves_cleanupConnection id w) as (_ & Hs1 & _).
    fold w1 in Hh1, Hc1, Hs1.
    split; [congruence|]. split; [|split].
    + intros k. rewrite Hc, Hc1.
      case_bool_decide as Hk1.
      { rewrite bool_decide_eq_true_2 by (apply elem_of_cons; auto). reflexivity. }
      case_bool_decide as Hk2.
      { rewrite bool_decide_eq_true_2 by (apply elem_of_cons; auto). reflexivity. }
      rewrite bool_decide_eq_false_2; [reflexivity|].
      rewrite elem_of_cons. intros [?|?]; contradiction.
    + eapply socksLe_trans; eauto.
    + intros cid r c s sk Hin Hg Hwhich Hsk.
      destruct (decide (cid = id)) as [->|Hne].
      * destruct (cleanup_not_live _ _ _ _ _ _ Hg Hwhich Hsk) as (sk1 & Hsk1 & Hd1).
        fold w1 in Hsk1. destruct (Hs _ _ Hsk1) as (sk' & Hsk' & Hle).
        exists sk'. split; [exact Hsk'|]. eapply live_sockLe; eauto.
      * apply elem_of_cons in Hin as [?|Hin]; [contradiction|].
        destruct (Hs1 _ _ Hsk) as (sk1 & Hsk1 & _).
        apply (Hdead cid r c s sk1 Hin); [|exact Hwhich|exact Hsk1].
        apply getConn_Some in Hg as (Hreg & Hrc). apply getConn_Some.
        rewrite Hc1, Hh1. rewrite bool_decide_eq_false_2 by exact Hne. auto.
Qed.

Lemma assoc_In {A : Type} (k : string) (l : list (string * A)) (v : A) :
  assoc k l = Some v -> In k (List.map fst l).
Proof.
  induction l as [|[k' v'] l IH]; simpl; [discriminate|].
  destruct (String.eqb_spec k k') as [->|_]; auto.
Qed.

Lemma assoc_deleteAction (k : string) (fs : list (string * json)) :
  k <> "action" -> assoc k (deleteAction fs) = assoc k fs.
Proof.
  intros Hk. unfold deleteAction. induction fs as [|[k' v'] fs IH]; simpl; [reflexivity|].
  destruct (String.eqb_spec k' "action") as [->|Hne]; simpl.
  - destruct (String.eqb_spec k "action"); [contradiction|exact IH].
  - rewrite IH. reflexivity.
Qed.

Lemma orElse_falsy (v : option json) (d : json) : truthy v = false -> orElse v d = d.
Proof. unfold orElse. destruct v; [|reflexivity]. intros ->. reflexivity. Qed.

(** What the [close] and [error] handlers of an upstream socket do once
    the library has moved the socket to [state]. *)
Lemma upstream_lost_effect
    (s r : nat) (state : ReadyState) (conn : ConnInfo) (frame : json) (w : World)
    (sk : Sock) (h : option string) (rsc : ReadyState) (ec : bool) :
  heap w !! r = Some conn ->
  socks w !! s = Some sk ->
  clientWs conn <> s ->
  socks w !! clientWs conn = Some (mkSock (ClientSock h) rsc ec) ->
  forall w3,
    w3 = (let w2 := setIsReady r false (setSonioxWs r None (setState s state w)) in
          if isOpen (clientWs conn) w2
          then sendToClient (Some (clientWs conn)) frame w2 else w2) ->
    connections w3 = connections w
    /\ (forall s', s' <> s -> socks w3 !! s' = socks w !! s')
    /\ log w3 = log w ++ (if isOpen (clientWs conn) w
                          then [ASend (clientWs conn) ClientLeg OPEN (PJson frame)] else []).
Proof.
  intros Hrc Hs Hne Hcl w3 ->. cbv zeta.
  set (w1 := setState s state w).
  assert (socks w1 !! clientWs conn = Some (mkSock (ClientSock h) rsc ec)) as Hcl1.
  { subst w1. unfold setState. rewrite Hs. cbn [socks setSocks].
    rewrite list_lookup_insert_ne by auto. exact Hcl. }
  assert (forall s', s' <> s -> socks w1 !! s' = socks w !! s') as Hs1.
  { intros s' Hne'. subst w1. unfold setState. rewrite Hs. cbn [socks setSocks].
    apply list_lookup_insert_ne. auto. }
  assert (connections w1 = connections w /\ log w1 = log w /\ heap w1 = heap w)
    as (Hc1 & Hl1 & Hh1) by (subst w1; unfold setState; rewrite Hs; auto).
  clearbody w1.
  set (w2 := setIsReady r false (setSonioxWs r None w1)).
  assert (socks w2 = socks w1) as Hs2
    by (subst w2; rewrite socks_setIsReady, socks_setSonioxWs; reflexivity).
  assert (connections w2 = connections w1 /\ log w2 = log w1) as (Hc2 & Hl2).
  { subst w2. unfold setIsReady, setSonioxWs. rewrite Hh1, Hrc. cbn [heap setHeap].
    rewrite list_lookup_insert_eq by (eapply lookup_lt_Some; eauto). auto. }
  clearbody w2.
  assert (isOpen (clientWs conn) w2 = isOpen (clientWs conn) w) as Ho.
  { unfold isOpen, stateOf. rewrite Hs2, Hcl1, Hcl. reflexivity. }
  rewrite Ho. destruct (isOpen (clientWs conn) w) eqn:Hopen.
  - assert (rsc = OPEN) as ->.
    { unfold isOpen, stateOf in Hopen. rewrite Hcl in Hopen. simpl in Hopen.
      destruct rsc; try discriminate. reflexivity. }
    rewrite (sendToClient_open _ _ _ (ClientSock h) ec) by (rewrite Hs2; exact Hcl1).
    cbn [connections socks log emit legOf].
    split; [congruence|]. split; [|congruence].
    intros s' Hne'. rewrite Hs2. auto.
  - rewrite app_nil_r. split; [congruence|]. split; [|congruence].
    intros s' Hne'. rewrite Hs2. auto.
Qed.

Section Whole.

Variable JSON_parse : string -> option json.
Variable SONIOX_API_KEY : string.

(** The worlds of the relay are well formed, and stay so.  The initial
    world is; every event keeps a world well formed, and so does the
    upgrade handler when it resumes after the verifier's answer, in
    whatever state it finds the client socket.  In a well-formed world an
    id of [connections] refers to a record that carries this id; the
    record's client socket is the socket whose handlers hold the id; and
    the socket attached to the record is an upstream socket created for
    this record and this id, whose handshake has completed. *)
Theorem worlds_stay_well_formed :
  wellFormed initial
  /\ (forall w e w',
        wellFormed w -> step JSON_parse SONIOX_API_KEY w e = Some w' -> wellFormed w')
  /\ (forall found cid token auth w,
        wellFormed w -> wellFormed (authenticateWhen found cid token auth w))
  /\ (forall w, wellFormed w ->
        forall cid r, connections w !! cid = Some r ->
          exists conn rs e,
            heap w !! r = Some conn
            /\ connectionId conn = cid
            /\ socks w !! clientWs conn = Some (mkSock (ClientSock (Some cid)) rs e)
            /\ forall s, sonioxWs conn = Some s ->
                 exists config rs',
                   socks w !! s = Some (mkSock (UpstreamSock r cid config) rs' true)).
Proof.
  split; [apply wellFormed_initial|].
  split; [intros w e w'; apply wellFormed_step|].
  split; [intros found cid token auth w; apply wellFormed_authenticateWhen|].
  intros w (Hr & Hu & Hg) cid r Hreg.
  destruct (Hg cid r Hreg) as (conn & Hrc & Hid).
  destruct (Hr r conn Hrc) as ((rs & e & Hcl) & Hup).
  exists conn, rs, e. rewrite Hid in *. auto.
Qed.


(** SIGTERM.  In a well-formed world the handler cleans up every
    registered connection: afterwards [connections] is empty, the client
    socket of every connection that was registered and the upstream
    socket attached to it are no longer live, and the server accepts no
    further upgrade. *)
Theorem sigterm_closes_every_connection (ids : list string) (w w' : World) :
  wellFormed w ->
  step JSON_parse SONIOX_API_KEY w (Sigterm ids) = Some w' ->
  connections w' = ∅
  /\ listening w' = false
  /\ (forall cid r c s,
        connections w !! cid = Some r -> heap w !! r = Some c ->
        sonioxWs c = Some s \/ clientWs c = s ->
        exists sk', socks w' !! s = Some sk' /\ live (readyState sk') = false)
  /\ (forall cid req auth, step JSON_parse SONIOX_API_KEY w' (Upgrade cid req auth) = None).
Proof.
  intros Hwf.
  unfold step. destruct (crashed w) eqn:Hcr; [discriminate|].
  destruct (isKeyOrder ids w) eqn:Hids; [|discriminate]. intros [= <-].
  unfold isKeyOrder in Hids. apply andb_true_iff in Hids as (_ & Hdom).
  apply bool_decide_eq_true in Hdom.
  destruct (fold_cleanupConnection ids w Hwf) as (Hh & Hc & Hs & Hdead).
  unfold onSigterm. cbn [connections listening crashed socks stopListening].
  split; [|split; [reflexivity|split]].
  - apply map_eq. intros k. rewrite Hc, lookup_empty. case_bool_decide as Hk; [reflexivity|].
    apply not_elem_of_dom. rewrite <- Hdom, elem_of_list_to_set. exact Hk.
  - intros cid r c s Hreg Hrc Hwhich.
    assert (cid ∈ ids) as Hin.
    { assert (cid ∈ dom (connections w)) as Hd by (apply elem_of_dom; eauto).
      rewrite <- Hdom in Hd. apply elem_of_list_to_set in Hd. exact Hd. }
    destruct Hwf as (Hr & _). destruct (Hr r c Hrc) as ((rs & e & Hcl) & Hup).
    assert (exists sk, socks w !! s = Some sk) as (sk & Hsk).
    { destruct Hwhich as [Hs0| <-]; [|eauto].
      destruct (Hup s Hs0) as (cf & rs0 & Hl). eauto. }
    apply (Hdead cid r c s sk Hin); [|exact Hwhich|exact Hsk]. apply getConn_Some. auto.
  - intros cid req auth. destruct (crashed (foldl _ _ _)); reflexivity.
Qed.

(** A token that the verifier does not accept.  The upgrade event is the
    handler that finds the client socket still open when the verifier
    has answered.  When the verifier rejects the token the handler sends
    the error frame with code 401 and closes the socket with 1008; when
    the verifier call throws, the frame has code 500 and the close code is
    1011.  If the client socket has left [OPEN] meanwhile, no frame is
    sent and [close] is called all the same.  Either way the verifier was
    called once with the token, no record is created and nothing is
    registered, the socket gets no handlers, and a frame that still arrives
    on it is ignored. *)
Theorem unaccepted_token_is_refused
    (found : ReadyState) (cid : string) (auth : AuthOutcome) (tok : string) (w : World) :
  isEmpty tok = false ->
  (forall id, auth <> AuthUser id) ->
  let w' := authenticateWhen found cid (Some tok) auth w in
  let refusal message code closeCode :=
    AVerify tok
    :: match found with
       | OPEN => [ASend (List.length (socks w)) ClientLeg OPEN
                    (PJson (JObj [("type", JStr "error"); ("message", JStr message);
                                  ("code", JNum code)]))]
       | _ => []
       end
    ++ [AClose (List.length (socks w)) found (Some closeCode)] in
  (forall req, extractToken req = Ok (Some tok) -> crashed w = false -> listening w = true ->
     step JSON_parse SONIOX_API_KEY w (Upgrade cid req auth)
     = Some (authenticateWhen OPEN cid (Some tok) auth w))
  /\ (auth = AuthRejected ->
      log w' = log w ++ refusal "Unauthorized: Invalid token" 401%Z 1008%Z)
  /\ (forall m, auth = AuthThrew m ->
        log w' = log w ++ refusal "Authentication error" 500%Z 1011%Z)
  /\ socks w' = socks w ++ [mkSock (ClientSock None) (afterClose found) true]
  /\ heap w' = heap w
  /\ connections w' = connections w
  /\ (crashed w = false -> found <> CLOSED ->
      forall data isBinary now,
        step JSON_parse SONIOX_API_KEY w'
          (ClientMessage (List.length (socks w)) data isBinary now) = Some w').
Proof.
  intros Hne Hauth w' refusal. subst w' refusal.
  assert (forall code message closeCode,
            let w1 := setState (List.length (socks w)) found
                        (emit (AVerify tok)
                           (setSocks (socks w ++ [mkSock (ClientSock None) OPEN true]) w)) in
            let w' := ws_close (List.length (socks w)) (Some closeCode)
                        (sendError (Some (List.length (socks w))) message code w1) in
            log w' = log w
                     ++ AVerify tok
                        :: match found with
                           | OPEN => [ASend (List.length (socks w)) ClientLeg OPEN
                                        (PJson (JObj [("type", JStr "error");
                                                      ("message", JStr message);
                                                      ("code", JNum code)]))]
                           | _ => []
                           end
                        ++ [AClose (List.length (socks w)) found (Some closeCode)]
            /\ socks w' = socks w ++ [mkSock (ClientSock None) (afterClose found) true]
            /\ heap w' = heap w /\ connections w' = connections w
            /\ crashed w' = crashed w) as Hbody.
  { intros code message closeCode.
    unfold ws_close, sendError, sendToClient, isOpen, stateOf, ws_send, setState. simpl.
    fresh_socket. rewrite insert_app_r_alt, Nat.sub_diag by reflexivity. simpl. fresh_socket.
    destruct found; simpl; fresh_socket;
      rewrite ?insert_app_r_alt, ?Nat.sub_diag by (rewrite ?length_app; simpl; lia);
      rewrite <- ?app_assoc; simpl; auto. }
  assert (exists code message closeCode,
            authenticateWhen found cid (Some tok) auth w
            = ws_close (List.length (socks w)) (Some closeCode)
                (sendError (Some (List.length (socks w))) message code
                   (setState (List.length (socks w)) found
                      (emit (AVerify tok)
                         (setSocks (socks w ++ [mkSock (ClientSock None) OPEN true]) w))))
            /\ (auth = AuthRejected ->
                message = "Unauthorized: Invalid token" /\ code = 401%Z /\ closeCode = 1008%Z)
            /\ (forall m, auth = AuthThrew m ->
                  message = "Authentication error" /\ code = 500%Z /\ closeCode = 1011%Z))
    as (code & message & closeCode & Heq & Hrej & Hthrew).
  { unfold authenticateWhen, newSocket. simpl truthyStr. rewrite Hne. cbn [negb default].
    destruct auth as [id| |m]; [destruct (Hauth id eq_refl)| |].
    - eexists _, _, _. split; [reflexivity|]. split; [auto|discriminate].
    - eexists _, _, _. split; [reflexivity|]. split; [discriminate|auto]. }
  destruct (Hbody code message closeCode) as (Hl & Hs & Hh & Hc & Hcr).
  cbv zeta in Hl, Hs, Hh, Hc, Hcr. rewrite <- Heq in Hl, Hs, Hh, Hc, Hcr.
  split; [|split; [|split; [|split; [exact Hs|split; [exact Hh|split; [exact Hc|]]]]]].
  - intros req Htok Hcrw Hli. unfold step. rewrite Hcrw, Hli.
    unfold onConnection. rewrite Htok, authenticate_authenticateWhen. reflexivity.
  - intros Hr. destruct (Hrej Hr) as (-> & -> & ->). exact Hl.
  - intros m Hm. destruct (Hthrew m Hm) as (-> & -> & ->). exact Hl.
  - intros Hcrw Hfound data isBinary now. unfold step. rewrite Hcr, Hcrw, Hs.
    rewrite list_lookup_middle by reflexivity.
    destruct found; try reflexivity. contradiction.
Qed.

(** Losing the upstream session does not end the connection.  In a
    well-formed world the [close] and [error] handlers of an
    upstream socket call [close] on no socket and leave [connections] as
    it is: but for the state of the socket that emitted the event every
    socket is what it was.  If the client socket of the record is open it
    is sent one error frame, with the close code and the reason ([Unknown
    reason] for an empty one) or with the error message; otherwise
    nothing is written. *)
Theorem upstream_loss_keeps_client
    (s r : nat) (cid : string) (config : json) (rs : ReadyState) (e : bool) (w : World) :
  wellFormed w ->
  crashed w = false ->
  socks w !! s = Some (mkSock (UpstreamSock r cid config) rs e) ->
  rs <> CLOSED ->
  exists conn,
    heap w !! r = Some conn
    /\ (forall code reason, exists w',
          step JSON_parse SONIOX_API_KEY w (SonioxClose s code reason) = Some w'
          /\ connections w' = connections w
          /\ (forall s', s' <> s -> socks w' !! s' = socks w !! s')
          /\ log w' = log w
               ++ (if isOpen (clientWs conn) w
                   then [ASend (clientWs conn) ClientLeg OPEN
                           (PJson (JObj [("type", JStr "error");
                                         ("message",
                                          JStr (String.append "Soniox connection closed: "
                                                  match reason with
                                                  | Some b => if isEmpty b
                                                              then "Unknown reason" else b
                                                  | None => "No reason provided"
                                                  end));
                                         ("code", JNum code)]))]
                   else []))
    /\ (forall message, exists w',
          step JSON_parse SONIOX_API_KEY w (SonioxError s message) = Some w'
          /\ connections w' = connections w
          /\ (forall s', s' <> s -> socks w' !! s' = socks w !! s')
          /\ log w' = log w
               ++ (if isOpen (clientWs conn) w
                   then [ASend (clientWs conn) ClientLeg OPEN
                           (PJson (JObj [("type", JStr "error");
                                         ("message",
                                          JStr (String.append "Soniox connection error: "
                                                  message))]))]
                   else [])).
Proof.
  intros (Hr & Hu & _) Hcr Hs Hrs.
  pose proof (Hu s _ r cid config Hs eq_refl) as Hid.
  destruct (heap w !! r) as [conn|] eqn:Hrc; [|discriminate].
  destruct (Hr r conn Hrc) as ((rsc & ec & Hcl) & _).
  assert (clientWs conn <> s) as Hne by (intros Heq; rewrite Heq, Hs in Hcl; discriminate).
  exists conn. split; [reflexivity|]. split.
  - intros code reason.
    exists (onSonioxClose r code reason (setState s CLOSED w)). split.
    { unfold step. rewrite Hcr, Hs. destruct rs; [reflexivity..|contradiction]. }
    eapply (upstream_lost_effect s r CLOSED conn _ w _ _ _ _ Hrc Hs Hne Hcl).
    unfold onSonioxClose.
    assert (heap (setState s CLOSED w) !! r = Some conn) as ->
      by (unfold setState; rewrite Hs; exact Hrc).
    destruct reason as [b|]; [destruct b|]; reflexivity.
  - intros message.
    exists (onSonioxError r message (setState s CLOSING w)). split.
    { unfold step. rewrite Hcr, Hs. destruct rs; [reflexivity..|contradiction]. }
    eapply (upstream_lost_effect s r CLOSING conn _ w _ _ _ _ Hrc Hs Hne Hcl).
    unfold onSonioxError.
    assert (heap (setState s CLOSING w) !! r = Some conn) as ->
      by (unfold setState; rewrite Hs; exact Hrc).
    reflexivity.
Qed.

(** The provider config is a whitelist.  Whatever the client config
    holds, the object sent to the provider has no field but the ten the
    handler writes, and its [api_key] is the server's.  Each of the six
    fields read with [||] gets its default when the client value is falsy
    (absent, [null], [0], the empty string, [false]).  The two flags are
    read with [!== false]: each is [false] when the client gave exactly
    [false] and [true] for anything else, absent or falsy or not.  There
    is no [translation] unless the client gave one with a truthy
    [target_language].  The older copies forward the client config
    instead: every field the client sent but [action] reaches the
    provider. *)
Theorem provider_config_is_a_whitelist (config : json) :
  (forall k v, field k (sonioxConfig SONIOX_API_KEY config) = Some v ->
     In k ["api_key"; "model"; "audio_format"; "sample_rate"; "num_channels";
           "include_nonfinal"; "language_hints"; "enable_endpoint_detection";
           "max_non_final_tokens_duration_ms"; "translation"])
  /\ (forall k d,
        In (k, d) [("model", JStr "stt-rt-preview"); ("audio_format", JStr "pcm_s16le");
                   ("sample_rate", JNum 16000); ("num_channels", JNum 1);
                   ("language_hints", JArr [JStr "en"]);
                   ("max_non_final_tokens_duration_ms", JNum 4000)] ->
        truthy (field k config) = false ->
        field k (sonioxConfig SONIOX_API_KEY config) = Some d)
  /\ field "api_key" (sonioxConfig SONIOX_API_KEY config) = Some (JStr SONIOX_API_KEY)
  /\ (forall k, In k ["include_nonfinal"; "enable_endpoint_detection"] ->
        (field k config = Some (JBool false) ->
         field k (sonioxConfig SONIOX_API_KEY config) = Some (JBool false))
        /\ (field k config <> Some (JBool false) ->
            field k (sonioxConfig SONIOX_API_KEY config) = Some (JBool true)))
  /\ (truthy (field "translation" config) = false
      \/ (exists translation, field "translation" config = Some translation
            /\ truthy (field "target_language" translation) = false) ->
      field "translation" (sonioxConfig SONIOX_API_KEY config) = None)
  /\ (forall fs k v, config = JObj fs -> k <> "action" -> field k config = Some v ->
        forall s r w sk, socks w !! s = Some sk ->
          log (HeaderAuth.onSonioxOpen s r config w)
          = log w ++ [ASend s (legOf (kind sk)) (readyState sk)
                        (PJson (JObj (deleteAction fs)))]
          /\ field k (JObj (deleteAction fs)) = Some v).
Proof.
  assert (List.map fst (translationConfig config) = []
          \/ List.map fst (translationConfig config) = ["translation"]) as Hkeys.
  { unfold translationConfig. destruct (truthy (field "translation" config)); [|auto].
    destruct (truthy (field "target_language" _)); auto. }
  split; [|split; [|split; [reflexivity|split; [|split]]]].
  - intros k v H. unfold sonioxConfig, field in H. apply assoc_In in H.
    rewrite map_app in H. cbn [List.map fst] in H. apply in_app_or in H as [H|H].
    + simpl in H. simpl. tauto.
    + destruct Hkeys as [Hk|Hk]; rewrite Hk in H; simpl in H; simpl; tauto.
  - intros k d Hin Hf. simpl in Hin.
    repeat (destruct Hin as [[= <- <-]|Hin];
            [unfold sonioxConfig; simpl; rewrite (orElse_falsy _ _ Hf); reflexivity|]).
    destruct Hin.
  - intros k Hin. simpl in Hin.
    destruct Hin as [<-|[<-|[]]]; (split; [intros Hk|intros Hk]);
      unfold sonioxConfig; simpl; try (rewrite Hk; reflexivity);
      (destruct (field _ config) as [[|[]| | | |]|]; try reflexivity;
       destruct (Hk eq_refl)).
  - intros Hno. unfold sonioxConfig, translationConfig. cbn [field].
    destruct Hno as [Hno|(translation & Htr & Hno)].
    + rewrite Hno. reflexivity.
    + rewrite Htr. destruct (truthy (Some translation)) eqn:Ht; [|reflexivity].
      rewrite (orElse_truthy _ _ Ht), Hno. reflexivity.
  - intros fs k v -> Hk Hf s r w sk Hs. split.
    + unfold HeaderAuth.onSonioxOpen, ws_send. rewrite socks_setSonioxWs, Hs.
      cbn [log emit spread]. unfold setSonioxWs. destruct (heap w !! r); reflexivity.
    + simpl. rewrite assoc_deleteAction by exact Hk. exact Hf.
Qed.

Lemma assoc_existsb {A : Type} (k : string) (l : list (string * A)) (v : A) :
  assoc k l = Some v -> existsb (fun kv => String.eqb (fst kv) k) l = true.
Proof.
  induction l as [|[k' v'] l IH]; simpl; [discriminate|].
  rewrite (String.eqb_sym k' k). destruct (String.eqb k k'); [reflexivity|exact IH].
Qed.

(** A language that cannot be printed ends the process.  When the
    upstream socket opens, the handler logs the translation in a template
    literal before it sends the config.  If the client config has a
    [translation] with a truthy [target_language], and that value or a
    truthy [source_language] is an object with an own [toString] property
    (or an array that holds one), the conversion raises a [TypeError]:
    nothing is sent to the provider and the process ends.  For every other
    config but [null] the handler sends the provider config and returns;
    languages that are strings never raise. *)
Theorem unprintable_language_ends_process
    (s r : nat) (cid : string) (config : json) (e : bool) (w : World) :
  crashed w = false ->
  socks w !! s = Some (mkSock (UpstreamSock r cid config) CONNECTING e) ->
  config <> JNull ->
  (translationLogThrows config = true ->
   step JSON_parse SONIOX_API_KEY w (SonioxOpen s) = Some (setCrashed w))
  /\ (translationLogThrows config = false ->
      exists w',
        step JSON_parse SONIOX_API_KEY w (SonioxOpen s) = Some w'
        /\ crashed w' = false
        /\ log w' = log w ++ [ASend s UpstreamLeg OPEN
                                (PJson (sonioxConfig SONIOX_API_KEY config))])
  /\ (translationLogThrows config = true <->
      exists translation target,
        field "translation" config = Some translation
        /\ field "target_language" translation = Some target
        /\ truthy (Some target) = true
        /\ (toStringThrows target = true
            \/ exists source,
                 field "source_language" translation = Some source
                 /\ truthy (Some source) = true /\ toStringThrows source = true))
  /\ (forall translation fs v,
        field "translation" config = Some translation ->
        field "target_language" translation = Some (JObj fs) ->
        assoc "toString" fs = Some v ->
        translationLogThrows config = true)
  /\ (forall translation,
        field "translation" config = Some translation ->
        toStringThrows (orElse (field "target_language" translation) JNull) = false ->
        toStringThrows (orElse (field "source_language" translation) JNull) = false ->
        translationLogThrows config = false).
Proof.
  intros Hcr Hs Hnull.
  assert (forall b, translationLogThrows config = b ->
            onSonioxOpen SONIOX_API_KEY s r config (markOpen s w)
            = if b then Throw "TypeError: Cannot convert object to primitive value"
              else Ok (ws_send s (PJson (sonioxConfig SONIOX_API_KEY config))
                         (setSonioxWs r (Some s) (markOpen s w)))) as Hopen.
  { intros b Hb. unfold onSonioxOpen. rewrite Hb.
    destruct config; try reflexivity. destruct (Hnull eq_refl). }
  split; [|split; [|split; [|split]]].
  3:{ unfold translationLogThrows. split.
      - intros H. apply andb_true_iff in H as (H & Hthrows).
        apply andb_true_iff in H as (Htr & Htarget).
        destruct (field "translation" config) as [translation|] eqn:Ef; [|discriminate].
        rewrite (orElse_truthy _ _ Htr) in Htarget, Hthrows.
        destruct (field "target_language" translation) as [target|] eqn:Et; [|discriminate].
        rewrite (orElse_truthy _ _ Htarget) in Hthrows.
        exists translation, target. split; [reflexivity|]. split; [exact Et|].
        split; [exact Htarget|].
        apply orb_true_iff in Hthrows as [Hsrc|Htgt]; [right|left; exact Htgt].
        apply andb_true_iff in Hsrc as (Hsrc & Hst).
        destruct (field "source_language" translation) as [source|] eqn:Es; [|discriminate].
        rewrite (orElse_truthy _ _ Hsrc) in Hst. exists source. auto.
      - intros (translation & target & Htr & Ht & Htarget & Hthrows).
        assert (truthy (Some translation) = true) as Hobj
          by (destruct translation; try discriminate Ht; reflexivity).
        rewrite Htr, Hobj, (orElse_truthy _ _ Hobj), Ht, Htarget, (orElse_truthy _ _ Htarget).
        cbn [andb]. destruct Hthrows as [->|(source & -> & Hsrc & Hst)];
          [apply orb_true_r|].
        rewrite Hsrc, (orElse_truthy _ _ Hsrc), Hst. reflexivity. }
  - intros Ht. unfold step. rewrite Hcr, Hs, (Hopen _ Ht). reflexivity.
  - intros Ht. unfold step. rewrite Hcr, Hs, (Hopen _ Ht). cbn [orCrash].
    eexists. split; [reflexivity|].
    rewrite (ws_send_open s _ _ (UpstreamSock r cid config) true)
      by (rewrite socks_setSonioxWs; apply (markOpen_lookup _ _ _ Hs)).
    split.
    + cbn [crashed emit]. unfold setSonioxWs, markOpen. rewrite Hs.
      destruct (heap _ !! r); simpl; exact Hcr.
    + cbn [log emit]. unfold setSonioxWs, markOpen. rewrite Hs.
      destruct (heap _ !! r); reflexivity.
  - intros translation fs v Htr Htarget Hv. unfold translationLogThrows.
    assert (truthy (Some translation) = true) as Hobj
      by (destruct translation; try discriminate Htarget; reflexivity).
    rewrite Htr, Hobj, (orElse_truthy _ _ Hobj), Htarget. cbn [truthy andb orElse].
    cbn [toStringThrows]. rewrite (assoc_existsb _ _ _ Hv). apply orb_true_r.
  - intros translation Htr Htarget Hsource. unfold translationLogThrows.
    rewrite Htr. destruct (truthy (Some translation)) eqn:Hobj; [|reflexivity].
    rewrite (orElse_truthy _ _ Hobj), Htarget, Hsource.
    rewrite andb_false_r. apply andb_false_r.
Qed.

(** An event on a closed client socket cannot occur. *)
Lemma closed_client_is_silent (w w' : World) (e : Event) (cid : string) :
  (forall s sk, socks w !! s = Some sk -> ownerOf sk = Some cid ->
     kind sk = ClientSock (Some cid) /\ readyState sk = CLOSED) ->
  replaces cid e = false ->
  step JSON_parse SONIOX_API_KEY w e = Some w' ->
  subject w e <> Some cid.
Proof.
  intros Hclosed Hrep Hstep Hsub.
  destruct e as [c req auth|s data isBinary now|s|s|s|s data|s code reason|s message|s|ids];
    cbn [subject replaces] in *;
    try (injection Hsub as ->; rewrite String.eqb_refl in Hrep; discriminate);
    try discriminate;
    (destruct (socks w !! s) as [sk|] eqn:Hs; [|discriminate];
     simpl in Hsub; destruct (Hclosed s sk Hs Hsub) as (Hk & Hrs);
     destruct sk as [k rs est]; simpl in Hk, Hrs; subst k rs;
     unfold step in Hstep; rewrite Hs in Hstep;
     destruct (crashed w); discriminate).
Qed.

(** A client that disconnects while its token is verified leaves a
    record behind.  The [close] event of the client socket fires during
    the [await], when no listener is registered yet.  When the verifier
    then accepts the token, the handler registers the connection all the
    same: no frame is sent (the socket is not open), the record is in
    [connections], and its socket is closed, so that none of its events
    can occur any more.  If the id is not in use otherwise, no run of
    events removes the record, except SIGTERM or an upgrade that draws the
    same id again. *)
Theorem disconnect_during_verification_leaves_record
    (cid tok id : string) (w : World) :
  wellFormed w ->
  isEmpty tok = false ->
  (forall s sk, socks w !! s = Some sk -> ownerOf sk <> Some cid) ->
  let w' := authenticateWhen CLOSED cid (Some tok) (AuthUser id) w in
  log w' = log w ++ [AVerify tok]
  /\ socks w' = socks w ++ [mkSock (ClientSock (Some cid)) CLOSED true]
  /\ heap w' = heap w ++ [mkConn (List.length (socks w)) None cid false]
  /\ connections w' !! cid = Some (List.length (heap w))
  /\ forall tr w'',
       Forall (fun e => replaces cid e = false) tr ->
       run JSON_parse SONIOX_API_KEY w' tr = Some w'' ->
       connections w'' !! cid = Some (List.length (heap w))
       /\ heap w'' !! List.length (heap w)
          = Some (mkConn (List.length (socks w)) None cid false)
       /\ socks w'' !! List.length (socks w)
          = Some (mkSock (ClientSock (Some cid)) CLOSED true).
Proof.
  intros Hwf Hne Hfresh w'.
  destruct (authenticateWhen_user CLOSED cid (Some tok) id w) as (Hs & Hh & Hc & _ & Hl).
  { simpl. rewrite Hne. reflexivity. }
  fold w' in Hs, Hh, Hc, Hl. simpl in Hl.
  split; [exact Hl|]. split; [exact Hs|]. split; [exact Hh|].
  split; [rewrite Hc; apply lookup_insert_eq|].
  assert (wellFormed w') as Hwf' by (apply wellFormed_authenticateWhen; exact Hwf).
  assert (forall s sk, socks w' !! s = Some sk -> ownerOf sk = Some cid ->
            kind sk = ClientSock (Some cid) /\ readyState sk = CLOSED) as Hclosed.
  { intros s sk Hsk Hown. rewrite Hs in Hsk.
    destruct (decide (s < List.length (socks w))) as [Hlt|Hge].
    - rewrite lookup_app_l in Hsk by exact Hlt. destruct (Hfresh s sk Hsk Hown).
    - rewrite lookup_app_r in Hsk by lia.
      destruct (s - List.length (socks w)) as [|n]; simpl in Hsk; [|discriminate].
      injection Hsk as <-. auto. }
  assert (connections w' !! cid = Some (List.length (heap w))) as Hreg
    by (rewrite Hc; apply lookup_insert_eq).
  assert (heap w' !! List.length (heap w)
          = Some (mkConn (List.length (socks w)) None cid false)) as Hrec
    by (rewrite Hh; apply list_lookup_middle; reflexivity).
  assert (socks w' !! List.length (socks w)
          = Some (mkSock (ClientSock (Some cid)) CLOSED true)) as Hsock
    by (rewrite Hs; apply list_lookup_middle; reflexivity).
  clearbody w'. clear Hs Hh Hc Hl Hfresh Hwf.
  intros tr. revert w' Hwf' Hclosed Hreg Hrec Hsock.
  induction tr as [|e tr IH]; intros w' Hwf' Hclosed Hreg Hrec Hsock w'' Hall; simpl.
  { intros [= <-]. auto. }
  apply Forall_cons in Hall as (He & Hall).
  destruct (step JSON_parse SONIOX_API_KEY w' e) as [w1|] eqn:Hstep; [|discriminate].
  pose proof (closed_client_is_silent w' w1 e cid Hclosed He Hstep) as Hsub.
  assert (forall ids, e <> Sigterm ids) as Hsig by (intros ids ->; discriminate He).
  destruct (step_confined JSON_parse SONIOX_API_KEY w' w1 e Hwf' Hsig Hstep)
    as (Hs1 & Hnew & Hh1 & Hc1 & _).
  apply (IH w1); [eapply wellFormed_step; eauto| | | | |exact Hall].
  - intros s sk1 Hsk1 Hown. destruct (socks w' !! s) as [sk|] eqn:Hsk.
    + destruct (Hs1 s sk Hsk) as (sk' & Hsk' & Ho & Hkeep).
      rewrite Hsk1 in Hsk'. injection Hsk' as <-.
      destruct Hkeep as (-> & _); [congruence|]. apply (Hclosed s sk Hsk). congruence.
    + apply lookup_ge_None in Hsk. destruct (Hnew s sk1 Hsk1 Hsk) as [H|H]; congruence.
  - rewrite Hc1; [exact Hreg|congruence].
  - destruct (Hh1 _ _ Hrec) as (c' & Hrc' & _ & Hkeep). simpl in Hkeep.
    rewrite Hkeep in Hrc'; [exact Hrc'|congruence].
  - destruct (Hs1 _ _ Hsock) as (sk' & Hsk' & _ & Hkeep). unfold ownerOf in Hkeep.
    simpl in Hkeep. destruct Hkeep as (-> & _); [congruence|exact Hsk'].
Qed.

End Whole.

(** ** The HTTP endpoints *)

Lemma bearerToken_Bearer (token : string) :
  bearerToken (Some (String.append "Bearer " token)) = Some token.
Proof. unfold bearerToken, startsWith. simpl. destruct token; reflexivity. Qed.

Lemma existsb_eqb_In (s : string) (l : list string) :
  existsb (String.eqb s) l = true <-> In s l.
Proof.
  rewrite existsb_exists. split.
  - intros (x & Hin & Heq). apply String.eqb_eq in Heq. subst. exact Hin.
  - intros Hin. exists s. split; [exact Hin|apply String.eqb_refl].
Qed.

Lemma voice_name_valid (numberToString : Z -> string) (s v : string) :
  realtimeVoice numberToString (JStr s) = Ok (VoiceName v) -> In v VALID_REALTIME_VOICES.
Proof.
  unfold realtimeVoice.
  destruct (existsb (String.eqb s) VALID_REALTIME_VOICES) eqn:Hv.
  - intros [= <-]. apply existsb_eqb_In. exact Hv.
  - unfold voiceMapGet. destruct (assoc s REALTIME_VOICE_MAP) as [m|] eqn:Hm.
    + simpl. intros [= <-]. simpl in Hm.
      repeat match type of Hm with
             | (if ?b then _ else _) = _ => destruct b; [injection Hm as <-; simpl; tauto|]
             end.
      discriminate Hm.
    + destruct (String.eqb s "__proto__"); [discriminate|].
      destruct (existsb (String.eqb s) inheritedMethods); [discriminate|].
      simpl. intros [= <-]. simpl. tauto.
Qed.

(** The voice asked of the Realtime API.  A name of
    [VALID_REALTIME_VOICES] is kept.  Any other string gives a name of
    that list, the one [REALTIME_VOICE_MAP] holds for it or else [coral],
    unless it names a member of [Object.prototype]: for [constructor],
    [toString], [__proto__] and the like the lookup finds the inherited
    member, [voice] is no string, and the [voice] property that reaches
    the provider and the client is missing or an empty object.  Mapping
    is idempotent, and without a [voice] parameter the voice is
    [coral]. *)
Theorem realtime_voice_is_valid (numberToString : Z -> string) :
  (forall s, In s VALID_REALTIME_VOICES -> realtimeVoice numberToString (JStr s) = Ok (VoiceName s))
  /\ (forall s, s <> "__proto__" -> ~ In s inheritedMethods ->
        exists v, realtimeVoice numberToString (JStr s) = Ok (VoiceName v)
                  /\ In v VALID_REALTIME_VOICES
                  /\ (~ In s VALID_REALTIME_VOICES -> assoc s REALTIME_VOICE_MAP = None ->
                      v = "coral"))
  /\ (forall s, s = "__proto__" \/ In s inheritedMethods ->
        exists v, realtimeVoice numberToString (JStr s) = Ok v
                  /\ (forall name, v <> VoiceName name)
                  /\ (voiceJson v = None \/ voiceJson v = Some (JObj [])))
  /\ (forall s v, realtimeVoice numberToString (JStr s) = Ok (VoiceName v) ->
        realtimeVoice numberToString (JStr v) = Ok (VoiceName v))
  /\ realtimeVoice numberToString (orElse None (JStr "nova")) = Ok (VoiceName "coral").
Proof.
  assert (forall s, In s VALID_REALTIME_VOICES -> realtimeVoice numberToString (JStr s) = Ok (VoiceName s))
    as Hkept.
  { intros s Hin. unfold realtimeVoice.
    rewrite (proj2 (existsb_eqb_In s VALID_REALTIME_VOICES) Hin). reflexivity. }
  split; [exact Hkept|]. split; [|split; [|split; [|reflexivity]]].
  - intros s Hp Hi.
    assert (exists v, realtimeVoice numberToString (JStr s) = Ok (VoiceName v)
                      /\ (~ In s VALID_REALTIME_VOICES -> assoc s REALTIME_VOICE_MAP = None ->
                          v = "coral")) as (v & Hv & Hc).
    { unfold realtimeVoice.
      destruct (existsb (String.eqb s) VALID_REALTIME_VOICES) eqn:Hvalid.
      - exists s. split; [reflexivity|]. intros Hn. apply existsb_eqb_In in Hvalid. contradiction.
      - unfold voiceMapGet. destruct (assoc s REALTIME_VOICE_MAP) as [m|] eqn:Hm.
        + exists m. split; [reflexivity|discriminate].
        + rewrite (proj2 (String.eqb_neq _ _) Hp).
          destruct (existsb (String.eqb s) inheritedMethods) eqn:He.
          * apply existsb_eqb_In in He. contradiction.
          * exists "coral". split; reflexivity. }
    exists v. split; [exact Hv|]. split; [eapply voice_name_valid; eauto|exact Hc].
  - intros s Hs.
    assert (existsb (String.eqb s) VALID_REALTIME_VOICES = false
            /\ assoc s REALTIME_VOICE_MAP = None) as (Hv & Hm).
    { destruct Hs as [->|Hs]; [split; reflexivity|].
      simpl in Hs. repeat (destruct Hs as [<-|Hs]; [split; reflexivity|]). destruct Hs. }
    unfold realtimeVoice, voiceMapGet. rewrite Hv, Hm.
    destruct (String.eqb_spec s "__proto__") as [Heq|Hne].
    + exists ThePrototype. split; [reflexivity|]. split; [discriminate|auto].
    + destruct Hs as [Hs|Hs]; [contradiction|].
      rewrite (proj2 (existsb_eqb_In s inheritedMethods) Hs).
      exists (InheritedMethod s). split; [reflexivity|]. split; [discriminate|auto].
  - intros s v Hv. apply Hkept. eapply voice_name_valid; eauto.
Qed.

(** Case analysis on everything a handler branches on. *)
Ltac branches :=
  repeat match goal with
         | |- context [match ?x with _ => _ end] => destruct x eqn:?
         end.

Section HttpProperties.

Variable numberToString : Z -> string.
Variable JSON_parse : string -> option json.
Variable encodeURIComponent : string -> option string.
Variable clampSpeed : option json -> Result json.
Variable OPENAI_API_KEY : string.
Variable DEEPGRAM_API_KEY : option string.

Lemma withUser_gated (env : Env) (req : HttpRequest) (rest : list Call * Result HttpResponse) :
  fst rest = [] \/ (exists u a b, fst rest = [Fetch u a b]) ->
  gated env req (fst (withUser env req rest))
  /\ (forall res, snd (withUser env req rest) = Ok res -> status res = 200%Z ->
        exists id, user env = AuthUser id).
Proof.
  intros Hrest. unfold withUser, gated.
  destruct (bearerToken (authHeader req)) as [token|] eqn:Hb; simpl.
  2:{ split; [auto|]. intros res [= <-]. discriminate. }
  destruct (user env) as [id| |m] eqn:Hu; simpl.
  - split; [|eauto]. destruct Hrest as [->|(u & a & b & ->)].
    + right. left. eauto.
    + right. right. exists token, id, u, a, b. auto.
  - split; [right; left; eauto|]. intros res [= <-]. discriminate.
  - split; [right; left; eauto|]. discriminate.
Qed.

Lemma catch_gated (env : Env) (req : HttpRequest) (out : list Call * Result HttpResponse) :
  gated env req (fst out)
  /\ (forall res, snd out = Ok res -> status res = 200%Z -> exists id, user env = AuthUser id) ->
  gated env req (fst (catch out))
  /\ (status (snd (catch out)) = 200%Z -> exists id, user env = AuthUser id).
Proof.
  intros (Hg & Hs). destruct out as [calls [res|e]]; simpl in *.
  - split; [exact Hg|]. apply Hs. reflexivity.
  - split; [exact Hg|]. discriminate.
Qed.

Lemma passOn_calls (call : Call) (prefix : string) (st : Z) (payload : option string) :
  fst (passOn call prefix st payload) = [call].
Proof. unfold passOn. destruct payload; [destruct (validStatus st)|]; reflexivity. Qed.

(** What follows the verifier makes at most one call, to a provider. *)
Ltac one_fetch :=
  cbv zeta; branches; cbn [fst]; rewrite ?passOn_calls; eauto.

Lemma openaiToken_gated (env : Env) (req : HttpRequest) :
  gated env req (fst (openaiToken OPENAI_API_KEY env req))
  /\ (forall res, snd (openaiToken OPENAI_API_KEY env req) = Ok res -> status res = 200%Z ->
        exists id, user env = AuthUser id).
Proof. apply withUser_gated. auto. Qed.

Lemma sonioxToken_gated (env : Env) (req : HttpRequest) :
  gated env req (fst (sonioxToken env req))
  /\ (forall res, snd (sonioxToken env req) = Ok res -> status res = 200%Z ->
        exists id, user env = AuthUser id).
Proof. apply withUser_gated. auto. Qed.

Lemma ephemeralToken_gated (env : Env) (req : HttpRequest) :
  gated env req (fst (ephemeralToken numberToString JSON_parse OPENAI_API_KEY env req))
  /\ (forall res, snd (ephemeralToken numberToString JSON_parse OPENAI_API_KEY env req) = Ok res ->
        status res = 200%Z -> exists id, user env = AuthUser id).
Proof. apply withUser_gated. one_fetch. Qed.

Lemma openaiTts_gated (env : Env) (req : HttpRequest) :
  gated env req (fst (openaiTts JSON_parse OPENAI_API_KEY env req))
  /\ (forall res, snd (openaiTts JSON_parse OPENAI_API_KEY env req) = Ok res ->
        status res = 200%Z -> exists id, user env = AuthUser id).
Proof. apply withUser_gated. one_fetch. Qed.

Lemma deepgramTts_gated (env : Env) (req : HttpRequest) :
  gated env req (fst (deepgramTts numberToString JSON_parse encodeURIComponent DEEPGRAM_API_KEY env req))
  /\ (forall res,
        snd (deepgramTts numberToString JSON_parse encodeURIComponent DEEPGRAM_API_KEY env req) = Ok res ->
        status res = 200%Z -> exists id, user env = AuthUser id).
Proof.
  unfold deepgramTts. destruct (negb (truthyStr DEEPGRAM_API_KEY)).
  - split; [left; reflexivity|]. intros res [= <-]. discriminate.
  - apply withUser_gated. one_fetch.
Qed.

Lemma openaiTtsSecond_gated (env : Env) (req : HttpRequest) :
  gated env req (fst (openaiTtsSecond JSON_parse clampSpeed OPENAI_API_KEY env req))
  /\ (forall res,
        snd (openaiTtsSecond JSON_parse clampSpeed OPENAI_API_KEY env req) = Ok res ->
        status res = 200%Z -> exists id, user env = AuthUser id).
Proof.
  unfold openaiTtsSecond. destruct (isEmpty OPENAI_API_KEY).
  - split; [left; reflexivity|]. intros res [= <-]. discriminate.
  - apply withUser_gated. one_fetch.
Qed.

Lemma handleRequest_route (env : Env) (req : HttpRequest) :
  handleRequest numberToString JSON_parse encodeURIComponent clampSpeed OPENAI_API_KEY DEEPGRAM_API_KEY env req
  = (fst (route numberToString JSON_parse encodeURIComponent clampSpeed OPENAI_API_KEY DEEPGRAM_API_KEY
            env req),
     mkResponse
       (status (snd (route numberToString JSON_parse encodeURIComponent clampSpeed OPENAI_API_KEY
                       DEEPGRAM_API_KEY env req)))
       (corsHeaders
        ++ headers (snd (route numberToString JSON_parse encodeURIComponent clampSpeed OPENAI_API_KEY
                           DEEPGRAM_API_KEY env req)))
       (resBody (snd (route numberToString JSON_parse encodeURIComponent clampSpeed OPENAI_API_KEY
                        DEEPGRAM_API_KEY env req)))).
Proof. unfold handleRequest. destruct (route _ _ _ _ _ _ _ _). reflexivity. Qed.

(** No provider is called, and no [200] is given outside the preflight
    and the health check, unless the verifier accepted the bearer token of
    the request.  The calls of a request are none at all, or
    [getUser(token)] alone with the token that follows [Bearer ] in the
    [Authorization] header, or that call followed by exactly one [fetch],
    and then the verifier answered with a user.  Without such a header
    nothing is called. *)
Theorem provider_calls_need_a_verified_user (env : Env) (req : HttpRequest) :
  let out := handleRequest numberToString JSON_parse encodeURIComponent clampSpeed OPENAI_API_KEY
               DEEPGRAM_API_KEY env req in
  (fst out = []
   \/ (exists token, bearerToken (authHeader req) = Some token /\ fst out = [GetUser token])
   \/ (exists token id u a b,
         bearerToken (authHeader req) = Some token /\ user env = AuthUser id
         /\ fst out = [GetUser token; Fetch u a b]))
  /\ (bearerToken (authHeader req) = None -> fst out = [])
  /\ (status (snd out) = 200%Z ->
      method req = "OPTIONS" \/ url req = "/health" \/ url req = "/"
      \/ exists id, user env = AuthUser id).
Proof.
  intros out. subst out. rewrite handleRequest_route. cbn [fst snd status].
  assert (gated env req (fst (route numberToString JSON_parse encodeURIComponent clampSpeed OPENAI_API_KEY
                                 DEEPGRAM_API_KEY env req))
          /\ (status (snd (route numberToString JSON_parse encodeURIComponent clampSpeed OPENAI_API_KEY
                             DEEPGRAM_API_KEY env req)) = 200%Z ->
              method req = "OPTIONS" \/ url req = "/health" \/ url req = "/"
              \/ exists id, user env = AuthUser id)) as (Hg & Hs).
  { unfold route.
    destruct (String.eqb_spec (method req) "OPTIONS") as [Hm|Hm]; [split; [left|]; auto|].
    destruct (String.eqb_spec (url req) "/health") as [Hh|Hh]; [split; [left|]; auto|].
    destruct (String.eqb_spec (url req) "/") as [Hr|Hr]; [split; [left|]; auto|].
    cbn [orb].
    assert (forall out,
              gated env req (fst out)
              /\ (forall res, snd out = Ok res -> status res = 200%Z ->
                    exists id, user env = AuthUser id) ->
              gated env req (fst (catch out))
              /\ (status (snd (catch out)) = 200%Z ->
                  method req = "OPTIONS" \/ url req = "/health" \/ url req = "/"
                  \/ exists id, user env = AuthUser id)) as Hcatch.
    { intros o Ho. destruct (catch_gated env req o Ho) as (? & ?). auto 6. }
    repeat match goal with
           | |- context [if ?b then _ else _] => destruct b
           end;
      first [apply Hcatch; first [apply openaiToken_gated | apply ephemeralToken_gated
                                 | apply sonioxToken_gated | apply openaiTts_gated
                                 | apply deepgramTts_gated | apply openaiTtsSecond_gated]
            |split; [left; reflexivity|discriminate]]. }
  split; [exact Hg|]. split; [|exact Hs].
  intros Hno. destruct Hg as [H|[(token & Hb & _)|(token & id & u & a & b & Hb & _)]];
    [exact H|congruence|congruence].
Qed.

(** Outside the endpoints.  A preflight request gets [200] with the CORS
    headers and no body, whatever its URL, before anything is checked.
    [/health] and [/] answer any other method with the health object.  A
    URL that is none of the six, and any of the five endpoints asked with
    a method other than POST, gets [404 Not Found].  None of these calls
    the verifier or a provider, and every response of the callback carries
    the three CORS headers. *)
Theorem requests_outside_the_endpoints (env : Env) (req : HttpRequest) :
  let handle := handleRequest numberToString JSON_parse encodeURIComponent clampSpeed OPENAI_API_KEY
                  DEEPGRAM_API_KEY env in
  (method req = "OPTIONS" -> handle req = ([], mkResponse 200 corsHeaders BNone))
  /\ (method req <> "OPTIONS" -> url req = "/health" \/ url req = "/" ->
      handle req
      = ([], mkResponse 200 (corsHeaders ++ [("Content-Type", "application/json")])
               (BJson (JObj [("status", JStr "healthy"); ("service", JStr "soniox-proxy");
                             ("timestamp", JStr (isoNow env))]))))
  /\ (method req <> "OPTIONS" -> url req <> "/health" -> url req <> "/" ->
      method req <> "POST"
      \/ ~ In (url req) ["/openai/token"; "/api/openai/ephemeral-token"; "/api/soniox/token";
                         "/api/openai/tts"; "/api/deepgram/tts"] ->
      handle req = ([], mkResponse 404 corsHeaders (BText "Not Found")))
  /\ exists rest, headers (snd (handle req)) = corsHeaders ++ rest.
Proof.
  intros handle. subst handle. split; [|split; [|split]].
  - intros Hm. unfold handleRequest, route. rewrite Hm. reflexivity.
  - intros Hm Hu. unfold handleRequest, route.
    rewrite (proj2 (String.eqb_neq _ _) Hm).
    destruct Hu as [-> | ->]; reflexivity.
  - intros Hm Hh Hr Hout. unfold handleRequest, route.
    rewrite (proj2 (String.eqb_neq _ _) Hm), (proj2 (String.eqb_neq _ _) Hh),
      (proj2 (String.eqb_neq _ _) Hr).
    cbn [orb]. destruct Hout as [Hp|Hu].
    + rewrite (proj2 (String.eqb_neq _ _) Hp). rewrite !andb_false_r. reflexivity.
    + simpl in Hu.
      repeat match goal with
             | |- context [String.eqb (url req) ?p] =>
                 destruct (String.eqb_spec (url req) p) as [Heq|_];
                 [exfalso; apply Hu; rewrite Heq; tauto|]
             end.
      reflexivity.
  - rewrite handleRequest_route. cbn [snd headers]. eauto.
Qed.

Lemma catch_calls (out : list Call * Result HttpResponse) : fst (catch out) = fst out.
Proof. destruct out as [calls [res|e]]; reflexivity. Qed.

Lemma openaiTts_fetch (env : Env) (req : HttpRequest) (u a : string) (b : json) :
  In (Fetch u a b) (fst (openaiTts JSON_parse OPENAI_API_KEY env req)) ->
  exists text model voice,
    b = JObj [("model", model); ("input", text); ("voice", voice);
              ("speed", orElse (field "speed" (parseParams JSON_parse (body req))) (JNum 1));
              ("response_format", JStr "mp3")].
Proof.
  unfold openaiTts, withUser. cbv zeta.
  destruct (bearerToken (authHeader req)) as [token|]; [|intros []].
  destruct (user env) as [id| |m]; cbn [fst snd];
    try (intros [Hin|[]]; discriminate Hin).
  destruct (getProp "text" (parseParams JSON_parse (body req))) as [textParam|e];
    [|intros [Hin|[]]; discriminate Hin].
  destruct (truthy (orUndef textParam (field "input" (parseParams JSON_parse (body req)))))
    eqn:Htext; cbn [negb]; [|intros [Hin|[]]; discriminate Hin].
  destruct (orUndef textParam _) as [text|] eqn:Htv; [|discriminate Htext].
  destruct (toStringThrows _ || lengthThrows _)%bool; [intros [Hin|[]]; discriminate Hin|].
  assert (forall rest, In (Fetch u a b) (GetUser token :: rest) -> In (Fetch u a b) rest)
    as Htail by (intros rest [Hin|Hin]; [discriminate Hin|exact Hin]).
  destruct (fetched env) as [st payload|]; [destruct (negb (isOk st))|];
    rewrite ?passOn_calls; [| destruct payload| ]; cbn [fst];
    intros Hin; apply Htail in Hin; destruct Hin as [Hin|[]];
    injection Hin as <- <- <-; unfold stringify; simpl; eauto.
Qed.

(** The second handler for [POST /api/openai/tts] never runs: the first
    one tests the same URL and method and always answers.  So the
    response does not depend on how that handler computes the speed, the
    request is answered by the first handler, and what goes to the
    provider has [response_format] [mp3] and the [speed] the client gave
    ([1] for a falsy one), neither clamped nor parsed, whatever
    [response_format] the client asked for. *)
Theorem second_tts_handler_never_runs
    (otherSpeed : option json -> Result json) (env : Env) (req : HttpRequest) :
  handleRequest numberToString JSON_parse encodeURIComponent clampSpeed OPENAI_API_KEY DEEPGRAM_API_KEY env req
  = handleRequest numberToString JSON_parse encodeURIComponent otherSpeed OPENAI_API_KEY DEEPGRAM_API_KEY
      env req
  /\ (method req = "POST" -> url req = "/api/openai/tts" ->
      route numberToString JSON_parse encodeURIComponent clampSpeed OPENAI_API_KEY DEEPGRAM_API_KEY env req
      = catch (openaiTts JSON_parse OPENAI_API_KEY env req))
  /\ (forall u a b,
        url req = "/api/openai/tts" ->
        In (Fetch u a b)
          (fst (handleRequest numberToString JSON_parse encodeURIComponent clampSpeed OPENAI_API_KEY
                  DEEPGRAM_API_KEY env req)) ->
        field "response_format" b = Some (JStr "mp3")
        /\ field "speed" b
           = Some (orElse (field "speed" (parseParams JSON_parse (body req))) (JNum 1))).
Proof.
  assert (method req = "POST" -> url req = "/api/openai/tts" ->
          route numberToString JSON_parse encodeURIComponent clampSpeed OPENAI_API_KEY DEEPGRAM_API_KEY env req
          = catch (openaiTts JSON_parse OPENAI_API_KEY env req)) as Hfirst.
  { intros Hm Hu. unfold route. rewrite Hm, Hu. reflexivity. }
  split; [|split; [exact Hfirst|]].
  - unfold handleRequest, route.
    repeat match goal with
           | |- context [if ?b then _ else _] => destruct b; try reflexivity
           end.
  - intros u a b Hu Hin. rewrite handleRequest_route in Hin. cbn [fst] in Hin.
    destruct (String.eqb_spec (method req) "POST") as [Hm|Hm].
    2:{ exfalso. unfold route in Hin. rewrite Hu in Hin.
        rewrite (proj2 (String.eqb_neq _ _) Hm) in Hin.
        destruct (String.eqb (method req) "OPTIONS"); simpl in Hin; destruct Hin. }
    rewrite (Hfirst Hm Hu), catch_calls in Hin.
    apply openaiTts_fetch in Hin as (text & model & voice & ->). split; reflexivity.
Qed.

Lemma route_post (env : Env) (req : HttpRequest) :
  method req = "POST" ->
  let r := route numberToString JSON_parse encodeURIComponent clampSpeed OPENAI_API_KEY DEEPGRAM_API_KEY
             env req in
  (url req = "/openai/token" -> r = catch (openaiToken OPENAI_API_KEY env req))
  /\ (url req = "/api/openai/ephemeral-token" ->
      r = catch (ephemeralToken numberToString JSON_parse OPENAI_API_KEY env req))
  /\ (url req = "/api/soniox/token" -> r = catch (sonioxToken env req))
  /\ (url req = "/api/openai/tts" -> r = catch (openaiTts JSON_parse OPENAI_API_KEY env req))
  /\ (url req = "/api/deepgram/tts" ->
      r = catch (deepgramTts numberToString JSON_parse encodeURIComponent DEEPGRAM_API_KEY env req)).
Proof.
  intros Hm r. subst r. unfold route. rewrite Hm.
  repeat split; intros ->; reflexivity.
Qed.

Lemma parseParams_unreadable (data : string) :
  JSON_parse data = None -> parseParams JSON_parse data = JObj [].
Proof. intros H. unfold parseParams. rewrite H. destruct (isEmpty data); reflexivity. Qed.

(** A body that is not JSON counts as no body.  The [catch] around
    [JSON.parse] leaves [params] empty, so the request is answered as if
    its body were empty: the token endpoint uses its default voice and
    model, and the speech endpoints answer a verified user with [400
    Missing required field: text].  A body that is the JSON [null] parses,
    and reading a parameter of it raises: the verified user gets [500],
    and no provider is called. *)
Theorem unreadable_body_means_no_parameters (env : Env) (req : HttpRequest) :
  let handle := handleRequest numberToString JSON_parse encodeURIComponent clampSpeed OPENAI_API_KEY
                  DEEPGRAM_API_KEY env in
  (JSON_parse (body req) = None ->
   handle req = handle (mkHttpRequest (method req) (url req) (authHeader req) EmptyString))
  /\ (forall token id,
        JSON_parse (body req) = None ->
        method req = "POST" -> url req = "/api/openai/tts" ->
        bearerToken (authHeader req) = Some token -> user env = AuthUser id ->
        handle req
        = ([GetUser token],
           mkResponse 400 (corsHeaders ++ [("Content-Type", "application/json")])
             (BJson (JObj [("error", JStr "Missing required field: text")]))))
  /\ (forall token id,
        isEmpty (body req) = false -> JSON_parse (body req) = Some JNull ->
        method req = "POST" ->
        url req = "/api/openai/ephemeral-token" \/ url req = "/api/openai/tts" ->
        bearerToken (authHeader req) = Some token -> user env = AuthUser id ->
        handle req
        = ([GetUser token],
           mkResponse 500 (corsHeaders ++ [("Content-Type", "application/json")])
             (BJson (JObj [("error", JStr "Internal server error")])))).
Proof.
  intros handle. subst handle. split; [|split].
  - intros Hp. apply parseParams_unreadable in Hp.
    unfold handleRequest, route, ephemeralToken, openaiTts, deepgramTts, openaiTtsSecond,
      openaiToken, sonioxToken, withUser.
    cbn [method url authHeader body]. rewrite Hp.
    change (parseParams JSON_parse EmptyString) with (JObj []). reflexivity.
  - intros token id Hp Hm Hu Hb Hauth. apply parseParams_unreadable in Hp.
    rewrite handleRequest_route.
    destruct (route_post env req Hm) as (_ & _ & _ & He & _). rewrite (He Hu).
    unfold openaiTts, withUser. rewrite Hb, Hauth, Hp. reflexivity.
  - intros token id He Hp Hm Hu Hb Hauth.
    assert (parseParams JSON_parse (body req) = JNull) as Hnull
      by (unfold parseParams; rewrite He, Hp; reflexivity).
    rewrite handleRequest_route.
    destruct (route_post env req Hm) as (_ & He1 & _ & He2 & _).
    destruct Hu as [Hu|Hu]; [rewrite (He1 Hu)|rewrite (He2 Hu)];
      unfold ephemeralToken, openaiTts, withUser; rewrite Hb, Hauth, Hnull; reflexivity.
Qed.

(** The ephemeral-token endpoint, for a verified user whose parameters
    can be read.  One session request goes to the provider, with the
    server's key in the [Authorization] header, the model and the mapped
    voice.  If the provider answers 404 the handler answers [200] and
    hands out the server's own key as [ephemeralKey], marked [fallback];
    any other failure status gives [500].  A successful answer gives the
    client secret of the session (or its [api_key] when there is none)
    and its expiry.  A [fetch] that rejects gives [500]. *)
Theorem ephemeral_token_outcomes
    (env : Env) (req : HttpRequest) (token id : string) (voice : VoiceValue) :
  method req = "POST" -> url req = "/api/openai/ephemeral-token" ->
  bearerToken (authHeader req) = Some token -> user env = AuthUser id ->
  parseParams JSON_parse (body req) <> JNull ->
  realtimeVoice numberToString (orElse (field "voice" (parseParams JSON_parse (body req))) (JStr "nova"))
  = Ok voice ->
  let model := orElse (field "model" (parseParams JSON_parse (body req)))
                 (JStr "gpt-4o-realtime-preview-2024-12-17") in
  let out := handleRequest numberToString JSON_parse encodeURIComponent clampSpeed OPENAI_API_KEY
               DEEPGRAM_API_KEY env req in
  let json200 v := mkResponse 200 (corsHeaders ++ [("Content-Type", "application/json")])
                     (BJson v) in
  let json500 m := mkResponse 500 (corsHeaders ++ [("Content-Type", "application/json")])
                     (BJson (JObj [("error", JStr m)])) in
  fst out = [GetUser token;
             Fetch "https://api.openai.com/v1/realtime/sessions"
               (String.append "Bearer " OPENAI_API_KEY)
               (stringify [("model", Some model); ("voice", voiceJson voice);
                           ("modalities", Some (JArr [JStr "text"; JStr "audio"]))])]
  /\ (forall payload, fetched env = Responded 404 payload ->
        snd out = json200 (stringify [("ephemeralKey", Some (JStr OPENAI_API_KEY));
                                      ("model", Some model); ("voice", voiceJson voice);
                                      ("fallback", Some (JBool true))]))
  /\ (forall st payload, fetched env = Responded st payload -> isOk st = false ->
        st <> 404%Z -> snd out = json500 "Failed to create OpenAI session")
  /\ (forall st text sessionData,
        fetched env = Responded st (Some text) -> isOk st = true ->
        JSON_parse text = Some sessionData -> sessionData <> JNull ->
        snd out = json200 (stringify
                             [("ephemeralKey",
                               orUndef (optChain "value" (field "client_secret" sessionData))
                                 (field "api_key" sessionData));
                              ("model", Some model); ("voice", voiceJson voice);
                              ("expiresAt",
                               optChain "expires_at" (field "client_secret" sessionData))]))
  /\ (fetched env = FetchFailed -> snd out = json500 "Internal server error").
Proof.
  intros Hm Hu Hb Hauth Hnn Hvoice model out json200 json500. subst out.
  rewrite handleRequest_route.
  destruct (route_post env req Hm) as (_ & He & _). rewrite (He Hu). clear He.
  assert (getProp "voice" (parseParams JSON_parse (body req))
          = Ok (field "voice" (parseParams JSON_parse (body req)))) as Hgp
    by (destruct (parseParams JSON_parse (body req)); [contradiction|reflexivity..]).
  unfold ephemeralToken, withUser. rewrite Hb, Hauth. cbv zeta. rewrite Hgp, Hvoice.
  fold model.
  split; [|split; [|split; [|split]]].
  - rewrite catch_calls. cbn [fst]. f_equal.
    destruct (fetched env) as [st payload|]; [|reflexivity].
    destruct (negb (isOk st)); [destruct (Z.eqb st 404); reflexivity|].
    destruct (payload ≫= JSON_parse); [|reflexivity].
    destruct (getProp "client_secret" j); reflexivity.
  - intros payload ->. reflexivity.
  - intros st payload -> Hok Hst. rewrite Hok. cbn [negb].
    rewrite (proj2 (Z.eqb_neq _ _) Hst). reflexivity.
  - intros st text sessionData -> Hok Hparse Hsn. rewrite Hok. cbn [negb].
    cbn [mbind option_bind]. rewrite Hparse.
    assert (getProp "client_secret" sessionData = Ok (field "client_secret" sessionData)) as ->
      by (destruct sessionData; [contradiction|reflexivity..]).
    reflexivity.
  - intros ->. reflexivity.
Qed.

(** The order of the checks of the two speech endpoints.  Deepgram
    without a key answers [503] to anyone, before the token is looked at.
    Then a request without a bearer token gets [401] and the verifier is
    not called; a token the verifier rejects gets [401], a verifier that
    throws gives [500].  Only a verified user's body is read: the JSON
    [null] gives [500], and a body without a truthy [text] or [input]
    gives [400].  None of these calls a provider. *)
Theorem speech_checks_in_order (env : Env) (req : HttpRequest) :
  method req = "POST" ->
  let out := handleRequest numberToString JSON_parse encodeURIComponent clampSpeed OPENAI_API_KEY
               DEEPGRAM_API_KEY env req in
  let answer st m := mkResponse st (corsHeaders ++ [("Content-Type", "application/json")])
                       (BJson (JObj [("error", JStr m)])) in
  (url req = "/api/deepgram/tts" -> truthyStr DEEPGRAM_API_KEY = false ->
   out = ([], answer 503%Z "Deepgram TTS not configured"))
  /\ (url req = "/api/openai/tts"
      \/ (url req = "/api/deepgram/tts" /\ truthyStr DEEPGRAM_API_KEY = true) ->
      (bearerToken (authHeader req) = None ->
       out = ([], answer 401%Z "Unauthorized: No token provided"))
      /\ (forall token, bearerToken (authHeader req) = Some token ->
            (user env = AuthRejected ->
             out = ([GetUser token], answer 401%Z "Unauthorized: Invalid token"))
            /\ (forall m, user env = AuthThrew m ->
                  out = ([GetUser token], answer 500%Z "Internal server error"))
            /\ (forall id, user env = AuthUser id ->
                  (parseParams JSON_parse (body req) = JNull ->
                   out = ([GetUser token], answer 500%Z "Internal server error"))
                  /\ (parseParams JSON_parse (body req) <> JNull ->
                      truthy (orUndef (field "text" (parseParams JSON_parse (body req)))
                                (field "input" (parseParams JSON_parse (body req)))) = false ->
                      out = ([GetUser token], answer 400%Z "Missing required field: text"))))).
Proof.
  intros Hm out answer. subst out. rewrite handleRequest_route.
  destruct (route_post env req Hm) as (_ & _ & _ & Htts & Hdg).
  split.
  - intros Hu Hkey. rewrite (Hdg Hu). unfold deepgramTts. rewrite Hkey. reflexivity.
  - intros Hwhich.
    assert (exists rest,
              route numberToString JSON_parse encodeURIComponent clampSpeed OPENAI_API_KEY DEEPGRAM_API_KEY
                env req = catch (withUser env req rest)
              /\ (parseParams JSON_parse (body req) = JNull -> exists e, rest = ([], Throw e))
              /\ (parseParams JSON_parse (body req) <> JNull ->
                  truthy (orUndef (field "text" (parseParams JSON_parse (body req)))
                            (field "input" (parseParams JSON_parse (body req)))) = false ->
                  rest = ([], Ok (errorResponse 400 "Missing required field: text"))))
      as (rest & -> & Hnull & Htext).
    { destruct Hwhich as [Hu|(Hu & Hkey)].
      - rewrite (Htts Hu). unfold openaiTts. eexists. split; [reflexivity|]. split.
        + intros ->. eexists. reflexivity.
        + intros Hnn Ht. cbv zeta.
          assert (getProp "text" (parseParams JSON_parse (body req))
                  = Ok (field "text" (parseParams JSON_parse (body req)))) as ->
            by (destruct (parseParams JSON_parse (body req)); [contradiction|reflexivity..]).
          rewrite Ht. reflexivity.
      - rewrite (Hdg Hu). unfold deepgramTts. rewrite Hkey. cbn [negb].
        eexists. split; [reflexivity|]. split.
        + intros ->. eexists. reflexivity.
        + intros Hnn Ht. cbv zeta.
          assert (getProp "text" (parseParams JSON_parse (body req))
                  = Ok (field "text" (parseParams JSON_parse (body req)))) as ->
            by (destruct (parseParams JSON_parse (body req)); [contradiction|reflexivity..]).
          rewrite Ht. reflexivity. }
    unfold withUser. split.
    + intros ->. reflexivity.
    + intros token ->. split; [|split].
      * intros ->. reflexivity.
      * intros m ->. reflexivity.
      * intros id ->. split.
        -- intros Hn. destruct (Hnull Hn) as (e & ->). reflexivity.
        -- intros Hnn Ht. rewrite (Htext Hnn Ht). reflexivity.
Qed.

(** What the provider answers to a speech request is passed on.  For a
    verified user with a text, [POST /api/openai/tts] makes one request
    with the server's key.  A failure status of the provider becomes the
    status of the response, with the provider's text after [OpenAI TTS
    failed: ] (a status that [writeHead] refuses gives [500]); a
    success gives the bytes as [audio/mpeg] with their length; a [fetch]
    or a body that cannot be read gives [500]. *)
Theorem speech_provider_answer_is_passed_on
    (env : Env) (req : HttpRequest) (token id : string) (text : json) :
  method req = "POST" -> url req = "/api/openai/tts" ->
  bearerToken (authHeader req) = Some token -> user env = AuthUser id ->
  parseParams JSON_parse (body req) <> JNull ->
  orUndef (field "text" (parseParams JSON_parse (body req)))
    (field "input" (parseParams JSON_parse (body req))) = Some text ->
  truthy (Some text) = true ->
  toStringThrows (orElse (field "voice" (parseParams JSON_parse (body req))) (JStr "nova"))
  = false ->
  lengthThrows (Some text) = false ->
  let out := handleRequest numberToString JSON_parse encodeURIComponent clampSpeed OPENAI_API_KEY
               DEEPGRAM_API_KEY env req in
  let answer st m := mkResponse st (corsHeaders ++ [("Content-Type", "application/json")])
                       (BJson (JObj [("error", JStr m)])) in
  fst out
  = [GetUser token;
     Fetch "https://api.openai.com/v1/audio/speech" (String.append "Bearer " OPENAI_API_KEY)
       (JObj [("model", orElse (field "model" (parseParams JSON_parse (body req)))
                          (JStr "tts-1"));
              ("input", text);
              ("voice", orElse (field "voice" (parseParams JSON_parse (body req)))
                          (JStr "nova"));
              ("speed", orElse (field "speed" (parseParams JSON_parse (body req))) (JNum 1));
              ("response_format", JStr "mp3")])]
  /\ (forall st errorText,
        fetched env = Responded st (Some errorText) -> isOk st = false ->
        snd out = if validStatus st
                  then answer st (String.append "OpenAI TTS failed: " errorText)
                  else answer 500%Z "Internal server error")
  /\ (forall st audioData,
        fetched env = Responded st (Some audioData) -> isOk st = true ->
        snd out = mkResponse 200
                    (corsHeaders ++ [("Content-Type", "audio/mpeg");
                                     ("Content-Length", pretty (String.length audioData))])
                    (BBytes audioData))
  /\ (fetched env = FetchFailed \/ (exists st, fetched env = Responded st None) ->
      snd out = answer 500%Z "Internal server error").
Proof.
  intros Hm Hu Hb Hauth Hnn Htext Htruthy Hvoice Hlen out answer. subst out.
  rewrite handleRequest_route.
  destruct (route_post env req Hm) as (_ & _ & _ & He & _). rewrite (He Hu). clear He.
  assert (getProp "text" (parseParams JSON_parse (body req))
          = Ok (field "text" (parseParams JSON_parse (body req)))) as Hgp
    by (destruct (parseParams JSON_parse (body req)); [contradiction|reflexivity..]).
  unfold openaiTts, withUser. rewrite Hb, Hauth. cbv zeta.
  rewrite Hgp, Htext, Htruthy, Hvoice, Hlen. cbn [negb orb fst snd].
  split; [|split; [|split]].
  - rewrite catch_calls. cbn [fst]. f_equal.
    destruct (fetched env) as [st payload|]; [|reflexivity].
    destruct (negb (isOk st)); [rewrite passOn_calls|destruct payload]; reflexivity.
  - intros st errorText -> Hok. rewrite Hok. cbn [negb]. unfold passOn.
    destruct (validStatus st); reflexivity.
  - intros st audioData -> Hok. rewrite Hok. reflexivity.
  - intros [->|(st & ->)]; [reflexivity|].
    destruct (negb (isOk st)); reflexivity.
Qed.

(** The Deepgram endpoint.  For a verified user with a text the model is
    URI-encoded into the query string, but the encoding is pasted as the
    client gave it; the key goes in a [Token] header and only the text
    in the body.  The audio that comes back is labelled [audio/mpeg]
    unless the encoding is exactly [wav], [opus] or [flac]. *)
Theorem deepgram_request_and_content_type
    (env : Env) (req : HttpRequest) (token id key : string) (text : json)
    (encodedModel : string) :
  method req = "POST" -> url req = "/api/deepgram/tts" ->
  DEEPGRAM_API_KEY = Some key -> isEmpty key = false ->
  bearerToken (authHeader req) = Some token -> user env = AuthUser id ->
  parseParams JSON_parse (body req) <> JNull ->
  orUndef (field "text" (parseParams JSON_parse (body req)))
    (field "input" (parseParams JSON_parse (body req))) = Some text ->
  truthy (Some text) = true ->
  let model := orElse (field "model" (parseParams JSON_parse (body req)))
                 (JStr "aura-asteria-en") in
  let encoding := orElse (field "encoding" (parseParams JSON_parse (body req)))
                    (JStr "mp3") in
  (toStringThrows model || lengthThrows (Some text) || toStringThrows encoding)%bool = false ->
  encodeURIComponent (toStr numberToString model) = Some encodedModel ->
  let out := handleRequest numberToString JSON_parse encodeURIComponent clampSpeed OPENAI_API_KEY
               DEEPGRAM_API_KEY env req in
  fst out
  = [GetUser token;
     Fetch (String.append "https://api.deepgram.com/v1/speak?model="
              (String.append encodedModel (String.append "&encoding=" (toStr numberToString encoding))))
       (String.append "Token " key)
       (JObj [("text", text)])]
  /\ (forall st audioData,
        fetched env = Responded st (Some audioData) -> isOk st = true ->
        exists contentType,
          snd out = mkResponse 200
                      (corsHeaders ++ [("Content-Type", contentType);
                                       ("Content-Length", pretty (String.length audioData))])
                      (BBytes audioData)
          /\ (encoding = JStr "wav" -> contentType = "audio/wav")
          /\ (encoding = JStr "opus" -> contentType = "audio/opus")
          /\ (encoding = JStr "flac" -> contentType = "audio/flac")
          /\ (encoding <> JStr "wav" -> encoding <> JStr "opus" -> encoding <> JStr "flac" ->
              contentType = "audio/mpeg")).
Proof.
  intros Hm Hu Hkey Hne Hb Hauth Hnn Htext Htruthy model encoding Hthrows Henc out. subst out.
  rewrite handleRequest_route.
  destruct (route_post env req Hm) as (_ & _ & _ & _ & He). rewrite (He Hu). clear He.
  assert (getProp "text" (parseParams JSON_parse (body req))
          = Ok (field "text" (parseParams JSON_parse (body req)))) as Hgp
    by (destruct (parseParams JSON_parse (body req)); [contradiction|reflexivity..]).
  unfold deepgramTts, withUser. rewrite Hkey. cbn [truthyStr]. rewrite Hne. cbn [negb].
  rewrite Hb, Hauth. cbv zeta. rewrite Hgp, Htext, Htruthy. cbn [negb].
  fold model encoding. rewrite Hthrows, Henc. cbn [default fst snd].
  split.
  - rewrite catch_calls. cbn [fst]. f_equal.
    destruct (fetched env) as [st payload|]; [|reflexivity].
    destruct (negb (isOk st)); [rewrite passOn_calls|destruct payload]; reflexivity.
  - intros st audioData -> Hok. rewrite Hok. cbn [negb catch snd status headers resBody].
    eexists. split; [reflexivity|].
    assert (forall lit, isStr lit (Some encoding) = true <-> encoding = JStr lit) as Hlit.
    { intros lit. unfold isStr. destruct encoding; split; try discriminate.
      - intros H. apply String.eqb_eq in H. congruence.
      - intros [= ->]. apply String.eqb_refl. }
    repeat split.
    + intros Hw. rewrite Hw. reflexivity.
    + intros Hw. rewrite Hw. reflexivity.
    + intros Hw. rewrite Hw. reflexivity.
    + intros H1 H2 H3.
      destruct (isStr "mp3" (Some encoding)); [reflexivity|].
      destruct (isStr "wav" (Some encoding)) eqn:E1; [apply Hlit in E1; contradiction|].
      destruct (isStr "opus" (Some encoding)) eqn:E2; [apply Hlit in E2; contradiction|].
      destruct (isStr "flac" (Some encoding)) eqn:E3; [apply Hlit in E3; contradiction|].
      reflexivity.
Qed.

(** The older copies.  The copy with the [/deepgram/token] endpoint hands
    the provider key itself to a verified user; the current callback
    answers the same request with [404] and calls nothing.  The oldest
    callback knows the health check only: it sets no CORS header, has no
    preflight answer, and answers any other URL with [404]. *)
Theorem older_http_copies (deepgramKey : string) (env : Env) (req : HttpRequest) :
  (forall token id,
     method req = "POST" -> url req = "/deepgram/token" ->
     bearerToken (authHeader req) = Some token -> user env = AuthUser id ->
     olderHandleRequest deepgramKey env req
     = ([GetUser token],
        mkResponse 200 (corsHeaders ++ [("Content-Type", "application/json")])
          (BJson (JObj [("api_key", JStr deepgramKey); ("expires_in", JNum 3600)]))))
  /\ (method req <> "OPTIONS" -> url req = "/deepgram/token" ->
      handleRequest numberToString JSON_parse encodeURIComponent clampSpeed OPENAI_API_KEY DEEPGRAM_API_KEY
        env req
      = ([], mkResponse 404 corsHeaders (BText "Not Found")))
  /\ (url req <> "/health" -> url req <> "/" ->
      oldestHandleRequest env req = ([], mkResponse 404 [] (BText "Not Found"))).
Proof.
  split; [|split].
  - intros token id Hm Hu Hb Hauth. unfold olderHandleRequest, olderDeepgramToken, withUser.
    rewrite Hm, Hu, Hb, Hauth. reflexivity.
  - intros Hm Hu. unfold handleRequest, route.
    rewrite (proj2 (String.eqb_neq _ _) Hm), Hu. reflexivity.
  - intros Hh Hr. unfold oldestHandleRequest.
    rewrite (proj2 (String.eqb_neq _ _) Hh), (proj2 (String.eqb_neq _ _) Hr). reflexivity.
Qed.

End HttpProperties.

(** ** Some requests *)

(** A verified user asks for the voice [constructor]: the session request
    has no [voice], and with a provider that answers 404 neither has the
    response, which holds the server's key. *)
Example voice_named_constructor :
  exampleHandle (verified (Responded 404 None))
    (postTo "/api/openai/ephemeral-token" "jwt" (q2s "{qvoiceq:qconstructorq}"))
  = ([GetUser "jwt";
      Fetch "https://api.openai.com/v1/realtime/sessions" "Bearer sk-openai"
        (JObj [("model", JStr "gpt-4o-realtime-preview-2024-12-17");
               ("modalities", JArr [JStr "text"; JStr "audio"])])],
     mkResponse 200 (corsHeaders ++ [("Content-Type", "application/json")])
       (BJson (JObj [("ephemeralKey", JStr "sk-openai");
                     ("model", JStr "gpt-4o-realtime-preview-2024-12-17");
                     ("fallback", JBool true)]))).
Proof. vm_compute. reflexivity. Qed.

(** The body [null] of a verified user. *)
Example body_null :
  exampleHandle (verified FetchFailed) (postTo "/api/openai/tts" "jwt" "null")
  = ([GetUser "jwt"],
     mkResponse 500 (corsHeaders ++ [("Content-Type", "application/json")])
       (BJson (JObj [("error", JStr "Internal server error")]))).
Proof. vm_compute. reflexivity. Qed.

(** A body that is no JSON, and a request without a bearer token for a
    path that is no endpoint. *)
Example body_unreadable :
  exampleHandle (verified FetchFailed) (postTo "/api/openai/tts" "jwt" "{text")
  = ([GetUser "jwt"],
     mkResponse 400 (corsHeaders ++ [("Content-Type", "application/json")])
       (BJson (JObj [("error", JStr "Missing required field: text")])))
  /\ exampleHandle (verified FetchFailed) (mkHttpRequest "GET" "/api/openai/tts" None EmptyString)
     = ([], mkResponse 404 corsHeaders (BText "Not Found")).
Proof. split; vm_compute; reflexivity. Qed.

(** A Deepgram encoding that carries a second query parameter reaches the
    provider's URL as it is. *)
Example encoding_is_not_escaped :
  fst (exampleHandle (verified (Responded 200 (Some "RIFF")))
         (postTo "/api/deepgram/tts" "jwt"
            (q2s "{qtextq:qhiq,qencodingq:qwav&model=otherq}")))
  = [GetUser "jwt";
     Fetch "https://api.deepgram.com/v1/speak?model=aura-asteria-en&encoding=wav&model=other"
       "Token dg-key" (JObj [("text", JStr "hi")])].
Proof. vm_compute. reflexivity. Qed.

(** * Concrete runs *)

(** ** Readiness across a restart *)

(** C1 says that [isReady] is false right after every [start] and that
    each upstream session sets it once, on its first frame, with exactly
    one [proxy_ready].  The code breaks this on a restart.  A client
    starts a session, the provider answers (one [proxy_ready], [isReady]
    true), and the client sends [start] again.  [connectToSoniox] closes
    and detaches the first socket but leaves [isReady] as it is, so it is
    still true right after the second [start]; when the second socket
    opens and the provider's first frame on it arrives before the first
    socket's [close] event, the handler finds [isReady] true and writes no
    [proxy_ready]: two sessions have answered and one [proxy_ready] was
    sent.  When the stale [close] then arrives it clears [isReady] and
    detaches the second, open socket, and a later frame of the second
    session is announced with [proxy_ready]. *)
Theorem restart_while_ready_keeps_isReady :
  exists w1 w2 w3 w4,
    run parse_json "sk-test" initial ready = Some w1
    /\ (isReady <$> heap w1 !! 0) = Some true
    /\ countProxyReady (log w1) = 1
    /\ run parse_json "sk-test" initial restartedWhileReady = Some w2
    /\ heap w2 !! 0 = Some (mkConn 0 None "c1" true)
    /\ run parse_json "sk-test" initial secondSessionAnswers = Some w3
    /\ heap w3 !! 0 = Some (mkConn 0 (Some 2) "c1" true)
    /\ countProxyReady (log w3) = 1
    /\ List.last (log w3) (AVerify EmptyString) = ASend 0 ClientLeg OPEN (PText "ack2")
    /\ run parse_json "sk-test" initial staleCloseThenFrame = Some w4
    /\ heap w4 !! 0 = Some (mkConn 0 None "c1" true)
    /\ stateOf 2 w4 = Some OPEN
    /\ countProxyReady (log w4) = 2.
Proof.
  do 4 eexists.
  split; [vm_compute; reflexivity|].
  split; [vm_compute; reflexivity|].
  split; [vm_compute; reflexivity|].
  split; [vm_compute; reflexivity|].
  split; [vm_compute; reflexivity|].
  split; [vm_compute; reflexivity|].
  split; [vm_compute; reflexivity|].
  split; [vm_compute; reflexivity|].
  split; [vm_compute; reflexivity|].
  split; [vm_compute; reflexivity|].
  split; [vm_compute; reflexivity|].
  split; vm_compute; reflexivity.
Qed.

(** ** Two sessions for one record *)

(** C2 says that a [start] closes any existing upstream session before it
    opens the new one, so that a record never has two live sessions.  The
    code breaks this for a session that is still connecting.
    [connectToSoniox] closes the socket stored in [sonioxWs], and a socket
    is stored there only when it opens.  Two [start] frames in succession
    therefore leave two upstream sockets connecting for the same record,
    the first never closed; both open, the second overwrites the first in
    [sonioxWs], and the first stays open with its handlers on the record. *)
Theorem start_twice_leaves_two_live_sessions :
  exists w1 w2,
    run parse_json "sk-test" initial startTwice = Some w1
    /\ liveUpstream 0 w1 = [1; 2]
    /\ List.filter (isCloseOf 1) (log w1) = []
    /\ run parse_json "sk-test" initial startTwiceBothOpen = Some w2
    /\ liveUpstream 0 w2 = [1; 2]
    /\ stateOf 1 w2 = Some OPEN /\ stateOf 2 w2 = Some OPEN
    /\ (sonioxWs <$> heap w2 !! 0) = Some (Some 2)
    /\ List.filter (isCloseOf 1) (log w2) = [].
Proof.
  do 2 eexists.
  split; [vm_compute; reflexivity|].
  split; [vm_compute; reflexivity|].
  split; [vm_compute; reflexivity|].
  split; [vm_compute; reflexivity|].
  split; [vm_compute; reflexivity|].
  split; [vm_compute; reflexivity|].
  split; [vm_compute; reflexivity|].
  split; vm_compute; reflexivity.
Qed.

(** ** A request target that does not parse *)

(** C7 says that an upgrade request from which no token can be read is
    refused with the [Unauthorized] frame and a close, before the verifier
    is called.  The handler parses the request target first, with [new
    URL(req.url, ...)], outside any [try].  For a target that does not
    parse, as in [GET //], the constructor raises, the [async] handler
    rejects and nothing handles the rejection: no frame is sent, [close]
    is not called, and the process ends with the sessions it was serving;
    no event can follow.  The verifier call a few lines further down is
    guarded: when it raises, the client gets an error frame and the close
    code 1011, and the relay goes on. *)
Theorem unparsable_target_ends_process :
  extractToken unparsableRequest = Throw "TypeError: Invalid URL"
  /\ (forall auth,
        exists w',
          step parse_json "sk-test" (worldAfter started) (Upgrade "c2" unparsableRequest auth)
          = Some w'
          /\ crashed w' = true
          /\ log w' = log (worldAfter started)
          /\ forall e, step parse_json "sk-test" w' e = None)
  /\ exists w',
       step parse_json "sk-test" (worldAfter started)
         (Upgrade "c2" tokenRequest (AuthThrew "fetch failed")) = Some w'
       /\ crashed w' = false
       /\ log w' = log (worldAfter started)
                   ++ [AVerify "jwt";
                       ASend 2 ClientLeg OPEN
                         (PJson (JObj [("type", JStr "error");
                                       ("message", JStr "Authentication error");
                                       ("code", JNum 500)]));
                       AClose 2 OPEN (Some 1011%Z)].
Proof.
  split; [reflexivity|]. split.
  - intros auth. exists (setCrashed (worldAfter started)).
    split; [vm_compute; reflexivity|]. split; [reflexivity|]. split; [reflexivity|].
    intros e. reflexivity.
  - eexists. split; [vm_compute; reflexivity|]. split; vm_compute; reflexivity.
Qed.

(** ** The timer after the socket has opened *)

(** Against C3 as stated: the upstream socket opens, the timer of the
    attempt is still pending, the provider closes the socket, the timer
    expires, and the client is sent the timeout error frame. *)
Lemma timeout_frame_after_open :
  exists w1 w2,
    run parse_json "sk-test" initial started = Some w1
    /\ socks w1 !! 1 = Some (mkSock (UpstreamSock 0 "c1"
                               (JObj [("translation",
                                       JObj [("target_language", JStr "es");
                                             ("source_language", JStr "en")])]))
                             OPEN true)
    /\ hasTimer 1 (timers w1) = true
    /\ List.filter isTimeoutSend (log w1) = []
    /\ run parse_json "sk-test" w1 [SonioxClose 1 1006 (Some EmptyString); TimerFired 1]
       = Some w2
    /\ List.filter isTimeoutSend (log w2)
       = [ASend 0 ClientLeg OPEN (PJson timeoutFrame)].
Proof.
  do 2 eexists.
  split; [vm_compute; reflexivity|].
  split; [vm_compute; reflexivity|].
  split; [vm_compute; reflexivity|].
  split; [vm_compute; reflexivity|].
  split; vm_compute; reflexivity.
Qed.

(** ** A [ref] that is not truthy *)

(** Against C9 as stated: a [ping] frame whose [ref] is the empty string
    parses, and the [pong] sent back carries [0], not the caller's [ref]. *)
Lemma ping_with_empty_ref_gets_zero :
  parse_json pingEmptyRef = Some (JObj [("type", JStr "ping"); ("ref", JStr EmptyString)])
  /\ handleClientMessage parse_json "c1" pingEmptyRef false 7 (worldAfter accepted)
     = Ok (emit (ASend 0 ClientLeg OPEN (PJson (pongFrame (JNum 0) 7))) (worldAfter accepted))
  /\ pongFrame (JNum 0) 7 <> pongFrame (JStr EmptyString) 7.
Proof.
  split; [vm_compute; reflexivity|].
  split; [vm_compute; reflexivity|].
  discriminate.
Qed.

(** * Instances *)

(** C3 on two runs.  The client has sent [start]; in the first the
    upstream socket is still connecting when the timer expires, in the
    second the attempt has failed before and the socket is closed. *)
Lemma timeout_checks_state_at_expiry_witness :
  (exists w',
     step parse_json "sk-test" (worldAfter connecting) (TimerFired 1) = Some w'
     /\ log w' = log (worldAfter connecting)
                 ++ [AClose 1 CONNECTING None; ASend 0 ClientLeg OPEN (PJson timeoutFrame)])
  /\ (exists w',
        step parse_json "sk-test" (worldAfter failedAttempt) (TimerFired 1) = Some w'
        /\ log w' = log (worldAfter failedAttempt)
                    ++ [AClose 1 CLOSED None; ASend 0 ClientLeg OPEN (PJson timeoutFrame)]
        /\ countProxyReady (log w') = 0).
Proof.
  split.
  - destruct (proj1 (proj2 (timeout_checks_state_at_expiry parse_json "sk-test"))
                1 0 "c1" sampleConfig (mkConn 0 None "c1" false) CONNECTING false
                (ClientSock (Some "c1")) true (worldAfter connecting))
      as (w' & Hstep & Hlog & _);
      [reflexivity|vm_compute; reflexivity|discriminate|vm_compute; reflexivity
      |vm_compute; reflexivity|vm_compute; reflexivity|].
    exists w'. split; assumption.
  - destruct (proj1 (proj2 (timeout_checks_state_at_expiry parse_json "sk-test"))
                1 0 "c1" sampleConfig (mkConn 0 None "c1" false) CLOSED false
                (ClientSock (Some "c1")) true (worldAfter failedAttempt))
      as (w' & Hstep & Hlog & _);
      [reflexivity|vm_compute; reflexivity|discriminate|vm_compute; reflexivity
      |vm_compute; reflexivity|vm_compute; reflexivity|].
    exists w'. split; [exact Hstep|]. split; [exact Hlog|].
    rewrite Hlog. vm_compute. reflexivity.
Defined.




(** Three requests: a query token; an empty query token and a header
    whose components carry white space; no token. *)
Lemma token_from_query_then_header_witness :
  extractToken tokenRequest = Ok (Some "jwt")
  /\ extractToken paddedRequest = Ok (Some "jwt")
  /\ exists w',
       step parse_json "sk-test" initial (Upgrade "c1" noTokenRequest (AuthUser "u1")) = Some w'
       /\ log w' = [ASend 0 ClientLeg OPEN (PJson unauthorizedFrame);
                    AClose 0 OPEN (Some 1008%Z)].
Proof.
  split; [|split].
  - apply (proj1 (token_from_query_then_header parse_json "sk-test" tokenRequest
                    [("token", "jwt")] eq_refl)); reflexivity.
  - apply (proj1 (proj2 (token_from_query_then_header parse_json "sk-test" paddedRequest
                           [("token", EmptyString)] eq_refl))
             [" soniox "] "  " "jwt" "  " ["v2"]);
      [reflexivity|reflexivity
      |repeat (apply Forall_cons; split; [reflexivity|]); apply Forall_nil; exact I
      |apply Forall_cons; split;
         [intros H; apply isBearerPart_trimStart in H; vm_compute in H; discriminate H
         |apply Forall_nil; exact I]
      |reflexivity|reflexivity|reflexivity].
  - destruct (proj1 (proj2 (proj2 (proj2
                (token_from_query_then_header parse_json "sk-test" noTokenRequest
                   [("lang", "es")] eq_refl))))
                "c1" (AuthUser "u1") initial eq_refl) as (w' & Hstep & Hlog & _);
      [right; left; exists ["soniox"]; split; [reflexivity|]; split;
         [apply Forall_cons; split; [reflexivity|apply Forall_nil; exact I]
         |apply Forall_cons; split;
            [intros H; apply isBearerPart_trimStart in H; vm_compute in H; discriminate H
            |apply Forall_nil; exact I]]
      |reflexivity|reflexivity|].
    exists w'. split; assumption.
Defined.

(** C8 on a run: the frame [{not json]. *)
Lemma malformed_frame_discarded_witness :
  parse_json malformedFrame = None
  /\ step parse_json "sk-test" (worldAfter accepted) (ClientMessage 0 malformedFrame false 7)
     = Some (worldAfter accepted).
Proof.
  split; [reflexivity|].
  apply (malformed_frame_discarded parse_json "sk-test" 0 "c1" malformedFrame false true 7
           (worldAfter accepted)); vm_compute; reflexivity.
Defined.

(** C9 on a run: a [ping] frame with [ref] 42, received at time 5 and
    handled at time 7. *)
Lemma ping_answered_with_pong_witness :
  exists ref timestamp,
    handleClientMessage parse_json "c1" pingFrame false 7 (worldAfter accepted)
    = Ok (emit (ASend 0 ClientLeg OPEN (PJson (pongFrame ref timestamp))) (worldAfter accepted))
    /\ ref = JNum 42 /\ timestamp = 7%Z /\ (5 <= timestamp)%Z.
Proof.
  destruct (ping_answered_with_pong parse_json "c1" pingFrame false 7 5 (worldAfter accepted)
              0 (mkConn 0 None "c1" false) (ClientSock (Some "c1")) true
              (JObj [("type", JStr "ping"); ("ref", JNum 42)]))
    as (ref & timestamp & H & Href & _ & Hts & Hle);
    try (vm_compute; reflexivity); [discriminate|].
  exists ref, timestamp. split; [exact H|]. split; [exact Href|]. split; assumption.
Defined.

(** C10 on a run: every send of a session that became ready. *)
Lemma client_frames_only_to_open_socket_witness :
  exists new,
    log (worldAfter ready) = log initial ++ new
    /\ forall s leg r p, In (ASend s leg r p) new -> r = OPEN.
Proof.
  apply (proj2 (proj2 (proj2 (client_frames_only_to_open_socket parse_json "sk-test")))
           ready initial (worldAfter ready)).
  vm_compute. reflexivity.
Defined.

(** The older copies on a request with a header token only. *)
Lemma older_copies_ignore_protocol_header_witness :
  extractToken headerRequest = Ok (Some "jwt")
  /\ exists w',
       HeaderAuth.onConnection "c1" headerRequest (AuthUser "u1") initial = Ok w'
       /\ log w' = [ASend 0 ClientLeg OPEN (PJson unauthorizedFrame);
                    AClose 0 OPEN (Some 1008%Z)].
Proof.
  split; [reflexivity|].
  destruct (proj1 (older_copies_ignore_protocol_header "c1" headerRequest (AuthUser "u1")
                     initial) [] eq_refl eq_refl) as (w' & Hw & Hlog & _).
  exists w'. split; assumption.
Defined.

(** The oldest copy's [open] handler on the run [connecting], once the
    library has marked socket 1 open. *)
Lemma oldest_copy_ready_on_open_witness :
  log (ReadyOnOpen.onSonioxOpen 1 0 "c1" sampleConfig (markOpen 1 (worldAfter connecting)))
  = log (markOpen 1 (worldAfter connecting))
    ++ [ASend 1 UpstreamLeg OPEN (PJson (JObj (deleteAction (spread sampleConfig))));
        ASend 0 ClientLeg OPEN (PJson (proxyReadyFrame "c1"))].
Proof.
  apply (oldest_copy_ready_on_open 1 0 "c1" sampleConfig (mkConn 0 None "c1" false)
           (markOpen 1 (worldAfter connecting))
           (UpstreamSock 0 "c1" sampleConfig) (ClientSock (Some "c1")) true true);
    vm_compute; reflexivity.
Defined.

(** A second [start] on the run [started], whose socket 1 is attached. *)
Lemma start_closes_attached_session_witness :
  log (connectToSoniox "c1" sampleConfig (worldAfter started))
  = log (worldAfter started) ++ [AClose 1 OPEN None; AConnect 2 SONIOX_URL None].
Proof.
  apply (start_closes_attached_session "c1" sampleConfig (worldAfter started)
           0 (mkConn 0 (Some 1) "c1" false) 1
           (mkSock (UpstreamSock 0 "c1" sampleConfig) OPEN true));
    vm_compute; reflexivity.
Defined.

(** The frame [null] on the run [accepted]. *)
Lemma null_frame_raises_witness :
  parse_json nullFrame = Some JNull
  /\ step parse_json "sk-test" (worldAfter accepted) (ClientMessage 0 nullFrame false 7)
     = Some (setCrashed (worldAfter accepted)).
Proof.
  split; [reflexivity|].
  apply (null_frame_raises parse_json "sk-test" 0 "c1" nullFrame false true 7
           (worldAfter accepted) 0 (mkConn 0 None "c1" false));
    vm_compute; reflexivity.
Defined.

(** The first provider frame on the run [started]. *)
Lemma readiness_within_a_session_witness :
  log (onSonioxMessage 0 "c1" "ack" (worldAfter started))
  = log (worldAfter started)
    ++ [ASend 0 ClientLeg OPEN (PJson (proxyReadyFrame "c1"));
        ASend 0 ClientLeg OPEN (PText "ack")].
Proof.
  apply (proj1 (readiness_within_a_session 0 "c1" "ack" (mkConn 0 (Some 1) "c1" false)
                  (worldAfter started) (ClientSock (Some "c1")) true
                  ltac:(vm_compute; reflexivity) ltac:(vm_compute; reflexivity))).
  reflexivity.
Defined.

(** A second [start] on the run [ready], whose flag is set. *)
Lemma start_leaves_isReady_witness :
  isReady <$> heap (connectToSoniox "c1" sampleConfig (worldAfter ready)) !! 0 = Some true.
Proof.
  apply (start_leaves_isReady "c1" sampleConfig (worldAfter ready) 0
           (mkConn 0 (Some 1) "c1" true)).
  vm_compute. reflexivity.
Defined.


(** SIGTERM on the run [started]. *)
Lemma sigterm_closes_every_connection_witness :
  connections (worldAfter (started ++ [Sigterm ["c1"]])) = ∅
  /\ step parse_json "sk-test" (worldAfter (started ++ [Sigterm ["c1"]]))
       (Upgrade "c2" tokenRequest (AuthUser "u2")) = None.
Proof.
  destruct (sigterm_closes_every_connection parse_json "sk-test" ["c1"]
              (worldAfter started) (worldAfter (started ++ [Sigterm ["c1"]])))
    as (Hc & _ & _ & Hup);
    [exact (wellFormed_run parse_json "sk-test" started initial _ wellFormed_initial
              ltac:(vm_compute; reflexivity))
    |vm_compute; reflexivity|].
  split; [exact Hc|apply Hup].
Defined.

(** A token that the verifier rejects, on the initial world, when the
    client socket is closing by the time the verifier answers. *)
Lemma unaccepted_token_is_refused_witness :
  log (authenticateWhen CLOSING "c1" (Some "jwt") AuthRejected initial)
  = [AVerify "jwt"; AClose 0 CLOSING (Some 1008%Z)]
  /\ heap (authenticateWhen CLOSING "c1" (Some "jwt") AuthRejected initial) = []
  /\ step parse_json "sk-test" initial (Upgrade "c1" tokenRequest AuthRejected)
     = Some (authenticateWhen OPEN "c1" (Some "jwt") AuthRejected initial).
Proof.
  destruct (unaccepted_token_is_refused parse_json "sk-test" CLOSING "c1" AuthRejected
              "jwt" initial)
    as (Hstep & Hlog & _ & _ & Hh & _); [reflexivity|discriminate|].
  split; [exact (Hlog eq_refl)|]. split; [exact Hh|].
  apply Hstep; reflexivity.
Defined.

(** The upstream socket of the run [started] closes. *)
Lemma upstream_loss_keeps_client_witness :
  exists w',
    step parse_json "sk-test" (worldAfter started) (SonioxClose 1 1006 None) = Some w'
    /\ connections w' = connections (worldAfter started)
    /\ socks w' !! 0 = socks (worldAfter started) !! 0.
Proof.
  destruct (upstream_loss_keeps_client parse_json "sk-test" 1 0 "c1" sampleConfig
              OPEN true (worldAfter started))
    as (conn & _ & Hclose & _);
    [exact (wellFormed_run parse_json "sk-test" started initial _ wellFormed_initial
              ltac:(vm_compute; reflexivity))
    |reflexivity|vm_compute; reflexivity|discriminate|].
  destruct (Hclose 1006%Z None) as (w' & Hstep & Hc & Hs & _).
  exists w'. split; [exact Hstep|]. split; [exact Hc|]. apply Hs. discriminate.
Defined.

(** The client [c1] has gone by the time its token is verified; a
    second client then connects and leaves.  The record of [c1] is still
    registered. *)
Lemma disconnect_during_verification_leaves_record_witness :
  connections (default initial
                 (run parse_json "sk-test"
                    (authenticateWhen CLOSED "c1" (Some "jwt") (AuthUser "u1") initial)
                    [Upgrade "c2" tokenRequest (AuthUser "u2"); ClientClose 1])) !! "c1"
  = Some 0.
Proof.
  destruct (disconnect_during_verification_leaves_record parse_json "sk-test"
              "c1" "jwt" "u1" initial)
    as (_ & _ & _ & _ & Hrun);
    [exact wellFormed_initial|reflexivity|intros s sk H; discriminate H|].
  destruct (Hrun [Upgrade "c2" tokenRequest (AuthUser "u2"); ClientClose 1]
              (default initial
                 (run parse_json "sk-test"
                    (authenticateWhen CLOSED "c1" (Some "jwt") (AuthUser "u1") initial)
                    [Upgrade "c2" tokenRequest (AuthUser "u2"); ClientClose 1])))
    as (Hc & _);
    [repeat (apply Forall_cons; split; [reflexivity|]); apply Forall_nil; exact I
    |vm_compute; reflexivity|].
  exact Hc.
Defined.

(** The provider answers 404 to the session request of a verified
    user. *)
Lemma ephemeral_token_outcomes_witness :
  snd (exampleHandle (verified (Responded 404 None))
         (postTo "/api/openai/ephemeral-token" "jwt" (q2s "{qvoiceq:qnovaq}")))
  = mkResponse 200 (corsHeaders ++ [("Content-Type", "application/json")])
      (BJson (JObj [("ephemeralKey", JStr "sk-openai");
                    ("model", JStr "gpt-4o-realtime-preview-2024-12-17");
                    ("voice", JStr "coral");
                    ("fallback", JBool true)])).
Proof.
  destruct (ephemeral_token_outcomes pretty parse_json Some (fun _ => Ok (JNum 1)) "sk-openai"
              (Some "dg-key") (verified (Responded 404 None))
              (postTo "/api/openai/ephemeral-token" "jwt" (q2s "{qvoiceq:qnovaq}"))
              "jwt" "u1" (VoiceName "coral"))
    as (_ & H404 & _);
    [reflexivity|reflexivity|reflexivity|reflexivity|vm_compute; discriminate
    |vm_compute; reflexivity|].
  apply (H404 None). reflexivity.
Defined.

(** A speech request without an [Authorization] header. *)
Lemma speech_checks_in_order_witness :
  exampleHandle (verified FetchFailed) (mkHttpRequest "POST" "/api/openai/tts" None speechBody)
  = ([], mkResponse 401 (corsHeaders ++ [("Content-Type", "application/json")])
           (BJson (JObj [("error", JStr "Unauthorized: No token provided")]))).
Proof.
  destruct (speech_checks_in_order pretty parse_json Some (fun _ => Ok (JNum 1)) "sk-openai"
              (Some "dg-key") (verified FetchFailed)
              (mkHttpRequest "POST" "/api/openai/tts" None speechBody) eq_refl)
    as (_ & H).
  destruct (H (or_introl eq_refl)) as (Hno & _). apply Hno. reflexivity.
Defined.

(** The provider answers 429 to a speech request. *)
Lemma speech_provider_answer_is_passed_on_witness :
  snd (exampleHandle (verified (Responded 429 (Some "slow down")))
         (postTo "/api/openai/tts" "jwt" speechBody))
  = mkResponse 429 (corsHeaders ++ [("Content-Type", "application/json")])
      (BJson (JObj [("error", JStr "OpenAI TTS failed: slow down")])).
Proof.
  destruct (speech_provider_answer_is_passed_on pretty parse_json Some (fun _ => Ok (JNum 1))
              "sk-openai" (Some "dg-key") (verified (Responded 429 (Some "slow down")))
              (postTo "/api/openai/tts" "jwt" speechBody) "jwt" "u1" (JStr "hi"))
    as (_ & Hfail & _);
    [reflexivity|reflexivity|reflexivity|reflexivity|vm_compute; discriminate
    |vm_compute; reflexivity|reflexivity|vm_compute; reflexivity|reflexivity|].
  apply (Hfail 429%Z "slow down"); reflexivity.
Defined.

(** A Deepgram request for [wav]. *)
Lemma deepgram_request_and_content_type_witness :
  fst (exampleHandle (verified (Responded 200 (Some "RIFF")))
         (postTo "/api/deepgram/tts" "jwt" speechBody))
  = [GetUser "jwt";
     Fetch "https://api.deepgram.com/v1/speak?model=aura-asteria-en&encoding=wav"
       "Token dg-key" (JObj [("text", JStr "hi")])].
Proof.
  destruct (deepgram_request_and_content_type pretty parse_json Some (fun _ => Ok (JNum 1))
              "sk-openai" (Some "dg-key") (verified (Responded 200 (Some "RIFF")))
              (postTo "/api/deepgram/tts" "jwt" speechBody) "jwt" "u1" "dg-key" (JStr "hi")
              "aura-asteria-en")
    as (Hcalls & _);
    [reflexivity|reflexivity|reflexivity|reflexivity|reflexivity|reflexivity
    |vm_compute; discriminate|vm_compute; reflexivity|reflexivity|vm_compute; reflexivity
    |vm_compute; reflexivity|].
  exact Hcalls.
Defined.

(** A client starts a session whose [target_language] is the object
    with a [toString] property, and the upstream socket opens. *)
Lemma unprintable_language_ends_process_witness :
  run parse_json "sk-test" initial unprintableConnecting
  = Some (worldAfter unprintableConnecting)
  /\ step parse_json "sk-test" (worldAfter unprintableConnecting) (SonioxOpen 1)
     = Some (setCrashed (worldAfter unprintableConnecting)).
Proof.
  split; [vm_compute; reflexivity|].
  apply (proj1 (unprintable_language_ends_process parse_json "sk-test" 1 0 "c1"
                  (JObj [("translation",
                          JObj [("target_language", JObj [("toString", JNum 1)])])])
                  false (worldAfter unprintableConnecting)
                  ltac:(reflexivity) ltac:(vm_compute; reflexivity)
                  ltac:(discriminate))).
  reflexivity.
Defined.
